(** * Spiking-neuron populations (BP_STDP/in_of_simulator/population.py)

    A shallow embedding of the population classes of [population.py] and
    the properties of their [__init__], [reset] and [forward] methods.

    Modelling choices.
    - A one-dimensional float tensor is a [list R]; a registered scalar
      buffer (a zero-dimensional tensor) is an [R].  Arithmetic is that of
      the real numbers, which the statements about one call and the
      invariants that hold under any rounding are stated in.  The buffers
      of the program hold 32-bit floats; where rounding decides what the
      program does over several steps, [IFPopulation] and
      [HomoeostasisLIFPopulation] are modelled a second time over binary32
      ([IFPopulation_f32], [HomoeostasisLIFPopulation_f32]).
    - A Python object is a record.  An attribute that [__init__] creates
      only under a condition is an [option]; reading it while it is absent
      raises [AttributeError], as attribute lookup on the module does.
    - A method is a computation in a state-and-exception monad in which the
      object survives an exception: the in-place updates made before a
      [raise] stay visible, as they do in Python.
    - The tensor operations used by the file are modelled with the
      broadcasting rule of the library restricted to one dimension: two
      lengths are compatible when they are equal or one of them is 1, and
      an in-place operation cannot change the length of its target.
    - [forward] returns the buffers themselves; the model records their
      contents at the moment of the return. *)

From Stdlib Require Import Reals Lra Lia ZArith.
From Stdlib Require SpecFloat.
From stdpp Require Import list.

Open Scope R_scope.

(** ** Exceptions and the method monad *)

Inductive exn : Type :=
| RuntimeError      (* shape mismatch reported by a tensor operation *)
| AttributeError.   (* missing attribute *)

Definition M (S A : Type) : Type := S -> S * (exn + A).

#[global] Instance M_ret {S} : MRet (M S) :=
  fun A a st => (st, inr a).

#[global] Instance M_bind {S} : MBind (M S) :=
  fun A B k m st =>
    match m st with
    | (st', inr a) => k a st'
    | (st', inl e) => (st', inl e)
    end.

Definition get {S} : M S S := fun st => (st, inr st).

Definition put {S} (st : S) : M S unit := fun _ => (st, inr tt).

Definition lift {S A} (r : exn + A) : M S A := fun st => (st, r).

(** Reading an attribute that may be absent. *)
Definition getattr {S A} (o : option A) : M S A :=
  fun st => match o with
            | Some a => (st, inr a)
            | None => (st, inl AttributeError)
            end.

(** The object after a call, whether the call returned or raised. *)
Definition exec {S A} (m : M S A) (st : S) : S := fst (m st).

(** What the call produced: a value or an exception. *)
Definition result {S A} (m : M S A) (st : S) : exn + A := snd (m st).

(** A driver that feeds one input per time step and keeps going with the
    object as the call left it. *)
Definition steps {X S A} (fwd : X -> M S A) (xs : list X) (st : S) : S :=
  foldl (fun st x => exec (fwd x) st) st xs.

(** The same driver, collecting what each call produced. *)
Fixpoint outputs {X S A} (fwd : X -> M S A) (xs : list X) (st : S)
  : list (exn + A) :=
  match xs with
  | [] => []
  | x :: xs' => result (fwd x) st :: outputs fwd xs' (exec (fwd x) st)
  end.

(** ** Decidable comparisons on the reals *)

#[global] Instance Rle_decision (a b : R) : Decision (a <= b) := Rle_dec a b.
#[global] Instance Rlt_decision (a b : R) : Decision (a < b) := Rlt_dec a b.
#[global] Instance Rge_decision (a b : R) : Decision (a >= b) := Rge_dec a b.
#[global] Instance Rgt_decision (a b : R) : Decision (a > b) := Rgt_dec a b.
#[global] Instance R_eq_decision : EqDecision R := Req_dec_T.

(** ** The fragment of the tensor library used by the populations *)

Abbreviation tensor := (list R).

Module torch.

(** [torch.zeros(n)] *)
Definition zeros (n : nat) : tensor := replicate n 0.

(** [m.float()]: a boolean tensor as 0./1. *)
Definition b2r (b : bool) : R := if b then 1 else 0.
Definition float (m : list bool) : tensor := b2r <$> m.

(** Comparisons of a tensor with a scalar. *)
Definition le_scalar (t : tensor) (c : R) : list bool := (fun a => bool_decide (a <= c)) <$> t.
Definition lt_scalar (t : tensor) (c : R) : list bool := (fun a => bool_decide (a < c)) <$> t.
Definition gt_scalar (t : tensor) (c : R) : list bool := (fun a => bool_decide (a > c)) <$> t.
Definition ge_scalar (t : tensor) (c : R) : list bool := (fun a => bool_decide (a >= c)) <$> t.

(** Arithmetic of a tensor with a scalar. *)
Definition scalar_mul (c : R) (t : tensor) : tensor := (fun a => c * a) <$> t.
Definition mul_scalar (t : tensor) (c : R) : tensor := (fun a => a * c) <$> t.
Definition sub_scalar (t : tensor) (c : R) : tensor := (fun a => a - c) <$> t.
Definition add_scalar (t : tensor) (c : R) : tensor := (fun a => a + c) <$> t.
Definition scalar_add (c : R) (t : tensor) : tensor := (fun a => c + a) <$> t.

(** An out-of-place binary operation on two tensors, with broadcasting. *)
Definition broadcast {A B C} (f : A -> B -> C) (a : list A) (b : list B) : exn + list C :=
  if decide (length a = length b) then inr (zip_with f a b)
  else match a, b with
       | [a0], _ => inr (f a0 <$> b)
       | _, [b0] => inr ((fun ai => f ai b0) <$> a)
       | _, _ => inl RuntimeError
       end.

Definition mul (a b : tensor) : exn + tensor := broadcast Rmult a b.
Definition ge (a b : tensor) : exn + list bool :=
  broadcast (fun ai bi => bool_decide (ai >= bi)) a b.

(** An in-place operation [self op= other]: [other] is broadcast to the
    shape of [self], which never changes. *)
Definition inplace {A B} (f : A -> B -> A) (self : list A) (other : list B) : exn + list A :=
  if decide (length other = length self) then inr (zip_with f self other)
  else match other with
       | [b0] => inr ((fun ai => f ai b0) <$> self)
       | _ => inl RuntimeError
       end.

(** [self += other] *)
Definition iadd (self other : tensor) : exn + tensor := inplace Rplus self other.

(** [self[:] = other] *)
Definition copy_ (self other : tensor) : exn + tensor := inplace (fun _ b => b) self other.

(** [self.masked_fill_(mask, value)] *)
Definition masked_fill_ (self : tensor) (mask : list bool) (value : R) : exn + tensor :=
  inplace (fun a (m : bool) => if m then value else a) self mask.

(** [self.fill_(value)] and [self[:] = value] for a scalar [value] *)
Definition fill_ (self : tensor) (value : R) : tensor := (fun _ => value) <$> self.

(** [self -= c] and [self *= c] for a scalar [c] *)
Definition isub_scalar (self : tensor) (c : R) : tensor := (fun a => a - c) <$> self.
Definition imul_scalar (self : tensor) (c : R) : tensor := (fun a => a * c) <$> self.

(** [t.bool()]: non-zero entries are true. *)
Definition bool (t : tensor) : list Datatypes.bool := (fun a => bool_decide (a <> 0)) <$> t.

End torch.

(** ** class InputPopulation *)

Module InputPopulation.

Record state : Type := mk {
  neurons : nat;
  traces : bool;
  count_spike : bool;
  dt : R;
  s : tensor;
  x : option tensor;           (* registered only if traces *)
  tau_tr : option R;           (* registered only if traces *)
  scale_tr : option R;         (* registered only if traces *)
  spikecount : option tensor   (* registered only if count_spike *)
}.

Definition set_s (a : tensor) (self : state) : state :=
  mk (neurons self) (traces self) (count_spike self) (dt self) a (x self)
     (tau_tr self) (scale_tr self) (spikecount self).

Definition set_x (a : option tensor) (self : state) : state :=
  mk (neurons self) (traces self) (count_spike self) (dt self) (s self) a
     (tau_tr self) (scale_tr self) (spikecount self).

Definition set_spikecount (a : option tensor) (self : state) : state :=
  mk (neurons self) (traces self) (count_spike self) (dt self) (s self) (x self)
     (tau_tr self) (scale_tr self) a.

Definition reset : M state unit :=
  self ← get;
  (* self.x.fill_(0.) *)
  tr ← getattr (x self);
  put (set_x (Some (torch.fill_ tr 0)) self).

Definition __init__ (neurons : nat) (dt : R) (traces : bool) (tau_tr scale_tr : R)
    (count_spike : bool) : exn + state :=
  let self :=
    mk neurons traces count_spike dt (torch.zeros neurons)
       (if traces then Some (torch.zeros neurons) else None)
       (if traces then Some tau_tr else None)
       (if traces then Some scale_tr else None)
       None in
  match reset self with
  | (self, inr _) =>
      inr (if count_spike
           then set_spikecount (Some (torch.zeros neurons)) self
           else self)
  | (_, inl e) => inl e
  end.

Definition forward (x_in : tensor) : M state tensor :=
  (* self.s[:] = x *)
  self ← get;
  s' ← lift (torch.copy_ (s self) x_in);
  put (set_s s' self);;
  (* if self.traces: *)
  self ← get;
  (if traces self then
     (* self.x[:] *= torch.exp(-self.dt / self.tau_tr) *)
     self ← get;
     tr ← getattr (x self);
     tau ← getattr (tau_tr self);
     put (set_x (Some (torch.imul_scalar tr (exp (- dt self / tau)))) self);;
     (* self.x[:] += self.scale_tr * self.s *)
     self ← get;
     tr ← getattr (x self);
     sc ← getattr (scale_tr self);
     tr' ← lift (torch.iadd tr (torch.scalar_mul sc (s self)));
     put (set_x (Some tr') self)
   else mret tt);;
  (* if self.count_spike == True: self.spikecount += self.s *)
  self ← get;
  (if count_spike self then
     self ← get;
     cnt ← getattr (spikecount self);
     cnt' ← lift (torch.iadd cnt (s self));
     put (set_spikecount (Some cnt') self)
   else mret tt);;
  (* return self.s *)
  self ← get;
  mret (s self).

End InputPopulation.

(** ** class IFPopulation *)

Module IFPopulation.

Record state : Type := mk {
  neurons : nat;
  dt : R;
  v : tensor;
  v_th : R;
  rest : R;
  refrac : tensor;
  tau_ref : R;
  s : tensor;
  count_spike : option bool;   (* assigned only if count_spike == True *)
  spikecount : option tensor   (* registered only if count_spike == True *)
}.

Definition set_v (a : tensor) (self : state) : state :=
  mk (neurons self) (dt self) a (v_th self) (rest self) (refrac self)
     (tau_ref self) (s self) (count_spike self) (spikecount self).

Definition set_refrac (a : tensor) (self : state) : state :=
  mk (neurons self) (dt self) (v self) (v_th self) (rest self) a
     (tau_ref self) (s self) (count_spike self) (spikecount self).

Definition set_s (a : tensor) (self : state) : state :=
  mk (neurons self) (dt self) (v self) (v_th self) (rest self) (refrac self)
     (tau_ref self) a (count_spike self) (spikecount self).

Definition set_spikecount (a : option tensor) (self : state) : state :=
  mk (neurons self) (dt self) (v self) (v_th self) (rest self) (refrac self)
     (tau_ref self) (s self) (count_spike self) a.

Definition __init__ (neurons : nat) (dt v_th rest tau_ref : R) (count_spike : bool)
  : exn + state :=
  inr (mk neurons dt (torch.fill_ (torch.zeros neurons) rest) v_th rest
          (torch.zeros neurons) tau_ref (torch.zeros neurons)
          (if count_spike then Some count_spike else None)
          (if count_spike then Some (torch.zeros neurons) else None)).

Definition reset : M state unit :=
  self ← get;
  (* self.v[:] = self.rest *)
  put (set_v (torch.fill_ (v self) (rest self)) self).

(** The first statement of [forward]: integration of the input. *)
Definition integrate (x : tensor) : M state unit :=
  (* self.v += (self.refrac <= 0).float() * x *)
  self ← get;
  t ← lift (torch.mul (torch.float (torch.le_scalar (refrac self) 0)) x);
  v' ← lift (torch.iadd (v self) t);
  put (set_v v' self).

(** The rest of [forward]: refractory countdown, threshold test, resets,
    spike counting, return. *)
Definition fire : M state (tensor * tensor) :=
  (* self.refrac -= self.dt *)
  self ← get;
  put (set_refrac (torch.isub_scalar (refrac self) (dt self)) self);;
  (* self.s[:] = self.v >= self.v_th *)
  self ← get;
  s' ← lift (torch.copy_ (s self) (torch.float (torch.ge_scalar (v self) (v_th self))));
  put (set_s s' self);;
  (* self.refrac.masked_fill_(self.s.bool(), self.tau_ref) *)
  self ← get;
  r' ← lift (torch.masked_fill_ (refrac self) (torch.bool (s self)) (tau_ref self));
  put (set_refrac r' self);;
  (* self.v.masked_fill_(self.s.bool(), self.rest) *)
  self ← get;
  v' ← lift (torch.masked_fill_ (v self) (torch.bool (s self)) (rest self));
  put (set_v v' self);;
  (* if self.count_spike: self.spikecount += self.s *)
  self ← get;
  c ← getattr (count_spike self);
  (if c : bool then
     self ← get;
     cnt ← getattr (spikecount self);
     cnt' ← lift (torch.iadd cnt (s self));
     put (set_spikecount (Some cnt') self)
   else mret tt);;
  (* return self.s, self.v *)
  self ← get;
  mret (s self, v self).

Definition forward (x : tensor) : M state (tensor * tensor) :=
  integrate x;; fire.

End IFPopulation.

(** ** class HomoeostasisLIFPopulation *)

Module HomoeostasisLIFPopulation.

Record state : Type := mk {
  neurons : nat;
  dt : R;
  v : tensor;
  tau_rc : R;
  v_th : R;
  s : tensor;
  rest : R;
  refrac : tensor;
  tau_ref : R;
  threshold : R;
  theta_plus : R;
  theta : tensor;
  tau_theta : R;
  frozen_th : bool;
  count_spike : bool;
  spikecount : option tensor   (* registered only if count_spike *)
}.

Definition set_v (a : tensor) (self : state) : state :=
  mk (neurons self) (dt self) a (tau_rc self) (v_th self) (s self) (rest self)
     (refrac self) (tau_ref self) (threshold self) (theta_plus self) (theta self)
     (tau_theta self) (frozen_th self) (count_spike self) (spikecount self).

Definition set_s (a : tensor) (self : state) : state :=
  mk (neurons self) (dt self) (v self) (tau_rc self) (v_th self) a (rest self)
     (refrac self) (tau_ref self) (threshold self) (theta_plus self) (theta self)
     (tau_theta self) (frozen_th self) (count_spike self) (spikecount self).

Definition set_refrac (a : tensor) (self : state) : state :=
  mk (neurons self) (dt self) (v self) (tau_rc self) (v_th self) (s self) (rest self)
     a (tau_ref self) (threshold self) (theta_plus self) (theta self)
     (tau_theta self) (frozen_th self) (count_spike self) (spikecount self).

Definition set_theta (a : tensor) (self : state) : state :=
  mk (neurons self) (dt self) (v self) (tau_rc self) (v_th self) (s self) (rest self)
     (refrac self) (tau_ref self) (threshold self) (theta_plus self) a
     (tau_theta self) (frozen_th self) (count_spike self) (spikecount self).

Definition set_spikecount (a : option tensor) (self : state) : state :=
  mk (neurons self) (dt self) (v self) (tau_rc self) (v_th self) (s self) (rest self)
     (refrac self) (tau_ref self) (threshold self) (theta_plus self) (theta self)
     (tau_theta self) (frozen_th self) (count_spike self) a.

Definition __init__ (neurons : nat) (dt tau_rc v_th theta_plus tau_theta rest tau_ref : R)
    (frozen_threshold count_spike : bool) : exn + state :=
  inr (mk neurons dt (torch.fill_ (torch.zeros neurons) rest) tau_rc v_th
          (torch.zeros neurons) rest (torch.zeros neurons) tau_ref
          v_th (* threshold: created from tau_ref, then filled with v_th *)
          theta_plus (torch.zeros neurons) tau_theta
          frozen_threshold count_spike
          (if count_spike then Some (torch.zeros neurons) else None)).

Definition reset : M state unit :=
  (* self.v[:] = self.rest *)
  self ← get;
  put (set_v (torch.fill_ (v self) (rest self)) self);;
  (* if self.count_spike == True: self.spikecount.fill_(0.) *)
  self ← get;
  (if count_spike self then
     self ← get;
     cnt ← getattr (spikecount self);
     put (set_spikecount (Some (torch.fill_ cnt 0)) self)
   else mret tt).

Definition forward (x : tensor) : M state (tensor * tensor) :=
  (* self.v[:] = torch.exp(-self.dt / self.tau_rc) * (self.v - self.rest) + self.rest *)
  self ← get;
  v' ← lift (torch.copy_ (v self)
               (torch.add_scalar
                  (torch.scalar_mul (exp (- dt self / tau_rc self))
                     (torch.sub_scalar (v self) (rest self)))
                  (rest self)));
  put (set_v v' self);;
  (* self.v += (self.refrac <= 0).float() * x *)
  self ← get;
  t ← lift (torch.mul (torch.float (torch.le_scalar (refrac self) 0)) x);
  v' ← lift (torch.iadd (v self) t);
  put (set_v v' self);;
  (* self.refrac -= self.dt *)
  self ← get;
  put (set_refrac (torch.isub_scalar (refrac self) (dt self)) self);;
  (* self.s[:] = self.v >= self.v_th + self.theta *)
  self ← get;
  m ← lift (torch.ge (v self) (torch.scalar_add (v_th self) (theta self)));
  s' ← lift (torch.copy_ (s self) (torch.float m));
  put (set_s s' self);;
  (* if self.count_spike == True: self.spikecount += (self.s>0).float() * 1 *)
  self ← get;
  (if count_spike self then
     self ← get;
     cnt ← getattr (spikecount self);
     cnt' ← lift (torch.iadd cnt
                    (torch.mul_scalar (torch.float (torch.gt_scalar (s self) 0)) 1));
     put (set_spikecount (Some cnt') self)
   else mret tt);;
  (* if self.frozen_th == False: *)
  self ← get;
  (if negb (frozen_th self) then
     (* self.theta += (self.s>0).float() * self.theta_plus *)
     self ← get;
     th ← lift (torch.iadd (theta self)
                  (torch.mul_scalar (torch.float (torch.gt_scalar (s self) 0))
                     (theta_plus self)));
     put (set_theta th self);;
     (* self.theta += (self.s < 1).float() * torch.exp(-(self.dt/self.tau_theta)) *)
     self ← get;
     th ← lift (torch.iadd (theta self)
                  (torch.mul_scalar (torch.float (torch.lt_scalar (s self) 1))
                     (exp (- (dt self / tau_theta self)))));
     put (set_theta th self)
   else mret tt);;
  (* self.refrac.masked_fill_(self.s.bool(), self.tau_ref) *)
  self ← get;
  r' ← lift (torch.masked_fill_ (refrac self) (torch.bool (s self)) (tau_ref self));
  put (set_refrac r' self);;
  (* self.v.masked_fill_(self.s.bool(), self.rest) *)
  self ← get;
  v' ← lift (torch.masked_fill_ (v self) (torch.bool (s self)) (rest self));
  put (set_v v' self);;
  (* return self.s, self.v *)
  self ← get;
  mret (s self, v self).

End HomoeostasisLIFPopulation.

(** ** class LIFPopulation2 *)

Module LIFPopulation2.

Record state : Type := mk {
  neurons : nat;
  dt : R;
  v : tensor;
  tau_rc : R;
  v_th : R;
  s : tensor;
  rest : R;
  refrac : tensor;
  tau_ref : R;
  spikecount : tensor
}.

Definition set_v (a : tensor) (self : state) : state :=
  mk (neurons self) (dt self) a (tau_rc self) (v_th self) (s self) (rest self)
     (refrac self) (tau_ref self) (spikecount self).

Definition set_s (a : tensor) (self : state) : state :=
  mk (neurons self) (dt self) (v self) (tau_rc self) (v_th self) a (rest self)
     (refrac self) (tau_ref self) (spikecount self).

Definition set_refrac (a : tensor) (self : state) : state :=
  mk (neurons self) (dt self) (v self) (tau_rc self) (v_th self) (s self) (rest self)
     a (tau_ref self) (spikecount self).

Definition set_spikecount (a : tensor) (self : state) : state :=
  mk (neurons self) (dt self) (v self) (tau_rc self) (v_th self) (s self) (rest self)
     (refrac self) (tau_ref self) a.

Definition __init__ (neurons : nat) (dt tau_rc v_th rest tau_ref : R) : exn + state :=
  inr (mk neurons dt (torch.fill_ (torch.zeros neurons) rest) tau_rc v_th
          (torch.zeros neurons) rest (torch.zeros neurons) tau_ref
          (torch.zeros neurons)).

Definition reset : M state unit :=
  (* self.v[:] = self.rest *)
  self ← get;
  put (set_v (torch.fill_ (v self) (rest self)) self);;
  (* self.spikecount.fill_(0) *)
  self ← get;
  put (set_spikecount (torch.fill_ (spikecount self) 0) self).

Definition forward (x : tensor) : M state (tensor * tensor) :=
  (* self.v[:] = torch.exp(-self.dt / self.tau_rc) * (self.v - self.rest) + self.rest *)
  self ← get;
  v' ← lift (torch.copy_ (v self)
               (torch.add_scalar
                  (torch.scalar_mul (exp (- dt self / tau_rc self))
                     (torch.sub_scalar (v self) (rest self)))
                  (rest self)));
  put (set_v v' self);;
  (* self.v += (self.refrac <= 0).float() * x *)
  self ← get;
  t ← lift (torch.mul (torch.float (torch.le_scalar (refrac self) 0)) x);
  v' ← lift (torch.iadd (v self) t);
  put (set_v v' self);;
  (* self.refrac -= self.dt *)
  self ← get;
  put (set_refrac (torch.isub_scalar (refrac self) (dt self)) self);;
  (* self.s[:] = self.v >= self.v_th *)
  self ← get;
  s' ← lift (torch.copy_ (s self) (torch.float (torch.ge_scalar (v self) (v_th self))));
  put (set_s s' self);;
  (* self.spikecount += (self.s>0).float() * 1 *)
  self ← get;
  cnt' ← lift (torch.iadd (spikecount self)
                 (torch.mul_scalar (torch.float (torch.gt_scalar (s self) 0)) 1));
  put (set_spikecount cnt' self);;
  (* self.refrac.masked_fill_(self.s.bool(), self.tau_ref) *)
  self ← get;
  r' ← lift (torch.masked_fill_ (refrac self) (torch.bool (s self)) (tau_ref self));
  put (set_refrac r' self);;
  (* self.v.masked_fill_(self.s.bool(), self.rest) *)
  self ← get;
  v' ← lift (torch.masked_fill_ (v self) (torch.bool (s self)) (rest self));
  put (set_v v' self);;
  (* return self.s, self.v *)
  self ← get;
  mret (s self, v self).

End LIFPopulation2.

(** ** class LIFPopulation *)

Module LIFPopulation.

Record state : Type := mk {
  neurons : nat;
  dt : R;
  v : tensor;
  tau_rc : R;
  v_th : R;
  theta : R;
  s : tensor;
  rest : R;
  refrac : tensor;
  tau_ref : R
}.

Definition set_v (a : tensor) (self : state) : state :=
  mk (neurons self) (dt self) a (tau_rc self) (v_th self) (theta self) (s self)
     (rest self) (refrac self) (tau_ref self).

Definition set_s (a : tensor) (self : state) : state :=
  mk (neurons self) (dt self) (v self) (tau_rc self) (v_th self) (theta self) a
     (rest self) (refrac self) (tau_ref self).

Definition set_refrac (a : tensor) (self : state) : state :=
  mk (neurons self) (dt self) (v self) (tau_rc self) (v_th self) (theta self) (s self)
     (rest self) a (tau_ref self).

Definition __init__ (neurons : nat) (dt tau_rc v_th theta rest tau_ref : R) : exn + state :=
  inr (mk neurons dt (torch.fill_ (torch.zeros neurons) rest) tau_rc v_th theta
          (torch.zeros neurons) rest (torch.zeros neurons) tau_ref).

Definition reset : M state unit :=
  (* self.v[:] = self.rest *)
  self ← get;
  put (set_v (torch.fill_ (v self) (rest self)) self).

Definition forward (x : tensor) : M state (tensor * tensor) :=
  (* self.v[:] = torch.exp(-self.dt / self.tau_rc) * (self.v - self.rest) + self.rest *)
  self ← get;
  v' ← lift (torch.copy_ (v self)
               (torch.add_scalar
                  (torch.scalar_mul (exp (- dt self / tau_rc self))
                     (torch.sub_scalar (v self) (rest self)))
                  (rest self)));
  put (set_v v' self);;
  (* self.v += (self.refrac <= 0).float() * x *)
  self ← get;
  t ← lift (torch.mul (torch.float (torch.le_scalar (refrac self) 0)) x);
  v' ← lift (torch.iadd (v self) t);
  put (set_v v' self);;
  (* self.refrac -= self.dt *)
  self ← get;
  put (set_refrac (torch.isub_scalar (refrac self) (dt self)) self);;
  (* self.s[:] = self.v >= self.v_th + self.theta *)
  self ← get;
  s' ← lift (torch.copy_ (s self)
               (torch.float (torch.ge_scalar (v self) (v_th self + theta self))));
  put (set_s s' self);;
  (* self.refrac.masked_fill_(self.s.bool(), self.tau_ref) *)
  self ← get;
  r' ← lift (torch.masked_fill_ (refrac self) (torch.bool (s self)) (tau_ref self));
  put (set_refrac r' self);;
  (* self.v.masked_fill_(self.s.bool(), self.rest) *)
  self ← get;
  v' ← lift (torch.masked_fill_ (v self) (torch.bool (s self)) (rest self));
  put (set_v v' self);;
  (* return self.s, self.v *)
  self ← get;
  mret (s self, v self).

End LIFPopulation.

(** ** class DiehlAndCookPopulation *)

Module DiehlAndCookPopulation.

Record state : Type := mk {
  neurons : nat;
  traces : bool;
  dt : R;
  v : tensor;
  tau_rc : R;
  v_th : R;
  theta : R;
  s : tensor;
  rest : R;
  refrac : tensor;
  tau_ref : R;
  x : option tensor;     (* registered only if traces *)
  tau_tr : option R;     (* registered only if traces *)
  scale_tr : option R    (* registered only if traces *)
}.

Definition set_v (a : tensor) (self : state) : state :=
  mk (neurons self) (traces self) (dt self) a (tau_rc self) (v_th self) (theta self)
     (s self) (rest self) (refrac self) (tau_ref self) (x self) (tau_tr self)
     (scale_tr self).

Definition set_s (a : tensor) (self : state) : state :=
  mk (neurons self) (traces self) (dt self) (v self) (tau_rc self) (v_th self)
     (theta self) a (rest self) (refrac self) (tau_ref self) (x self) (tau_tr self)
     (scale_tr self).

Definition set_refrac (a : tensor) (self : state) : state :=
  mk (neurons self) (traces self) (dt self) (v self) (tau_rc self) (v_th self)
     (theta self) (s self) (rest self) a (tau_ref self) (x self) (tau_tr self)
     (scale_tr self).

Definition set_x (a : option tensor) (self : state) : state :=
  mk (neurons self) (traces self) (dt self) (v self) (tau_rc self) (v_th self)
     (theta self) (s self) (rest self) (refrac self) (tau_ref self) a (tau_tr self)
     (scale_tr self).

Definition reset : M state unit :=
  (* self.v.fill_(self.rest) *)
  self ← get;
  put (set_v (torch.fill_ (v self) (rest self)) self);;
  (* self.x.fill_(0.) *)
  self ← get;
  tr ← getattr (x self);
  put (set_x (Some (torch.fill_ tr 0)) self).

Definition __init__ (neurons : nat) (dt tau_rc v_th theta rest tau_ref : R)
    (traces : bool) (tau_tr scale_tr : R) : exn + state :=
  let self :=
    mk neurons traces dt (torch.zeros neurons) tau_rc v_th theta
       (torch.zeros neurons) rest (torch.zeros neurons) tau_ref
       (if traces then Some (torch.zeros neurons) else None)
       (if traces then Some tau_tr else None)
       (if traces then Some scale_tr else None) in
  match reset self with
  | (self, inr _) => inr self
  | (_, inl e) => inl e
  end.

Definition forward (x_in : tensor) : M state (tensor * tensor) :=
  (* self.v[:] = torch.exp(-self.dt / self.tau_rc) * (self.v - self.rest) + self.rest *)
  self ← get;
  v' ← lift (torch.copy_ (v self)
               (torch.add_scalar
                  (torch.scalar_mul (exp (- dt self / tau_rc self))
                     (torch.sub_scalar (v self) (rest self)))
                  (rest self)));
  put (set_v v' self);;
  (* self.v += (self.refrac <= 0).float() * x *)
  self ← get;
  t ← lift (torch.mul (torch.float (torch.le_scalar (refrac self) 0)) x_in);
  v' ← lift (torch.iadd (v self) t);
  put (set_v v' self);;
  (* self.refrac -= self.dt *)
  self ← get;
  put (set_refrac (torch.isub_scalar (refrac self) (dt self)) self);;
  (* self.s[:] = self.v >= self.v_th + self.theta *)
  self ← get;
  s' ← lift (torch.copy_ (s self)
               (torch.float (torch.ge_scalar (v self) (v_th self + theta self))));
  put (set_s s' self);;
  (* self.refrac.masked_fill_(self.s.bool(), self.tau_ref) *)
  self ← get;
  r' ← lift (torch.masked_fill_ (refrac self) (torch.bool (s self)) (tau_ref self));
  put (set_refrac r' self);;
  (* self.v.masked_fill_(self.s.bool(), self.rest) *)
  self ← get;
  v' ← lift (torch.masked_fill_ (v self) (torch.bool (s self)) (rest self));
  put (set_v v' self);;
  (* if self.traces: *)
  self ← get;
  (if traces self then
     (* self.x[:] *= torch.exp(-self.dt / self.tau_tr) *)
     self ← get;
     tr ← getattr (x self);
     tau ← getattr (tau_tr self);
     put (set_x (Some (torch.imul_scalar tr (exp (- dt self / tau)))) self);;
     (* self.x[:] += self.scale_tr * self.s *)
     self ← get;
     tr ← getattr (x self);
     sc ← getattr (scale_tr self);
     tr' ← lift (torch.iadd tr (torch.scalar_mul sc (s self)));
     put (set_x (Some tr') self)
   else mret tt);;
  (* return self.s, self.v *)
  self ← get;
  mret (s self, v self).

End DiehlAndCookPopulation.

(** ** Shape invariants of constructed objects

    Every per-neuron buffer has [neurons] entries, and the buffers that
    [__init__] registers under a condition are present as it leaves them. *)

Definition has_length (n : nat) (o : option tensor) : Prop :=
  match o with
  | Some t => length t = n
  | None => False
  end.

Definition InputPopulation_wf (st : InputPopulation.state) : Prop :=
  let n := InputPopulation.neurons st in
  length (InputPopulation.s st) = n /\
  InputPopulation.traces st = true /\
  has_length n (InputPopulation.x st) /\
  is_Some (InputPopulation.tau_tr st) /\
  is_Some (InputPopulation.scale_tr st) /\
  (if InputPopulation.count_spike st
   then has_length n (InputPopulation.spikecount st)
   else InputPopulation.spikecount st = None).

Definition IFPopulation_wf (st : IFPopulation.state) : Prop :=
  let n := IFPopulation.neurons st in
  length (IFPopulation.v st) = n /\
  length (IFPopulation.refrac st) = n /\
  length (IFPopulation.s st) = n /\
  match IFPopulation.count_spike st with
  | Some c => c = true /\ has_length n (IFPopulation.spikecount st)
  | None => IFPopulation.spikecount st = None
  end.

Definition HomoeostasisLIFPopulation_wf (st : HomoeostasisLIFPopulation.state) : Prop :=
  let n := HomoeostasisLIFPopulation.neurons st in
  length (HomoeostasisLIFPopulation.v st) = n /\
  length (HomoeostasisLIFPopulation.refrac st) = n /\
  length (HomoeostasisLIFPopulation.s st) = n /\
  length (HomoeostasisLIFPopulation.theta st) = n /\
  (if HomoeostasisLIFPopulation.count_spike st
   then has_length n (HomoeostasisLIFPopulation.spikecount st)
   else HomoeostasisLIFPopulation.spikecount st = None).

Definition LIFPopulation2_wf (st : LIFPopulation2.state) : Prop :=
  let n := LIFPopulation2.neurons st in
  length (LIFPopulation2.v st) = n /\
  length (LIFPopulation2.refrac st) = n /\
  length (LIFPopulation2.s st) = n /\
  length (LIFPopulation2.spikecount st) = n.

Definition LIFPopulation_wf (st : LIFPopulation.state) : Prop :=
  let n := LIFPopulation.neurons st in
  length (LIFPopulation.v st) = n /\
  length (LIFPopulation.refrac st) = n /\
  length (LIFPopulation.s st) = n.

Definition DiehlAndCookPopulation_wf (st : DiehlAndCookPopulation.state) : Prop :=
  let n := DiehlAndCookPopulation.neurons st in
  length (DiehlAndCookPopulation.v st) = n /\
  length (DiehlAndCookPopulation.refrac st) = n /\
  length (DiehlAndCookPopulation.s st) = n /\
  DiehlAndCookPopulation.traces st = true /\
  has_length n (DiehlAndCookPopulation.x st) /\
  is_Some (DiehlAndCookPopulation.tau_tr st) /\
  is_Some (DiehlAndCookPopulation.scale_tr st).

(** ** The thresholded populations as one family

    The five classes that integrate input and fire; a call dispatches on
    the class of the object. *)

Inductive thresholded : Type :=
| IF (st : IFPopulation.state)
| HomoeostasisLIF (st : HomoeostasisLIFPopulation.state)
| LIF2 (st : LIFPopulation2.state)
| LIF (st : LIFPopulation.state)
| DiehlAndCook (st : DiehlAndCookPopulation.state).

Definition dispatch {S A} (inj : S -> thresholded) (m : M S A) (st : S)
  : thresholded * (exn + A) :=
  (inj (fst (m st)), snd (m st)).

Definition forward_of (x : tensor) : M thresholded (tensor * tensor) :=
  fun p =>
    match p with
    | IF st => dispatch IF (IFPopulation.forward x) st
    | HomoeostasisLIF st => dispatch HomoeostasisLIF (HomoeostasisLIFPopulation.forward x) st
    | LIF2 st => dispatch LIF2 (LIFPopulation2.forward x) st
    | LIF st => dispatch LIF (LIFPopulation.forward x) st
    | DiehlAndCook st => dispatch DiehlAndCook (DiehlAndCookPopulation.forward x) st
    end.

Definition wf_of (p : thresholded) : Prop :=
  match p with
  | IF st => IFPopulation_wf st
  | HomoeostasisLIF st => HomoeostasisLIFPopulation_wf st
  | LIF2 st => LIFPopulation2_wf st
  | LIF st => LIFPopulation_wf st
  | DiehlAndCook st => DiehlAndCookPopulation_wf st
  end.

Definition neurons_of (p : thresholded) : nat :=
  match p with
  | IF st => IFPopulation.neurons st
  | HomoeostasisLIF st => HomoeostasisLIFPopulation.neurons st
  | LIF2 st => LIFPopulation2.neurons st
  | LIF st => LIFPopulation.neurons st
  | DiehlAndCook st => DiehlAndCookPopulation.neurons st
  end.

Definition dt_of (p : thresholded) : R :=
  match p with
  | IF st => IFPopulation.dt st
  | HomoeostasisLIF st => HomoeostasisLIFPopulation.dt st
  | LIF2 st => LIFPopulation2.dt st
  | LIF st => LIFPopulation.dt st
  | DiehlAndCook st => DiehlAndCookPopulation.dt st
  end.

Definition rest_of (p : thresholded) : R :=
  match p with
  | IF st => IFPopulation.rest st
  | HomoeostasisLIF st => HomoeostasisLIFPopulation.rest st
  | LIF2 st => LIFPopulation2.rest st
  | LIF st => LIFPopulation.rest st
  | DiehlAndCook st => DiehlAndCookPopulation.rest st
  end.

Definition tau_ref_of (p : thresholded) : R :=
  match p with
  | IF st => IFPopulation.tau_ref st
  | HomoeostasisLIF st => HomoeostasisLIFPopulation.tau_ref st
  | LIF2 st => LIFPopulation2.tau_ref st
  | LIF st => LIFPopulation.tau_ref st
  | DiehlAndCook st => DiehlAndCookPopulation.tau_ref st
  end.

Definition v_of (p : thresholded) : tensor :=
  match p with
  | IF st => IFPopulation.v st
  | HomoeostasisLIF st => HomoeostasisLIFPopulation.v st
  | LIF2 st => LIFPopulation2.v st
  | LIF st => LIFPopulation.v st
  | DiehlAndCook st => DiehlAndCookPopulation.v st
  end.

Definition refrac_of (p : thresholded) : tensor :=
  match p with
  | IF st => IFPopulation.refrac st
  | HomoeostasisLIF st => HomoeostasisLIFPopulation.refrac st
  | LIF2 st => LIFPopulation2.refrac st
  | LIF st => LIFPopulation.refrac st
  | DiehlAndCook st => DiehlAndCookPopulation.refrac st
  end.

Definition s_of (p : thresholded) : tensor :=
  match p with
  | IF st => IFPopulation.s st
  | HomoeostasisLIF st => HomoeostasisLIFPopulation.s st
  | LIF2 st => LIFPopulation2.s st
  | LIF st => LIFPopulation.s st
  | DiehlAndCook st => DiehlAndCookPopulation.s st
  end.

(** The threshold each neuron is tested against: [v_th] for the two
    classes without an offset, [v_th + theta] with the scalar or the
    per-neuron [theta] for the others. *)
Definition threshold_of (p : thresholded) : tensor :=
  match p with
  | IF st => replicate (IFPopulation.neurons st) (IFPopulation.v_th st)
  | HomoeostasisLIF st =>
      (fun th => HomoeostasisLIFPopulation.v_th st + th) <$> HomoeostasisLIFPopulation.theta st
  | LIF2 st => replicate (LIFPopulation2.neurons st) (LIFPopulation2.v_th st)
  | LIF st =>
      replicate (LIFPopulation.neurons st) (LIFPopulation.v_th st + LIFPopulation.theta st)
  | DiehlAndCook st =>
      replicate (DiehlAndCookPopulation.neurons st)
        (DiehlAndCookPopulation.v_th st + DiehlAndCookPopulation.theta st)
  end.

(** ** The recurrences in the words of the specification *)

(** Decay of the potential toward rest. *)
Definition lif_decay (dt tau_rc rest : R) (v : R) : R :=
  exp (- dt / tau_rc) * (v - rest) + rest.

(** What the membrane does before the input is added: nothing in the
    non-leaky class, the decay in the others. *)
Definition decay_of (p : thresholded) : R -> R :=
  match p with
  | IF st => fun v => v
  | HomoeostasisLIF st =>
      lif_decay (HomoeostasisLIFPopulation.dt st) (HomoeostasisLIFPopulation.tau_rc st)
        (HomoeostasisLIFPopulation.rest st)
  | LIF2 st =>
      lif_decay (LIFPopulation2.dt st) (LIFPopulation2.tau_rc st) (LIFPopulation2.rest st)
  | LIF st =>
      lif_decay (LIFPopulation.dt st) (LIFPopulation.tau_rc st) (LIFPopulation.rest st)
  | DiehlAndCook st =>
      lif_decay (DiehlAndCookPopulation.dt st) (DiehlAndCookPopulation.tau_rc st)
        (DiehlAndCookPopulation.rest st)
  end.

(** One neuron, one time step, against the threshold [thr]; the numbered
    steps in their order.  The result is [(s, v, refrac)]. *)
Definition neuron_step (decay : R -> R) (dt thr rest tau_ref : R)
    (v refrac x : R) : R * R * R :=
  (* (1) decay toward rest *)
  let v1 := decay v in
  (* (2) input is accumulated only by a neuron with refrac <= 0 *)
  let v2 := if bool_decide (refrac <= 0) then v1 + x else v1 in
  (* (3) refractory countdown *)
  let r3 := refrac - dt in
  (* (4) threshold test *)
  let s4 := bool_decide (v2 >= thr) in
  (* (5) on a spike: refrac := tau_ref, v := rest *)
  (if s4 then 1 else 0, if s4 then rest else v2, if s4 then tau_ref else r3).

(** The leaky family: decay by [exp(-dt/tau_rc)], threshold [v_th + theta]. *)
Definition lif_neuron_step (dt tau_rc v_th rest tau_ref : R) (theta : R)
    (v refrac x : R) : R * R * R :=
  neuron_step (lif_decay dt tau_rc rest) dt (v_th + theta) rest tau_ref v refrac x.

(** A whole population of the leaky family: [s'], [v'] and [refrac'] are
    what the five steps make of [v], [refrac] and the input [x], neuron by
    neuron, [theta] giving each neuron its offset. *)
Definition lif_step_spec (dt tau_rc v_th rest tau_ref : R) (theta v refrac x : tensor)
    (s' v' refrac' : tensor) : Prop :=
  length s' = length v /\ length v' = length v /\ length refrac' = length v /\
  forall i vi ri xi thi,
    v !! i = Some vi -> refrac !! i = Some ri -> x !! i = Some xi ->
    theta !! i = Some thi ->
    (s' !! i, v' !! i, refrac' !! i) =
    (let '(a, b, c) := lif_neuron_step dt tau_rc v_th rest tau_ref thi vi ri xi in
     (Some a, Some b, Some c)).

(** The non-leaky class: no decay, threshold [v_th]. *)
Definition if_neuron_step (dt v_th rest tau_ref : R) (v refrac x : R) : R * R * R :=
  neuron_step (fun v => v) dt v_th rest tau_ref v refrac x.

Definition if_step_spec (dt v_th rest tau_ref : R) (v refrac x : tensor)
    (s' v' refrac' : tensor) : Prop :=
  length s' = length v /\ length v' = length v /\ length refrac' = length v /\
  forall i vi ri xi,
    v !! i = Some vi -> refrac !! i = Some ri -> x !! i = Some xi ->
    (s' !! i, v' !! i, refrac' !! i) =
    (let '(a, b, c) := if_neuron_step dt v_th rest tau_ref vi ri xi in
     (Some a, Some b, Some c)).



(** A spike vector is binary when each of its entries is 0 or 1. *)
Definition binary (t : tensor) : Prop := Forall (fun a => a = 0 \/ a = 1) t.

(** A thresholded population whose only change is the decay of [v]: what
    the first statement of a leaky [forward] leaves behind, and the object
    itself for the non-leaky class. *)
Definition decayed (p : thresholded) : thresholded :=
  match p with
  | IF st => IF st
  | HomoeostasisLIF st =>
      HomoeostasisLIF
        (HomoeostasisLIFPopulation.set_v
           (decay_of p <$> HomoeostasisLIFPopulation.v st) st)
  | LIF2 st => LIF2 (LIFPopulation2.set_v (decay_of p <$> LIFPopulation2.v st) st)
  | LIF st => LIF (LIFPopulation.set_v (decay_of p <$> LIFPopulation.v st) st)
  | DiehlAndCook st =>
      DiehlAndCook
        (DiehlAndCookPopulation.set_v (decay_of p <$> DiehlAndCookPopulation.v st) st)
  end.

(** A [LIFPopulation] and a [DiehlAndCookPopulation] that agree on every
    attribute they share, the second one carrying its trace buffers. *)
Definition same_dynamics (a : LIFPopulation.state) (b : DiehlAndCookPopulation.state)
  : Prop :=
  LIFPopulation.neurons a = DiehlAndCookPopulation.neurons b /\
  LIFPopulation.dt a = DiehlAndCookPopulation.dt b /\
  LIFPopulation.v a = DiehlAndCookPopulation.v b /\
  LIFPopulation.tau_rc a = DiehlAndCookPopulation.tau_rc b /\
  LIFPopulation.v_th a = DiehlAndCookPopulation.v_th b /\
  LIFPopulation.theta a = DiehlAndCookPopulation.theta b /\
  LIFPopulation.s a = DiehlAndCookPopulation.s b /\
  LIFPopulation.rest a = DiehlAndCookPopulation.rest b /\
  LIFPopulation.refrac a = DiehlAndCookPopulation.refrac b /\
  LIFPopulation.tau_ref a = DiehlAndCookPopulation.tau_ref b /\
  DiehlAndCookPopulation.traces b = true /\
  has_length (length (DiehlAndCookPopulation.s b)) (DiehlAndCookPopulation.x b) /\
  is_Some (DiehlAndCookPopulation.tau_tr b) /\
  is_Some (DiehlAndCookPopulation.scale_tr b).

(** Construct an object, then feed it one input per time step. *)
Definition simulate {X S A} (ctor : exn + S) (fwd : X -> M S A) (xs : list X)
  : exn + list (exn + A) :=
  match ctor with
  | inr st => inr (outputs fwd xs st)
  | inl e => inl e
  end.

(** The potential of an [IFPopulation] right before each threshold test,
    that is after the first statement of each [forward] call, over a run. *)
Fixpoint potentials_before_check (xs : list tensor) (st : IFPopulation.state)
  : list tensor :=
  match xs with
  | [] => []
  | x :: xs' =>
      IFPopulation.v (exec (IFPopulation.integrate x) st)
      :: potentials_before_check xs' (exec (IFPopulation.forward x) st)
  end.

(** ** Calls on a thresholded population *)

(** [reset] dispatches on the class like [forward]. *)
Definition reset_of : M thresholded unit :=
  fun p =>
    match p with
    | IF st => dispatch IF IFPopulation.reset st
    | HomoeostasisLIF st => dispatch HomoeostasisLIF HomoeostasisLIFPopulation.reset st
    | LIF2 st => dispatch LIF2 LIFPopulation2.reset st
    | LIF st => dispatch LIF LIFPopulation.reset st
    | DiehlAndCook st => dispatch DiehlAndCook DiehlAndCookPopulation.reset st
    end.

(** What a user does with a population: time steps and resets, in any order. *)
Inductive call : Type :=
| call_forward (x : tensor)
| call_reset.

(** One call, and a sequence of calls, on the object they leave behind
    (an exception leaves the object as it was when it was raised). *)
Definition run_call (c : call) (p : thresholded) : thresholded :=
  match c with
  | call_forward x => exec (forward_of x) p
  | call_reset => exec reset_of p
  end.

Definition run_calls (cs : list call) (p : thresholded) : thresholded :=
  foldl (fun p c => run_call c p) p cs.

(** ** Attributes and counts observed over a run *)

(** The spike counter of the classes that keep one. *)
Definition spikecount_of (p : thresholded) : option tensor :=
  match p with
  | IF st => IFPopulation.spikecount st
  | HomoeostasisLIF st => HomoeostasisLIFPopulation.spikecount st
  | LIF2 st => Some (LIFPopulation2.spikecount st)
  | LIF st => None
  | DiehlAndCook st => None
  end.

(** The input current that neuron [i] receives over a run. *)
Fixpoint input_sum (i : nat) (xs : list tensor) : R :=
  match xs with
  | [] => 0
  | x :: xs' => default 0 (x !! i) + input_sum i xs'
  end.

(** A [LIFPopulation] and a [LIFPopulation2] that agree on every attribute
    they share, the offset of the first one being zero. *)
Definition same_plain_dynamics (a : LIFPopulation.state) (b : LIFPopulation2.state)
  : Prop :=
  LIFPopulation.neurons a = LIFPopulation2.neurons b /\
  LIFPopulation.dt a = LIFPopulation2.dt b /\
  LIFPopulation.v a = LIFPopulation2.v b /\
  LIFPopulation.tau_rc a = LIFPopulation2.tau_rc b /\
  LIFPopulation.v_th a = LIFPopulation2.v_th b /\
  LIFPopulation.theta a = 0 /\
  LIFPopulation.s a = LIFPopulation2.s b /\
  LIFPopulation.rest a = LIFPopulation2.rest b /\
  LIFPopulation.refrac a = LIFPopulation2.refrac b /\
  LIFPopulation.tau_ref a = LIFPopulation2.tau_ref b /\
  length (LIFPopulation2.spikecount b) = length (LIFPopulation2.s b).

(** The number of steps of a run at which neuron [i] spikes. *)
Fixpoint spikes_emitted (i : nat) (xs : list tensor) (p : thresholded) : nat :=
  match xs with
  | [] => 0
  | x :: xs' =>
      let p' := exec (forward_of x) p in
      let spiked := bool_decide (s_of p' !! i = Some 1) in
      ((if spiked then 1 else 0) + spikes_emitted i xs' p')%nat
  end.

(** The membrane time constant of the leaky classes. *)
Definition tau_rc_of (p : thresholded) : option R :=
  match p with
  | IF st => None
  | HomoeostasisLIF st => Some (HomoeostasisLIFPopulation.tau_rc st)
  | LIF2 st => Some (LIFPopulation2.tau_rc st)
  | LIF st => Some (LIFPopulation.tau_rc st)
  | DiehlAndCook st => Some (DiehlAndCookPopulation.tau_rc st)
  end.

(** Whether the thresholds of the population move: only in a
    [HomoeostasisLIFPopulation] that is not frozen. *)
Definition adaptive (p : thresholded) : bool :=
  match p with
  | HomoeostasisLIF st => negb (HomoeostasisLIFPopulation.frozen_th st)
  | _ => false
  end.

(** The buffer named [threshold], which only [HomoeostasisLIFPopulation]
    registers. *)
Definition threshold_buffer_of (p : thresholded) : option R :=
  match p with
  | HomoeostasisLIF st => Some (HomoeostasisLIFPopulation.threshold st)
  | _ => None
  end.

(** ** The refractory counter, step by step *)

(** Neuron [i] sits at [rest], below its threshold: what a spike leaves
    behind. *)
Definition at_rest (i : nat) (p : thresholded) : Prop :=
  v_of p !! i = Some (rest_of p) /\
  exists th, threshold_of p !! i = Some th /\ rest_of p < th.

(** The refractory counter of neuron [i] is positive at the start of every
    step of the run [xs] from [p]. *)
Fixpoint refractory_throughout (i : nat) (xs : list tensor) (p : thresholded) : Prop :=
  match xs with
  | [] => True
  | x :: xs' =>
      (exists r, refrac_of p !! i = Some r /\ 0 < r) /\
      refractory_throughout i xs' (exec (forward_of x) p)
  end.

(** The time step is positive and so is the membrane time constant of a
    leaky class. *)
Definition positive_time_constants (p : thresholded) : Prop :=
  0 < dt_of p /\ forall tau, tau_rc_of p = Some tau -> 0 < tau.

(** The number of inputs of a run that carry a spike (the value 1) for
    neuron [i]. *)
Fixpoint input_spikes (i : nat) (xs : list tensor) : nat :=
  match xs with
  | [] => 0
  | x :: xs' =>
      let spike := bool_decide (x !! i = Some 1) in
      ((if spike then 1 else 0) + input_spikes i xs')%nat
  end.

(** ** The buffers as 32-bit floats

    The buffers are registered from [torch.zeros] and [torch.tensor] of
    Python floats, so they hold IEEE binary32 numbers and every tensor
    operation rounds to nearest, ties to even.  The modules below repeat
    [IFPopulation] and [HomoeostasisLIFPopulation] statement by statement
    over binary32, for the statements whose truth depends on that
    rounding.  The arithmetic is that of the Standard Library's
    specification of IEEE floats at precision 24 and exponent bound 128. *)

Abbreviation float32 := SpecFloat.spec_float.

Module f32.

Definition prec : Z := 24.
Definition emax : Z := 128.

(** [torch.tensor(c)] for a Python float [c = m * 2^e] (its exact binary64
    value): the binary32 number nearest to it. *)
Definition of_double (m e : Z) : float32 := SpecFloat.binary_normalize prec emax m e false.

Definition zero : float32 := SpecFloat.S754_zero false.
Definition one : float32 := of_double 1 0.

Definition add : float32 -> float32 -> float32 := SpecFloat.SFadd prec emax.
Definition sub : float32 -> float32 -> float32 := SpecFloat.SFsub prec emax.
Definition mul : float32 -> float32 -> float32 := SpecFloat.SFmul prec emax.
Definition div : float32 -> float32 -> float32 := SpecFloat.SFdiv prec emax.
Definition neg : float32 -> float32 := SpecFloat.SFopp.

(** Comparisons; each is false when an operand is NaN. *)
Definition le (a b : float32) : bool := SpecFloat.SFleb a b.
Definition lt (a b : float32) : bool := SpecFloat.SFltb a b.
Definition ge (a b : float32) : bool := SpecFloat.SFleb b a.
Definition gt (a b : float32) : bool := SpecFloat.SFltb b a.

Definition is_finite (a : float32) : bool :=
  match a with
  | SpecFloat.S754_zero _ | SpecFloat.S754_finite _ _ _ => true
  | _ => false
  end.


(** [torch.zeros(n)] *)
Definition zeros (n : nat) : list float32 := replicate n zero.

(** [m.float()] *)
Definition b2f (b : bool) : float32 := if b then one else zero.
Definition float (m : list bool) : list float32 := b2f <$> m.

(** [t.bool()]: non-zero entries (NaN included) are true. *)
Definition bool (t : list float32) : list Datatypes.bool :=
  (fun a => negb (SpecFloat.SFeqb a zero)) <$> t.

Definition le_scalar (t : list float32) (c : float32) : list Datatypes.bool :=
  (fun a => le a c) <$> t.
Definition lt_scalar (t : list float32) (c : float32) : list Datatypes.bool :=
  (fun a => lt a c) <$> t.
Definition gt_scalar (t : list float32) (c : float32) : list Datatypes.bool :=
  (fun a => gt a c) <$> t.
Definition ge_scalar (t : list float32) (c : float32) : list Datatypes.bool :=
  (fun a => ge a c) <$> t.

Definition scalar_mul (c : float32) (t : list float32) : list float32 :=
  (fun a => mul c a) <$> t.
Definition mul_scalar (t : list float32) (c : float32) : list float32 :=
  (fun a => mul a c) <$> t.
Definition sub_scalar (t : list float32) (c : float32) : list float32 :=
  (fun a => sub a c) <$> t.
Definition add_scalar (t : list float32) (c : float32) : list float32 :=
  (fun a => add a c) <$> t.
Definition scalar_add (c : float32) (t : list float32) : list float32 :=
  (fun a => add c a) <$> t.

(** The shape rules are those of [torch.broadcast] and [torch.inplace]. *)
Definition tmul (a b : list float32) : exn + list float32 := torch.broadcast mul a b.
Definition tge (a b : list float32) : exn + list Datatypes.bool := torch.broadcast ge a b.
Definition iadd (self other : list float32) : exn + list float32 :=
  torch.inplace add self other.
Definition copy_ (self other : list float32) : exn + list float32 :=
  torch.inplace (fun _ b => b) self other.
Definition masked_fill_ (self : list float32) (mask : list Datatypes.bool)
    (value : float32) : exn + list float32 :=
  torch.inplace (fun a (m : Datatypes.bool) => if m then value else a) self mask.
Definition fill_ (self : list float32) (value : float32) : list float32 :=
  (fun _ => value) <$> self.
Definition isub_scalar (self : list float32) (c : float32) : list float32 :=
  (fun a => sub a c) <$> self.

End f32.

(** [IFPopulation] over binary32. *)
Module IFPopulation_f32.

Record state : Type := mk {
  neurons : nat;
  dt : float32;
  v : list float32;
  v_th : float32;
  rest : float32;
  refrac : list float32;
  tau_ref : float32;
  s : list float32;
  count_spike : option bool;
  spikecount : option (list float32)
}.

Definition set_v (a : list float32) (self : state) : state :=
  mk (neurons self) (dt self) a (v_th self) (rest self) (refrac self)
     (tau_ref self) (s self) (count_spike self) (spikecount self).

Definition set_refrac (a : list float32) (self : state) : state :=
  mk (neurons self) (dt self) (v self) (v_th self) (rest self) a
     (tau_ref self) (s self) (count_spike self) (spikecount self).

Definition set_s (a : list float32) (self : state) : state :=
  mk (neurons self) (dt self) (v self) (v_th self) (rest self) (refrac self)
     (tau_ref self) a (count_spike self) (spikecount self).

Definition set_spikecount (a : option (list float32)) (self : state) : state :=
  mk (neurons self) (dt self) (v self) (v_th self) (rest self) (refrac self)
     (tau_ref self) (s self) (count_spike self) a.

Definition __init__ (neurons : nat) (dt v_th rest tau_ref : float32) (count_spike : bool)
  : exn + state :=
  inr (mk neurons dt (f32.fill_ (f32.zeros neurons) rest) v_th rest
          (f32.zeros neurons) tau_ref (f32.zeros neurons)
          (if count_spike then Some count_spike else None)
          (if count_spike then Some (f32.zeros neurons) else None)).

Definition forward (x : list float32) : M state (list float32 * list float32) :=
  (* self.v += (self.refrac <= 0).float() * x *)
  self ← get;
  t ← lift (f32.tmul (f32.float (f32.le_scalar (refrac self) f32.zero)) x);
  v' ← lift (f32.iadd (v self) t);
  put (set_v v' self);;
  (* self.refrac -= self.dt *)
  self ← get;
  put (set_refrac (f32.isub_scalar (refrac self) (dt self)) self);;
  (* self.s[:] = self.v >= self.v_th *)
  self ← get;
  s' ← lift (f32.copy_ (s self) (f32.float (f32.ge_scalar (v self) (v_th self))));
  put (set_s s' self);;
  (* self.refrac.masked_fill_(self.s.bool(), self.tau_ref) *)
  self ← get;
  r' ← lift (f32.masked_fill_ (refrac self) (f32.bool (s self)) (tau_ref self));
  put (set_refrac r' self);;
  (* self.v.masked_fill_(self.s.bool(), self.rest) *)
  self ← get;
  v' ← lift (f32.masked_fill_ (v self) (f32.bool (s self)) (rest self));
  put (set_v v' self);;
  (* if self.count_spike: self.spikecount += self.s *)
  self ← get;
  c ← getattr (count_spike self);
  (if c : bool then
     self ← get;
     cnt ← getattr (spikecount self);
     cnt' ← lift (f32.iadd cnt (s self));
     put (set_spikecount (Some cnt') self)
   else mret tt);;
  (* return self.s, self.v *)
  self ← get;
  mret (s self, v self).

End IFPopulation_f32.

(** [HomoeostasisLIFPopulation] over binary32.  [torch.exp] on a
    zero-dimensional tensor is the parameter [exp32]: the library does not
    fix its result to the last bit. *)
Module HomoeostasisLIFPopulation_f32.

Record state : Type := mk {
  neurons : nat;
  dt : float32;
  v : list float32;
  tau_rc : float32;
  v_th : float32;
  s : list float32;
  rest : float32;
  refrac : list float32;
  tau_ref : float32;
  threshold : float32;
  theta_plus : float32;
  theta : list float32;
  tau_theta : float32;
  frozen_th : bool;
  count_spike : bool;
  spikecount : option (list float32)
}.

Definition set_v (a : list float32) (self : state) : state :=
  mk (neurons self) (dt self) a (tau_rc self) (v_th self) (s self) (rest self)
     (refrac self) (tau_ref self) (threshold self) (theta_plus self) (theta self)
     (tau_theta self) (frozen_th self) (count_spike self) (spikecount self).

Definition set_s (a : list float32) (self : state) : state :=
  mk (neurons self) (dt self) (v self) (tau_rc self) (v_th self) a (rest self)
     (refrac self) (tau_ref self) (threshold self) (theta_plus self) (theta self)
     (tau_theta self) (frozen_th self) (count_spike self) (spikecount self).

Definition set_refrac (a : list float32) (self : state) : state :=
  mk (neurons self) (dt self) (v self) (tau_rc self) (v_th self) (s self) (rest self)
     a (tau_ref self) (threshold self) (theta_plus self) (theta self)
     (tau_theta self) (frozen_th self) (count_spike self) (spikecount self).

Definition set_theta (a : list float32) (self : state) : state :=
  mk (neurons self) (dt self) (v self) (tau_rc self) (v_th self) (s self) (rest self)
     (refrac self) (tau_ref self) (threshold self) (theta_plus self) a
     (tau_theta self) (frozen_th self) (count_spike self) (spikecount self).

Definition set_spikecount (a : option (list float32)) (self : state) : state :=
  mk (neurons self) (dt self) (v self) (tau_rc self) (v_th self) (s self) (rest self)
     (refrac self) (tau_ref self) (threshold self) (theta_plus self) (theta self)
     (tau_theta self) (frozen_th self) (count_spike self) a.

Definition forward (exp32 : float32 -> float32) (x : list float32)
  : M state (list float32 * list float32) :=
  (* self.v[:] = torch.exp(-self.dt / self.tau_rc) * (self.v - self.rest) + self.rest *)
  self ← get;
  v' ← lift (f32.copy_ (v self)
               (f32.add_scalar
                  (f32.scalar_mul (exp32 (f32.div (f32.neg (dt self)) (tau_rc self)))
                     (f32.sub_scalar (v self) (rest self)))
                  (rest self)));
  put (set_v v' self);;
  (* self.v += (self.refrac <= 0).float() * x *)
  self ← get;
  t ← lift (f32.tmul (f32.float (f32.le_scalar (refrac self) f32.zero)) x);
  v' ← lift (f32.iadd (v self) t);
  put (set_v v' self);;
  (* self.refrac -= self.dt *)
  self ← get;
  put (set_refrac (f32.isub_scalar (refrac self) (dt self)) self);;
  (* self.s[:] = self.v >= self.v_th + self.theta *)
  self ← get;
  m ← lift (f32.tge (v self) (f32.scalar_add (v_th self) (theta self)));
  s' ← lift (f32.copy_ (s self) (f32.float m));
  put (set_s s' self);;
  (* if self.count_spike == True: self.spikecount += (self.s>0).float() * 1 *)
  self ← get;
  (if count_spike self then
     self ← get;
     cnt ← getattr (spikecount self);
     cnt' ← lift (f32.iadd cnt
                    (f32.mul_scalar (f32.float (f32.gt_scalar (s self) f32.zero))
                       f32.one));
     put (set_spikecount (Some cnt') self)
   else mret tt);;
  (* if self.frozen_th == False: *)
  self ← get;
  (if negb (frozen_th self) then
     (* self.theta += (self.s>0).float() * self.theta_plus *)
     self ← get;
     th ← lift (f32.iadd (theta self)
                  (f32.mul_scalar (f32.float (f32.gt_scalar (s self) f32.zero))
                     (theta_plus self)));
     put (set_theta th self);;
     (* self.theta += (self.s < 1).float() * torch.exp(-(self.dt/self.tau_theta)) *)
     self ← get;
     th ← lift (f32.iadd (theta self)
                  (f32.mul_scalar (f32.float (f32.lt_scalar (s self) f32.one))
                     (exp32 (f32.neg (f32.div (dt self) (tau_theta self))))));
     put (set_theta th self)
   else mret tt);;
  (* self.refrac.masked_fill_(self.s.bool(), self.tau_ref) *)
  self ← get;
  r' ← lift (f32.masked_fill_ (refrac self) (f32.bool (s self)) (tau_ref self));
  put (set_refrac r' self);;
  (* self.v.masked_fill_(self.s.bool(), self.rest) *)
  self ← get;
  v' ← lift (f32.masked_fill_ (v self) (f32.bool (s self)) (rest self));
  put (set_v v' self);;
  (* return self.s, self.v *)
  self ← get;
  mret (s self, v self).

End HomoeostasisLIFPopulation_f32.

(** ** Sample objects

    Small populations as [__init__] builds them, used to exercise the
    statements below on concrete inputs. *)

(** [InputPopulation(2)] *)
Definition sample_Input : InputPopulation.state :=
  InputPopulation.mk 2 true false 1 [0; 0] (Some [0; 0]) (Some 20) (Some 1) None.

(** An [InputPopulation] without its trace buffers, which no call of
    [__init__] returns. *)
Definition traceless_Input : InputPopulation.state :=
  InputPopulation.mk 1 false false 1 [0] None None None None.

(** [IFPopulation(1, v_th=0.9, rest=0., tau_ref=2., count_spike=True)] *)
Definition sample_IF : IFPopulation.state :=
  IFPopulation.mk 1 1 [0] 0.9 0 [0] 2 [0] (Some true) (Some [0]).

(** [HomoeostasisLIFPopulation(1)] *)
Definition sample_Homeo : HomoeostasisLIFPopulation.state :=
  HomoeostasisLIFPopulation.mk 1 1 [-65] 100 (-52) [0] (-65) [0] 5 (-52) 0.05 [0]
    10000000 false true (Some [0]).

(** [LIFPopulation2(1)] *)
Definition sample_LIF2 : LIFPopulation2.state :=
  LIFPopulation2.mk 1 1 [-65] 100 (-52) [0] (-65) [0] 5 [0].

(** [LIFPopulation(1)] *)
Definition sample_LIF : LIFPopulation.state :=
  LIFPopulation.mk 1 1 [-65] 100 (-52) 0.05 [0] (-65) [0] 5.

(** [DiehlAndCookPopulation(1)] *)
Definition sample_DC : DiehlAndCookPopulation.state :=
  DiehlAndCookPopulation.mk 1 true 1 [-65] 100 (-52) 0.05 [0] (-65) [0] 5
    (Some [0]) (Some 20) (Some 1).

(** A [DiehlAndCookPopulation] without its trace buffers, which no call of
    [__init__] returns. *)
Definition traceless_DC : DiehlAndCookPopulation.state :=
  DiehlAndCookPopulation.mk 1 false 1 [-65] 100 (-52) 0.05 [0] (-65) [0] 5
    None None None.

(** * Properties *)

(** ** Tensor operations on compatible shapes *)

(** Operands of equal length are combined entry by entry. *)
Lemma broadcast_same {A B C} (f : A -> B -> C) a b :
  length a = length b -> torch.broadcast f a b = inr (zip_with f a b).
Proof. intros H. unfold torch.broadcast. by rewrite decide_True. Qed.

Lemma inplace_same {A B} (f : A -> B -> A) self other :
  length other = length self -> torch.inplace f self other = inr (zip_with f self other).
Proof. intros H. unfold torch.inplace. by rewrite decide_True. Qed.

(** An in-place operation keeps the length of its target. *)
Lemma inplace_length {A B} (f : A -> B -> A) self other r :
  torch.inplace f self other = inr r -> length r = length self.
Proof.
  unfold torch.inplace. case_decide as H.
  - intros [= <-]. rewrite length_zip_with. lia.
  - destruct other as [|b0 [|? ?]]; try discriminate.
    intros [= <-]. by rewrite length_fmap.
Qed.

Lemma copy_same_length {A} (a b : list A) :
  length b = length a -> zip_with (fun _ b0 => b0) a b = b.
Proof.
  revert b. induction a as [|a0 a IH]; intros [|b0 b] H; simpl in *; try lia; try done.
  f_equal. apply IH. lia.
Qed.

Lemma fill_replicate t c : torch.fill_ t c = replicate (length t) c.
Proof. unfold torch.fill_. induction t as [|a t IH]; simpl; [done|]. by rewrite <- IH. Qed.

Lemma fill_zeros n c : torch.fill_ (torch.zeros n) c = replicate n c.
Proof. rewrite fill_replicate. unfold torch.zeros. by rewrite length_replicate. Qed.

(** A spike value read back as a boolean, and compared with 0 and 1. *)
Lemma b2r_nonzero b : bool_decide (torch.b2r b <> 0) = b.
Proof.
  destruct b; simpl; [rewrite bool_decide_true | rewrite bool_decide_false]; auto; lra.
Qed.

Lemma b2r_positive b : bool_decide (torch.b2r b > 0) = b.
Proof.
  destruct b; simpl; [rewrite bool_decide_true | rewrite bool_decide_false]; auto; lra.
Qed.

Lemma b2r_below_one b : bool_decide (torch.b2r b < 1) = negb b.
Proof.
  destruct b; simpl; [rewrite bool_decide_false | rewrite bool_decide_true]; auto; lra.
Qed.

(** The right-hand side of the first statement of a leaky [forward]. *)
Lemma decay_expression dt tau_rc rest (v : tensor) :
  torch.add_scalar (torch.scalar_mul (exp (- dt / tau_rc)) (torch.sub_scalar v rest)) rest
  = lif_decay dt tau_rc rest <$> v.
Proof.
  unfold torch.add_scalar, torch.scalar_mul, torch.sub_scalar.
  rewrite <- !list_fmap_compose. reflexivity.
Qed.

Lemma copy_decay dt tau_rc rest (v : tensor) :
  torch.copy_ v
    (torch.add_scalar (torch.scalar_mul (exp (- dt / tau_rc)) (torch.sub_scalar v rest))
       rest)
  = inr (lif_decay dt tau_rc rest <$> v).
Proof.
  rewrite decay_expression. unfold torch.copy_.
  rewrite inplace_same by (by rewrite length_fmap).
  rewrite copy_same_length by (by rewrite length_fmap). reflexivity.
Qed.

(** A one-entry operand is broadcast: it acts as the entry repeated. *)
Lemma mul_singleton mask c :
  torch.mul mask [c] = torch.mul mask (replicate (length mask) c).
Proof.
  unfold torch.mul, torch.broadcast. rewrite length_replicate.
  rewrite (decide_True (P := length mask = length mask)) by done.
  rewrite zip_with_replicate_r_eq by done.
  case_decide as H; simpl in H.
  - destruct mask as [|m [|? ?]]; simpl in H; try lia. reflexivity.
  - destruct mask as [|m [|? ?]]; simpl in H; try lia; reflexivity.
Qed.

(** [self.v += mask * x] raises when [x] has neither the length of [v] nor
    length 1, either in the product or in the in-place addition. *)
Lemma mul_iadd_mismatch mask x v :
  length mask = length v -> length x <> length v -> length x <> 1%nat ->
  match torch.mul mask x with
  | inr t => torch.iadd v t
  | inl e => inl e
  end = inl RuntimeError.
Proof.
  intros Hm Hx H1. unfold torch.mul, torch.broadcast.
  rewrite decide_False by lia.
  destruct mask as [|m [|m' mask]].
  - destruct x as [|a [|b x]]; simpl in *; try lia; reflexivity.
  - unfold torch.iadd, torch.inplace. rewrite length_fmap.
    rewrite decide_False by done.
    destruct x as [|a [|b x]]; simpl in *; try lia; reflexivity.
  - destruct x as [|a [|b x]]; simpl in *; try lia; reflexivity.
Qed.

Lemma lookup_in_range {A} (l k : list A) i a :
  l !! i = Some a -> length k = length l -> exists b, k !! i = Some b.
Proof.
  intros H Hl. apply lookup_lt_is_Some_2. apply lookup_lt_Some in H. lia.
Qed.

(** ** Proof automation *)

(** Tensor-with-scalar operations as maps. *)
Ltac unfold_torch :=
  unfold torch.float, torch.bool, torch.le_scalar, torch.lt_scalar, torch.gt_scalar,
    torch.ge_scalar, torch.scalar_mul, torch.mul_scalar, torch.sub_scalar,
    torch.add_scalar, torch.scalar_add, torch.fill_, torch.isub_scalar,
    torch.imul_scalar, torch.zeros in *.

(** Lengths of tensor expressions. *)
Ltac len :=
  unfold_torch; cbv beta iota delta [has_length];
  repeat first [ rewrite length_fmap | rewrite length_zip_with | rewrite length_replicate ];
  try lia; try reflexivity.

(** Symbolic execution of a method body on tensors of compatible shapes;
    [reduce_fields] reduces the projections and setters of the class at
    hand. *)
Ltac run_forward reduce_fields :=
  unfold mbind, M_bind, get, put, lift, getattr, mret, M_ret,
    torch.copy_, torch.mul, torch.ge, torch.iadd, torch.masked_fill_;
  reduce_fields;
  repeat (first [ rewrite inplace_same by len | rewrite broadcast_same by len ];
          reduce_fields).

(** The monad and the in-place operations, leaving [torch.mul] folded. *)
Ltac unfold_monad :=
  unfold mbind, M_bind, get, put, lift, getattr, mret, M_ret,
    torch.copy_, torch.ge, torch.masked_fill_.

(** The same, leaving [torch.copy_] folded as well. *)
Ltac unfold_monad_keep_copy :=
  unfold mbind, M_bind, get, put, lift, getattr, mret, M_ret, torch.ge, torch.masked_fill_.

(** Execution of a [reset] body. *)
Ltac run_reset :=
  unfold mbind, M_bind, get, put, lift, getattr, mret, M_ret;
  cbn -[torch.fill_ torch.zeros];
  rewrite ?fill_zeros, ?fill_replicate, ?length_replicate.

(** Field access and update, class by class. *)
Ltac red_LIF := idtac;
  cbv beta iota delta
    [LIFPopulation.neurons LIFPopulation.dt LIFPopulation.v LIFPopulation.tau_rc
     LIFPopulation.v_th LIFPopulation.theta LIFPopulation.s LIFPopulation.rest
     LIFPopulation.refrac LIFPopulation.tau_ref
     LIFPopulation.set_v LIFPopulation.set_s LIFPopulation.set_refrac].

Ltac red_LIF2 := idtac;
  cbv beta iota delta
    [LIFPopulation2.neurons LIFPopulation2.dt LIFPopulation2.v LIFPopulation2.tau_rc
     LIFPopulation2.v_th LIFPopulation2.s LIFPopulation2.rest
     LIFPopulation2.refrac LIFPopulation2.tau_ref LIFPopulation2.spikecount
     LIFPopulation2.set_v LIFPopulation2.set_s LIFPopulation2.set_refrac
     LIFPopulation2.set_spikecount].

Ltac red_DC := idtac;
  cbv beta iota delta
    [DiehlAndCookPopulation.neurons DiehlAndCookPopulation.traces
     DiehlAndCookPopulation.dt DiehlAndCookPopulation.v DiehlAndCookPopulation.tau_rc
     DiehlAndCookPopulation.v_th DiehlAndCookPopulation.theta DiehlAndCookPopulation.s
     DiehlAndCookPopulation.rest DiehlAndCookPopulation.refrac
     DiehlAndCookPopulation.tau_ref DiehlAndCookPopulation.x
     DiehlAndCookPopulation.tau_tr DiehlAndCookPopulation.scale_tr
     DiehlAndCookPopulation.set_v DiehlAndCookPopulation.set_s
     DiehlAndCookPopulation.set_refrac DiehlAndCookPopulation.set_x].

Ltac red_Homeo := idtac;
  cbv beta iota delta
    [HomoeostasisLIFPopulation.neurons HomoeostasisLIFPopulation.dt
     HomoeostasisLIFPopulation.v HomoeostasisLIFPopulation.tau_rc
     HomoeostasisLIFPopulation.v_th HomoeostasisLIFPopulation.s
     HomoeostasisLIFPopulation.rest HomoeostasisLIFPopulation.refrac
     HomoeostasisLIFPopulation.tau_ref HomoeostasisLIFPopulation.threshold
     HomoeostasisLIFPopulation.theta_plus HomoeostasisLIFPopulation.theta
     HomoeostasisLIFPopulation.tau_theta HomoeostasisLIFPopulation.frozen_th
     HomoeostasisLIFPopulation.count_spike HomoeostasisLIFPopulation.spikecount
     HomoeostasisLIFPopulation.set_v HomoeostasisLIFPopulation.set_s
     HomoeostasisLIFPopulation.set_refrac HomoeostasisLIFPopulation.set_theta
     HomoeostasisLIFPopulation.set_spikecount negb].

Ltac red_IF := idtac;
  cbv beta iota delta
    [IFPopulation.neurons IFPopulation.dt IFPopulation.v IFPopulation.v_th
     IFPopulation.rest IFPopulation.refrac IFPopulation.tau_ref IFPopulation.s
     IFPopulation.count_spike IFPopulation.spikecount
     IFPopulation.set_v IFPopulation.set_s IFPopulation.set_refrac
     IFPopulation.set_spikecount].

Ltac red_Input := idtac;
  cbv beta iota delta
    [InputPopulation.neurons InputPopulation.traces InputPopulation.count_spike
     InputPopulation.dt InputPopulation.s InputPopulation.x InputPopulation.tau_tr
     InputPopulation.scale_tr InputPopulation.spikecount
     InputPopulation.set_s InputPopulation.set_x InputPopulation.set_spikecount].

(** Entry [i] of a tensor expression. *)
Ltac look :=
  unfold_torch;
  repeat first [ rewrite lookup_zip_with | rewrite list_lookup_fmap
               | rewrite lookup_replicate_2 by lia ].

(** Case analysis on every comparison in the goal. *)
Ltac bool_cases :=
  repeat match goal with
         | |- context [bool_decide ?P] => destruct (bool_decide P) eqn:?; simpl
         end.

(** Comparisons of concrete reals. *)
Ltac decide_reals :=
  repeat match goal with
         | |- context [bool_decide ?P] =>
             first [ rewrite (bool_decide_true P) by lra
                   | rewrite (bool_decide_false P) by lra ]
         end.

(** Evaluation of tensor expressions on concrete tensors. *)
Ltac eval_tensors :=
  unfold_torch;
  repeat (progress (cbn [zip_with fmap list_fmap replicate lookup list_lookup length
                         torch.b2r negb];
                    rewrite ?b2r_nonzero, ?b2r_positive, ?b2r_below_one;
                    decide_reals)).

(** Equality of structures up to arithmetic on their real entries. *)
Ltac same_reals := repeat (f_equal; try lra).

(** Case analysis on the outcome of the next tensor operation of two
    method bodies run side by side. *)
Ltac next_op :=
  match goal with
  | |- context [torch.inplace ?f ?a ?b] =>
      let E := fresh "E" in
      destruct (torch.inplace f a b) eqn:E;
      [ | apply inplace_length in E ]
  | |- context [torch.broadcast ?f ?a ?b] =>
      destruct (torch.broadcast f a b)
  end.

(** ** Construction and reset *)

(** For each class: what [reset] does to a well-shaped object, and that
    [__init__] returns a well-shaped object on which [reset] changes
    nothing. *)
Lemma Input_reset st :
  InputPopulation_wf st ->
  InputPopulation.reset st =
  (InputPopulation.set_x (Some (torch.zeros (InputPopulation.neurons st))) st, inr tt).
Proof.
  intros (Hs & Ht & Hx & _). destruct st as [n tr cs dt s [x|] tau sc cnt]; [|done].
  simpl in *. unfold InputPopulation.reset. run_reset. by rewrite Hx.
Qed.

Lemma Input_init_reset n dt tr tau sc cs st0 :
  InputPopulation.__init__ n dt tr tau sc cs = inr st0 ->
  InputPopulation_wf st0 /\ InputPopulation.reset st0 = (st0, inr tt).
Proof.
  unfold InputPopulation.__init__, InputPopulation.reset.
  destruct tr; run_reset; [|done].
  intros [= <-]. unfold InputPopulation_wf.
  destruct cs; cbn; unfold torch.zeros; rewrite ?fill_replicate, ?length_replicate;
    split_and!; eauto.
Qed.

Lemma IF_reset st :
  IFPopulation_wf st ->
  IFPopulation.reset st =
  (IFPopulation.set_v (replicate (IFPopulation.neurons st) (IFPopulation.rest st)) st,
   inr tt).
Proof.
  intros (Hv & _). unfold IFPopulation.reset. run_reset. by rewrite Hv.
Qed.

Lemma IF_init_reset n dt v_th rest tau_ref cs st0 :
  IFPopulation.__init__ n dt v_th rest tau_ref cs = inr st0 ->
  IFPopulation_wf st0 /\ IFPopulation.reset st0 = (st0, inr tt).
Proof.
  unfold IFPopulation.__init__, IFPopulation.reset. intros [= <-].
  unfold IFPopulation_wf. run_reset.
  destruct cs; cbn; unfold torch.zeros; rewrite ?length_replicate; split_and!; eauto.
Qed.

Lemma Homeo_reset st :
  HomoeostasisLIFPopulation_wf st ->
  HomoeostasisLIFPopulation.reset st =
  (let st1 :=
     HomoeostasisLIFPopulation.set_v
       (replicate (HomoeostasisLIFPopulation.neurons st)
          (HomoeostasisLIFPopulation.rest st)) st in
   if HomoeostasisLIFPopulation.count_spike st
   then HomoeostasisLIFPopulation.set_spikecount
          (Some (torch.zeros (HomoeostasisLIFPopulation.neurons st))) st1
   else st1,
   inr tt).
Proof.
  intros (Hv & _ & _ & _ & Hc).
  destruct st as [n dt v tau_rc v_th s rest refrac tau_ref threshold theta_plus theta
                    tau_theta frozen count cnt].
  simpl in *. unfold HomoeostasisLIFPopulation.reset.
  destruct count; [destruct cnt as [cnt|]; [|done]|]; simpl in *; run_reset.
  - unfold torch.zeros. by rewrite Hv, Hc.
  - by rewrite Hv.
Qed.

Lemma Homeo_init_reset n dt tau_rc v_th theta_plus tau_theta rest tau_ref fr cs st0 :
  HomoeostasisLIFPopulation.__init__ n dt tau_rc v_th theta_plus tau_theta rest tau_ref
    fr cs = inr st0 ->
  HomoeostasisLIFPopulation_wf st0 /\
  HomoeostasisLIFPopulation.reset st0 = (st0, inr tt).
Proof.
  unfold HomoeostasisLIFPopulation.__init__, HomoeostasisLIFPopulation.reset.
  intros [= <-]. unfold HomoeostasisLIFPopulation_wf.
  destruct cs; run_reset; cbn; unfold torch.zeros;
    rewrite ?fill_replicate, ?length_replicate; split_and!; eauto.
Qed.

Lemma LIF2_reset st :
  LIFPopulation2_wf st ->
  LIFPopulation2.reset st =
  (LIFPopulation2.set_spikecount (torch.zeros (LIFPopulation2.neurons st))
     (LIFPopulation2.set_v
        (replicate (LIFPopulation2.neurons st) (LIFPopulation2.rest st)) st),
   inr tt).
Proof.
  intros (Hv & _ & _ & Hc). unfold LIFPopulation2.reset. run_reset.
  unfold torch.zeros. by rewrite Hv, Hc.
Qed.

Lemma LIF2_init_reset n dt tau_rc v_th rest tau_ref st0 :
  LIFPopulation2.__init__ n dt tau_rc v_th rest tau_ref = inr st0 ->
  LIFPopulation2_wf st0 /\ LIFPopulation2.reset st0 = (st0, inr tt).
Proof.
  unfold LIFPopulation2.__init__, LIFPopulation2.reset. intros [= <-].
  unfold LIFPopulation2_wf. run_reset. cbn. unfold torch.zeros.
  rewrite ?length_replicate. split_and!; eauto.
Qed.

Lemma LIF_reset st :
  LIFPopulation_wf st ->
  LIFPopulation.reset st =
  (LIFPopulation.set_v (replicate (LIFPopulation.neurons st) (LIFPopulation.rest st)) st,
   inr tt).
Proof.
  intros (Hv & _). unfold LIFPopulation.reset. run_reset. by rewrite Hv.
Qed.

Lemma LIF_init_reset n dt tau_rc v_th theta rest tau_ref st0 :
  LIFPopulation.__init__ n dt tau_rc v_th theta rest tau_ref = inr st0 ->
  LIFPopulation_wf st0 /\ LIFPopulation.reset st0 = (st0, inr tt).
Proof.
  unfold LIFPopulation.__init__, LIFPopulation.reset. intros [= <-].
  unfold LIFPopulation_wf. run_reset. cbn. unfold torch.zeros.
  rewrite ?length_replicate. split_and!; eauto.
Qed.

Lemma DC_reset st :
  DiehlAndCookPopulation_wf st ->
  DiehlAndCookPopulation.reset st =
  (DiehlAndCookPopulation.set_x (Some (torch.zeros (DiehlAndCookPopulation.neurons st)))
     (DiehlAndCookPopulation.set_v
        (replicate (DiehlAndCookPopulation.neurons st) (DiehlAndCookPopulation.rest st))
        st),
   inr tt).
Proof.
  intros (Hv & _ & _ & _ & Hx & _).
  destruct st as [n traces dt v tau_rc v_th theta s rest refrac tau_ref [x|] tau_tr
                    scale_tr]; [|done].
  simpl in *. unfold DiehlAndCookPopulation.reset. run_reset.
  unfold torch.zeros. by rewrite Hv, Hx.
Qed.

Lemma DC_init_reset n dt tau_rc v_th theta rest tau_ref tr tau sc st0 :
  DiehlAndCookPopulation.__init__ n dt tau_rc v_th theta rest tau_ref tr tau sc
  = inr st0 ->
  DiehlAndCookPopulation_wf st0 /\ DiehlAndCookPopulation.reset st0 = (st0, inr tt).
Proof.
  unfold DiehlAndCookPopulation.__init__, DiehlAndCookPopulation.reset.
  destruct tr; run_reset; [|done].
  intros [= <-]. unfold DiehlAndCookPopulation_wf. cbn. unfold torch.zeros.
  rewrite ?fill_replicate, ?length_replicate. split_and!; eauto.
Qed.

(** The sample objects are well-shaped. *)
Lemma sample_Input_wf : InputPopulation_wf sample_Input.
Proof. unfold InputPopulation_wf. cbn. split_and!; eauto. Qed.

Lemma sample_IF_wf : IFPopulation_wf sample_IF.
Proof. unfold IFPopulation_wf. cbn. split_and!; eauto. Qed.

Lemma sample_Homeo_wf : HomoeostasisLIFPopulation_wf sample_Homeo.
Proof. unfold HomoeostasisLIFPopulation_wf. cbn. split_and!; eauto. Qed.

Lemma sample_LIF2_wf : LIFPopulation2_wf sample_LIF2.
Proof. unfold LIFPopulation2_wf. cbn. split_and!; eauto. Qed.

Lemma sample_LIF_wf : LIFPopulation_wf sample_LIF.
Proof. unfold LIFPopulation_wf. cbn. split_and!; eauto. Qed.

Lemma sample_DC_wf : DiehlAndCookPopulation_wf sample_DC.
Proof. unfold DiehlAndCookPopulation_wf. cbn. split_and!; eauto. Qed.

(** C3.  [reset] of each class, on an object of constructed shape, returns
    normally and leaves the object with exactly the buffers it clears
    rewritten, each to the value [__init__] gives it: the trace [x] is all
    zeros in [InputPopulation]; [v] is [rest] everywhere in [IFPopulation]
    and [LIFPopulation]; [v] is [rest] and [spikecount] all zeros in
    [LIFPopulation2]; [v] is [rest] and, when counting is enabled,
    [spikecount] all zeros in [HomoeostasisLIFPopulation]; [v] is [rest]
    and [x] all zeros in [DiehlAndCookPopulation].  Every other attribute
    ([refrac], [s], [theta], the other counters, the hyperparameters) is
    the one of the object before the call. *)
Theorem C3_reset_restores_cleared_vectors :
  ((forall st,
       InputPopulation_wf st ->
       InputPopulation.reset st =
       (InputPopulation.mk (InputPopulation.neurons st) (InputPopulation.traces st)
          (InputPopulation.count_spike st) (InputPopulation.dt st) (InputPopulation.s st)
          (Some (replicate (InputPopulation.neurons st) 0))
          (InputPopulation.tau_tr st) (InputPopulation.scale_tr st)
          (InputPopulation.spikecount st),
        inr tt)) /\
   (forall n dt tr tau sc cs st0,
       InputPopulation.__init__ n dt tr tau sc cs = inr st0 ->
       InputPopulation_wf st0 /\ InputPopulation.neurons st0 = n /\
       InputPopulation.x st0 = Some (replicate n 0))) /\
  ((forall st,
       IFPopulation_wf st ->
       IFPopulation.reset st =
       (IFPopulation.mk (IFPopulation.neurons st) (IFPopulation.dt st)
          (replicate (IFPopulation.neurons st) (IFPopulation.rest st))
          (IFPopulation.v_th st) (IFPopulation.rest st) (IFPopulation.refrac st)
          (IFPopulation.tau_ref st) (IFPopulation.s st) (IFPopulation.count_spike st)
          (IFPopulation.spikecount st),
        inr tt)) /\
   (forall n dt v_th rest tau_ref cs st0,
       IFPopulation.__init__ n dt v_th rest tau_ref cs = inr st0 ->
       IFPopulation_wf st0 /\ IFPopulation.neurons st0 = n /\
       IFPopulation.rest st0 = rest /\ IFPopulation.v st0 = replicate n rest)) /\
  ((forall st,
       LIFPopulation_wf st ->
       LIFPopulation.reset st =
       (LIFPopulation.mk (LIFPopulation.neurons st) (LIFPopulation.dt st)
          (replicate (LIFPopulation.neurons st) (LIFPopulation.rest st))
          (LIFPopulation.tau_rc st) (LIFPopulation.v_th st) (LIFPopulation.theta st)
          (LIFPopulation.s st) (LIFPopulation.rest st) (LIFPopulation.refrac st)
          (LIFPopulation.tau_ref st),
        inr tt)) /\
   (forall n dt tau_rc v_th theta rest tau_ref st0,
       LIFPopulation.__init__ n dt tau_rc v_th theta rest tau_ref = inr st0 ->
       LIFPopulation_wf st0 /\ LIFPopulation.neurons st0 = n /\
       LIFPopulation.rest st0 = rest /\ LIFPopulation.v st0 = replicate n rest)) /\
  ((forall st,
       LIFPopulation2_wf st ->
       LIFPopulation2.reset st =
       (LIFPopulation2.mk (LIFPopulation2.neurons st) (LIFPopulation2.dt st)
          (replicate (LIFPopulation2.neurons st) (LIFPopulation2.rest st))
          (LIFPopulation2.tau_rc st) (LIFPopulation2.v_th st) (LIFPopulation2.s st)
          (LIFPopulation2.rest st) (LIFPopulation2.refrac st)
          (LIFPopulation2.tau_ref st)
          (replicate (LIFPopulation2.neurons st) 0),
        inr tt)) /\
   (forall n dt tau_rc v_th rest tau_ref st0,
       LIFPopulation2.__init__ n dt tau_rc v_th rest tau_ref = inr st0 ->
       LIFPopulation2_wf st0 /\ LIFPopulation2.neurons st0 = n /\
       LIFPopulation2.rest st0 = rest /\ LIFPopulation2.v st0 = replicate n rest /\
       LIFPopulation2.spikecount st0 = replicate n 0)) /\
  ((forall st,
       HomoeostasisLIFPopulation_wf st ->
       HomoeostasisLIFPopulation.reset st =
       (HomoeostasisLIFPopulation.mk (HomoeostasisLIFPopulation.neurons st)
          (HomoeostasisLIFPopulation.dt st)
          (replicate (HomoeostasisLIFPopulation.neurons st)
             (HomoeostasisLIFPopulation.rest st))
          (HomoeostasisLIFPopulation.tau_rc st) (HomoeostasisLIFPopulation.v_th st)
          (HomoeostasisLIFPopulation.s st) (HomoeostasisLIFPopulation.rest st)
          (HomoeostasisLIFPopulation.refrac st) (HomoeostasisLIFPopulation.tau_ref st)
          (HomoeostasisLIFPopulation.threshold st)
          (HomoeostasisLIFPopulation.theta_plus st) (HomoeostasisLIFPopulation.theta st)
          (HomoeostasisLIFPopulation.tau_theta st)
          (HomoeostasisLIFPopulation.frozen_th st)
          (HomoeostasisLIFPopulation.count_spike st)
          (if HomoeostasisLIFPopulation.count_spike st
           then Some (replicate (HomoeostasisLIFPopulation.neurons st) 0)
           else HomoeostasisLIFPopulation.spikecount st),
        inr tt)) /\
   (forall n dt tau_rc v_th theta_plus tau_theta rest tau_ref fr cs st0,
       HomoeostasisLIFPopulation.__init__ n dt tau_rc v_th theta_plus tau_theta rest
         tau_ref fr cs = inr st0 ->
       HomoeostasisLIFPopulation_wf st0 /\
       HomoeostasisLIFPopulation.neurons st0 = n /\
       HomoeostasisLIFPopulation.rest st0 = rest /\
       HomoeostasisLIFPopulation.v st0 = replicate n rest /\
       HomoeostasisLIFPopulation.spikecount st0
       = (if cs then Some (replicate n 0) else None))) /\
  ((forall st,
       DiehlAndCookPopulation_wf st ->
       DiehlAndCookPopulation.reset st =
       (DiehlAndCookPopulation.mk (DiehlAndCookPopulation.neurons st)
          (DiehlAndCookPopulation.traces st) (DiehlAndCookPopulation.dt st)
          (replicate (DiehlAndCookPopulation.neurons st)
             (DiehlAndCookPopulation.rest st))
          (DiehlAndCookPopulation.tau_rc st) (DiehlAndCookPopulation.v_th st)
          (DiehlAndCookPopulation.theta st) (DiehlAndCookPopulation.s st)
          (DiehlAndCookPopulation.rest st) (DiehlAndCookPopulation.refrac st)
          (DiehlAndCookPopulation.tau_ref st)
          (Some (replicate (DiehlAndCookPopulation.neurons st) 0))
          (DiehlAndCookPopulation.tau_tr st) (DiehlAndCookPopulation.scale_tr st),
        inr tt)) /\
   (forall n dt tau_rc v_th theta rest tau_ref tr tau sc st0,
       DiehlAndCookPopulation.__init__ n dt tau_rc v_th theta rest tau_ref tr tau sc
       = inr st0 ->
       DiehlAndCookPopulation_wf st0 /\
       DiehlAndCookPopulation.neurons st0 = n /\
       DiehlAndCookPopulation.rest st0 = rest /\
       DiehlAndCookPopulation.v st0 = replicate n rest /\
       DiehlAndCookPopulation.x st0 = Some (replicate n 0))).
Proof.
  split_and!.
  - intros st Hwf. rewrite (Input_reset st Hwf). by destruct st.
  - intros n dt tr tau sc cs st0 H.
    split; [exact (proj1 (Input_init_reset _ _ _ _ _ _ _ H))|].
    revert H. unfold InputPopulation.__init__, InputPopulation.reset.
    destruct tr; run_reset; [|done]. intros [= <-]. by destruct cs.
  - intros st Hwf. rewrite (IF_reset st Hwf). by destruct st.
  - intros n dt v_th rest tau_ref cs st0 H.
    split; [exact (proj1 (IF_init_reset _ _ _ _ _ _ _ H))|].
    unfold IFPopulation.__init__ in H. injection H as <-. cbn.
    unfold torch.fill_, torch.zeros. by rewrite fmap_replicate.
  - intros st Hwf. rewrite (LIF_reset st Hwf). by destruct st.
  - intros n dt tau_rc v_th theta rest tau_ref st0 H.
    split; [exact (proj1 (LIF_init_reset _ _ _ _ _ _ _ _ H))|].
    unfold LIFPopulation.__init__ in H. injection H as <-. cbn.
    unfold torch.fill_, torch.zeros. by rewrite fmap_replicate.
  - intros st Hwf. rewrite (LIF2_reset st Hwf). by destruct st.
  - intros n dt tau_rc v_th rest tau_ref st0 H.
    split; [exact (proj1 (LIF2_init_reset _ _ _ _ _ _ _ H))|].
    unfold LIFPopulation2.__init__ in H. injection H as <-. cbn.
    unfold torch.fill_, torch.zeros. by rewrite fmap_replicate.
  - intros st Hwf. rewrite (Homeo_reset st Hwf).
    by destruct st as [? ? ? ? ? ? ? ? ? ? ? ? ? ? [|] ?].
  - intros n dt tau_rc v_th theta_plus tau_theta rest tau_ref fr cs st0 H.
    split; [exact (proj1 (Homeo_init_reset _ _ _ _ _ _ _ _ _ _ _ H))|].
    unfold HomoeostasisLIFPopulation.__init__ in H. injection H as <-. cbn.
    unfold torch.fill_, torch.zeros. by rewrite fmap_replicate.
  - intros st Hwf. rewrite (DC_reset st Hwf). by destruct st.
  - intros n dt tau_rc v_th theta rest tau_ref tr tau sc st0 H.
    split; [exact (proj1 (DC_init_reset _ _ _ _ _ _ _ _ _ _ _ H))|].
    revert H. unfold DiehlAndCookPopulation.__init__, DiehlAndCookPopulation.reset.
    destruct tr; run_reset; [|done]. intros [= <-]. cbn.
    unfold torch.zeros. by rewrite ?fill_replicate.
Qed.

(** C3 on used objects: a [LIFPopulation2] whose only neuron has spiked
    twice and is refractory, and an [InputPopulation] with a non-zero
    trace. *)
Lemma C3_reset_restores_cleared_vectors_witness :
  (LIFPopulation2_wf (LIFPopulation2.mk 1 1 [-60] 100 (-52) [1] (-65) [3] 5 [2]) /\
   InputPopulation_wf
     (InputPopulation.mk 2 true false 1 [1; 0] (Some [1; 0.5]) (Some 20) (Some 1) None)) /\
  LIFPopulation2.reset (LIFPopulation2.mk 1 1 [-60] 100 (-52) [1] (-65) [3] 5 [2])
  = (LIFPopulation2.mk 1 1 [-65] 100 (-52) [1] (-65) [3] 5 [0], inr tt) /\
  InputPopulation.reset
    (InputPopulation.mk 2 true false 1 [1; 0] (Some [1; 0.5]) (Some 20) (Some 1) None)
  = (InputPopulation.mk 2 true false 1 [1; 0] (Some [0; 0]) (Some 20) (Some 1) None,
     inr tt).
Proof.
  assert (H2 : LIFPopulation2_wf
                 (LIFPopulation2.mk 1 1 [-60] 100 (-52) [1] (-65) [3] 5 [2])).
  { unfold LIFPopulation2_wf. cbn. auto. }
  assert (HI : InputPopulation_wf
                 (InputPopulation.mk 2 true false 1 [1; 0] (Some [1; 0.5]) (Some 20)
                    (Some 1) None)).
  { unfold InputPopulation_wf. cbn. split_and!; eauto. }
  destruct C3_reset_restores_cleared_vectors
    as ((HInput & _) & _ & _ & (HLIF2 & _) & _).
  split; [exact (conj H2 HI)|].
  exact (conj (HLIF2 _ H2) (HInput _ HI)).
Defined.

(** C8.  [InputPopulation] and [DiehlAndCookPopulation] cannot be
    constructed with [traces=False]: [__init__] calls [reset], which fills
    the trace buffer [x], and that buffer exists only when [traces] is
    true, so the call raises [AttributeError].  Hence every constructed
    object of these classes has [traces = True], and [reset] on an object
    without [x] raises [AttributeError]. *)
Theorem C8_traces_disabled_cannot_be_constructed :
  (forall n dt tau sc cs,
      InputPopulation.__init__ n dt false tau sc cs = inl AttributeError) /\
  (forall n dt tau_rc v_th theta rest tau_ref tau sc,
      DiehlAndCookPopulation.__init__ n dt tau_rc v_th theta rest tau_ref false tau sc
      = inl AttributeError) /\
  (forall st,
      InputPopulation.x st = None ->
      result InputPopulation.reset st = inl AttributeError) /\
  (forall st,
      DiehlAndCookPopulation.x st = None ->
      result DiehlAndCookPopulation.reset st = inl AttributeError) /\
  (forall n dt tr tau sc cs st0,
      InputPopulation.__init__ n dt tr tau sc cs = inr st0 ->
      tr = true /\ InputPopulation.traces st0 = true) /\
  (forall n dt tau_rc v_th theta rest tau_ref tr tau sc st0,
      DiehlAndCookPopulation.__init__ n dt tau_rc v_th theta rest tau_ref tr tau sc
      = inr st0 ->
      tr = true /\ DiehlAndCookPopulation.traces st0 = true).
Proof.
  split_and!.
  - reflexivity.
  - reflexivity.
  - intros st H. unfold result, InputPopulation.reset.
    unfold mbind, M_bind, get, getattr. cbn. by rewrite H.
  - intros st H. unfold result, DiehlAndCookPopulation.reset.
    unfold mbind, M_bind, get, put, getattr. cbn. by rewrite H.
  - intros n dt tr tau sc cs st0. destruct tr; [|discriminate].
    unfold InputPopulation.__init__, InputPopulation.reset.
    unfold mbind, M_bind, get, put, getattr. cbn. intros [= <-]. by destruct cs.
  - intros n dt tau_rc v_th theta rest tau_ref tr tau sc st0.
    destruct tr; [|discriminate].
    unfold DiehlAndCookPopulation.__init__, DiehlAndCookPopulation.reset.
    unfold mbind, M_bind, get, put, getattr. cbn. by intros [= <-].
Qed.

(** C8 on the two objects without trace buffers. *)
Lemma C8_traces_disabled_cannot_be_constructed_witness :
  (InputPopulation.x traceless_Input = None /\
   DiehlAndCookPopulation.x traceless_DC = None) /\
  result InputPopulation.reset traceless_Input = inl AttributeError /\
  result DiehlAndCookPopulation.reset traceless_DC = inl AttributeError.
Proof.
  destruct C8_traces_disabled_cannot_be_constructed as (_ & _ & H3 & H4 & _).
  split; [exact (conj eq_refl eq_refl)|].
  exact (conj (H3 traceless_Input eq_refl) (H4 traceless_DC eq_refl)).
Defined.

(** ** One step of each class, neuron by neuron *)

(** For each class: on a well-shaped object and an input of [neurons]
    entries, [forward] returns, the hyperparameters are untouched, and the
    new buffers are described neuron by neuron. *)
Lemma LIF_forward_elem st x :
  LIFPopulation_wf st -> length x = LIFPopulation.neurons st ->
  exists s' v' r',
    LIFPopulation.forward x st =
      (LIFPopulation.mk (LIFPopulation.neurons st) (LIFPopulation.dt st) v'
         (LIFPopulation.tau_rc st) (LIFPopulation.v_th st) (LIFPopulation.theta st) s'
         (LIFPopulation.rest st) r' (LIFPopulation.tau_ref st), inr (s', v')) /\
    lif_step_spec (LIFPopulation.dt st) (LIFPopulation.tau_rc st) (LIFPopulation.v_th st)
      (LIFPopulation.rest st) (LIFPopulation.tau_ref st)
      (replicate (LIFPopulation.neurons st) (LIFPopulation.theta st))
      (LIFPopulation.v st) (LIFPopulation.refrac st) x s' v' r'.
Proof.
  intros (Hv & Hr & Hs) Hx. destruct st as [n dt v tau_rc v_th theta s rest refrac tau_ref].
  simpl in *.
  unfold LIFPopulation.forward. run_forward red_LIF.
  eexists _, _, _. split; [reflexivity|].
  split; [len|]. split; [len|]. split; [len|].
  intros i vi ri xi thi Hvi Hri Hxi Hthi.
  destruct (lookup_in_range v s i vi) as [si Hsi]; [done|lia|].
  apply lookup_replicate in Hthi as [-> _].
  look. rewrite Hvi, Hri, Hxi, Hsi. simpl.
  rewrite b2r_nonzero. unfold lif_neuron_step, neuron_step, lif_decay.
  destruct (bool_decide (ri <= 0)); simpl;
    rewrite ?Rmult_1_l, ?Rmult_0_l, ?Rplus_0_r; bool_cases; reflexivity.
Qed.

Lemma LIF2_forward_elem st x :
  LIFPopulation2_wf st -> length x = LIFPopulation2.neurons st ->
  exists s' v' r' cnt',
    LIFPopulation2.forward x st =
      (LIFPopulation2.mk (LIFPopulation2.neurons st) (LIFPopulation2.dt st) v'
         (LIFPopulation2.tau_rc st) (LIFPopulation2.v_th st) s'
         (LIFPopulation2.rest st) r' (LIFPopulation2.tau_ref st) cnt', inr (s', v')) /\
    length cnt' = LIFPopulation2.neurons st /\
    lif_step_spec (LIFPopulation2.dt st) (LIFPopulation2.tau_rc st) (LIFPopulation2.v_th st)
      (LIFPopulation2.rest st) (LIFPopulation2.tau_ref st)
      (replicate (LIFPopulation2.neurons st) 0)
      (LIFPopulation2.v st) (LIFPopulation2.refrac st) x s' v' r'.
Proof.
  intros (Hv & Hr & Hs & Hc) Hx.
  destruct st as [n dt v tau_rc v_th s rest refrac tau_ref cnt]. simpl in *.
  unfold LIFPopulation2.forward. run_forward red_LIF2.
  eexists _, _, _, _. split; [reflexivity|].
  split; [len|]. split; [len|]. split; [len|]. split; [len|].
  intros i vi ri xi thi Hvi Hri Hxi Hthi.
  destruct (lookup_in_range v s i vi) as [si Hsi]; [done|lia|].
  apply lookup_replicate in Hthi as [-> _].
  look. rewrite Hvi, Hri, Hxi, Hsi. simpl.
  rewrite b2r_nonzero. unfold lif_neuron_step, neuron_step, lif_decay.
  rewrite Rplus_0_r.
  destruct (bool_decide (ri <= 0)); simpl;
    rewrite ?Rmult_1_l, ?Rmult_0_l, ?Rplus_0_r; bool_cases; reflexivity.
Qed.

Lemma DC_forward_elem st x_in :
  DiehlAndCookPopulation_wf st -> length x_in = DiehlAndCookPopulation.neurons st ->
  exists s' v' r' tr',
    DiehlAndCookPopulation.forward x_in st =
      (DiehlAndCookPopulation.mk (DiehlAndCookPopulation.neurons st)
         (DiehlAndCookPopulation.traces st) (DiehlAndCookPopulation.dt st) v'
         (DiehlAndCookPopulation.tau_rc st) (DiehlAndCookPopulation.v_th st)
         (DiehlAndCookPopulation.theta st) s' (DiehlAndCookPopulation.rest st) r'
         (DiehlAndCookPopulation.tau_ref st) (Some tr')
         (DiehlAndCookPopulation.tau_tr st) (DiehlAndCookPopulation.scale_tr st),
       inr (s', v')) /\
    length tr' = DiehlAndCookPopulation.neurons st /\
    lif_step_spec (DiehlAndCookPopulation.dt st) (DiehlAndCookPopulation.tau_rc st)
      (DiehlAndCookPopulation.v_th st) (DiehlAndCookPopulation.rest st)
      (DiehlAndCookPopulation.tau_ref st)
      (replicate (DiehlAndCookPopulation.neurons st) (DiehlAndCookPopulation.theta st))
      (DiehlAndCookPopulation.v st) (DiehlAndCookPopulation.refrac st) x_in s' v' r'.
Proof.
  intros (Hv & Hr & Hs & Ht & Hx & [tau Htau] & [sc Hsc]) Hin.
  destruct st as [n traces dt v tau_rc v_th theta s rest refrac tau_ref x tau_tr scale_tr].
  simpl in *. subst. destruct x as [tr|]; [|done]. simpl in Hx.
  unfold DiehlAndCookPopulation.forward. run_forward red_DC.
  eexists _, _, _, _. split; [reflexivity|].
  split; [len|]. split; [len|]. split; [len|]. split; [len|].
  intros i vi ri xi thi Hvi Hri Hxi Hthi.
  destruct (lookup_in_range v s i vi) as [si Hsi]; [done|lia|].
  apply lookup_replicate in Hthi as [-> _].
  look. rewrite Hvi, Hri, Hxi, Hsi. simpl.
  rewrite b2r_nonzero. unfold lif_neuron_step, neuron_step, lif_decay.
  destruct (bool_decide (ri <= 0)); simpl;
    rewrite ?Rmult_1_l, ?Rmult_0_l, ?Rplus_0_r; bool_cases; reflexivity.
Qed.

Lemma Homeo_forward_elem st x :
  HomoeostasisLIFPopulation_wf st -> length x = HomoeostasisLIFPopulation.neurons st ->
  exists s' v' r' th' cnt',
    HomoeostasisLIFPopulation.forward x st =
      (HomoeostasisLIFPopulation.mk (HomoeostasisLIFPopulation.neurons st)
         (HomoeostasisLIFPopulation.dt st) v' (HomoeostasisLIFPopulation.tau_rc st)
         (HomoeostasisLIFPopulation.v_th st) s' (HomoeostasisLIFPopulation.rest st) r'
         (HomoeostasisLIFPopulation.tau_ref st) (HomoeostasisLIFPopulation.threshold st)
         (HomoeostasisLIFPopulation.theta_plus st) th'
         (HomoeostasisLIFPopulation.tau_theta st)
         (HomoeostasisLIFPopulation.frozen_th st)
         (HomoeostasisLIFPopulation.count_spike st) cnt',
       inr (s', v')) /\
    (if HomoeostasisLIFPopulation.count_spike st
     then has_length (HomoeostasisLIFPopulation.neurons st) cnt'
     else cnt' = None) /\
    length th' = HomoeostasisLIFPopulation.neurons st /\
    (forall i si thi,
        s' !! i = Some si -> HomoeostasisLIFPopulation.theta st !! i = Some thi ->
        th' !! i =
        Some (if HomoeostasisLIFPopulation.frozen_th st then thi
              else thi
                   + torch.b2r (bool_decide (si > 0))
                     * HomoeostasisLIFPopulation.theta_plus st
                   + torch.b2r (bool_decide (si < 1))
                     * exp (- (HomoeostasisLIFPopulation.dt st
                               / HomoeostasisLIFPopulation.tau_theta st)))) /\
    lif_step_spec (HomoeostasisLIFPopulation.dt st) (HomoeostasisLIFPopulation.tau_rc st)
      (HomoeostasisLIFPopulation.v_th st) (HomoeostasisLIFPopulation.rest st)
      (HomoeostasisLIFPopulation.tau_ref st) (HomoeostasisLIFPopulation.theta st)
      (HomoeostasisLIFPopulation.v st) (HomoeostasisLIFPopulation.refrac st) x s' v' r'.
Proof.
  intros (Hv & Hr & Hs & Hth & Hc) Hx.
  destruct st as [n dt v tau_rc v_th s rest refrac tau_ref threshold theta_plus theta
                    tau_theta frozen count cnt].
  simpl in *.
  unfold HomoeostasisLIFPopulation.forward.
  (destruct count; [destruct cnt as [cnt|]; [|done] | subst cnt]);
    destruct frozen; simpl in *;
    run_forward red_Homeo;
    (eexists _, _, _, _, _; split; [reflexivity|]);
    (split; [len|]); (split; [len|]);
    (split;
     [ intros i si thi Hsi Hthi; revert Hsi; look; try rewrite Hthi;
       destruct (s !! i), (v !! i), (refrac !! i), (x !! i); simpl; try done;
       intros [= <-]; try done
     | split; [len|]; split; [len|]; split; [len|];
       intros i vi ri xi thi Hvi Hri Hxi Hthi;
       destruct (lookup_in_range v s i vi) as [si Hsi]; [done|lia|];
       look; rewrite Hvi, Hri, Hxi, Hsi, Hthi; simpl;
       rewrite b2r_nonzero; unfold lif_neuron_step, neuron_step, lif_decay;
       destruct (bool_decide (ri <= 0)); simpl;
       rewrite ?Rmult_1_l, ?Rmult_0_l, ?Rplus_0_r; bool_cases; reflexivity ]).
Qed.

Lemma IF_forward_elem st x :
  IFPopulation_wf st -> length x = IFPopulation.neurons st ->
  exists s' v' r' cnt',
    IFPopulation.forward x st =
      (IFPopulation.mk (IFPopulation.neurons st) (IFPopulation.dt st) v'
         (IFPopulation.v_th st) (IFPopulation.rest st) r' (IFPopulation.tau_ref st) s'
         (IFPopulation.count_spike st) cnt',
       match IFPopulation.count_spike st with
       | Some _ => inr (s', v')
       | None => inl AttributeError
       end) /\
    match IFPopulation.count_spike st with
    | Some _ => has_length (IFPopulation.neurons st) cnt'
    | None => cnt' = None
    end /\
    if_step_spec (IFPopulation.dt st) (IFPopulation.v_th st) (IFPopulation.rest st)
      (IFPopulation.tau_ref st) (IFPopulation.v st) (IFPopulation.refrac st) x s' v' r'.
Proof.
  intros (Hv & Hr & Hs & Hc) Hx.
  destruct st as [n dt v v_th rest refrac tau_ref s count cnt]. simpl in *.
  unfold IFPopulation.forward, IFPopulation.integrate, IFPopulation.fire.
  (destruct count as [c|]; [destruct Hc as [-> Hc]; destruct cnt as [cnt|]; [|done]
                           | subst cnt]);
    simpl in *; run_forward red_IF;
    (eexists _, _, _, _; split; [reflexivity|]);
    (split; [len|]); (split; [len|]); (split; [len|]); (split; [len|]);
    intros i vi ri xi Hvi Hri Hxi;
    (destruct (lookup_in_range v s i vi) as [si Hsi]; [done|lia|]);
    look; rewrite Hvi, Hri, Hxi, Hsi; simpl;
    rewrite b2r_nonzero; unfold if_neuron_step, neuron_step;
    destruct (bool_decide (ri <= 0)); simpl;
    rewrite ?Rmult_1_l, ?Rmult_0_l, ?Rplus_0_r; bool_cases; reflexivity.
Qed.

(** C1.  In each class of the leaky family ([LIFPopulation],
    [LIFPopulation2], [HomoeostasisLIFPopulation], [DiehlAndCookPopulation])
    one [forward] call on an input vector of [neurons] entries returns
    [(s, v)], and the new [s], [v] and [refrac] are, neuron by neuron, what
    the five steps of [lif_neuron_step] compute in their order: decay of
    [v] toward [rest], input added only where [refrac <= 0], [refrac]
    decremented by [dt], threshold test against [v_th + theta], and on a
    spike [refrac := tau_ref] and [v := rest].  The offset [theta] is 0 for
    [LIFPopulation2], the scalar attribute for [LIFPopulation] and
    [DiehlAndCookPopulation], and the per-neuron vector, as it is before the
    call, for [HomoeostasisLIFPopulation]. *)
Theorem C1_lif_family_step :
  (forall st x,
      LIFPopulation_wf st -> length x = LIFPopulation.neurons st ->
      let st' := exec (LIFPopulation.forward x) st in
      result (LIFPopulation.forward x) st
        = inr (LIFPopulation.s st', LIFPopulation.v st') /\
      lif_step_spec (LIFPopulation.dt st) (LIFPopulation.tau_rc st)
        (LIFPopulation.v_th st) (LIFPopulation.rest st) (LIFPopulation.tau_ref st)
        (replicate (LIFPopulation.neurons st) (LIFPopulation.theta st))
        (LIFPopulation.v st) (LIFPopulation.refrac st) x
        (LIFPopulation.s st') (LIFPopulation.v st') (LIFPopulation.refrac st')) /\
  (forall st x,
      LIFPopulation2_wf st -> length x = LIFPopulation2.neurons st ->
      let st' := exec (LIFPopulation2.forward x) st in
      result (LIFPopulation2.forward x) st
        = inr (LIFPopulation2.s st', LIFPopulation2.v st') /\
      lif_step_spec (LIFPopulation2.dt st) (LIFPopulation2.tau_rc st)
        (LIFPopulation2.v_th st) (LIFPopulation2.rest st) (LIFPopulation2.tau_ref st)
        (replicate (LIFPopulation2.neurons st) 0)
        (LIFPopulation2.v st) (LIFPopulation2.refrac st) x
        (LIFPopulation2.s st') (LIFPopulation2.v st') (LIFPopulation2.refrac st')) /\
  (forall st x,
      HomoeostasisLIFPopulation_wf st ->
      length x = HomoeostasisLIFPopulation.neurons st ->
      let st' := exec (HomoeostasisLIFPopulation.forward x) st in
      result (HomoeostasisLIFPopulation.forward x) st
        = inr (HomoeostasisLIFPopulation.s st', HomoeostasisLIFPopulation.v st') /\
      lif_step_spec (HomoeostasisLIFPopulation.dt st)
        (HomoeostasisLIFPopulation.tau_rc st) (HomoeostasisLIFPopulation.v_th st)
        (HomoeostasisLIFPopulation.rest st) (HomoeostasisLIFPopulation.tau_ref st)
        (HomoeostasisLIFPopulation.theta st)
        (HomoeostasisLIFPopulation.v st) (HomoeostasisLIFPopulation.refrac st) x
        (HomoeostasisLIFPopulation.s st') (HomoeostasisLIFPopulation.v st')
        (HomoeostasisLIFPopulation.refrac st')) /\
  (forall st x,
      DiehlAndCookPopulation_wf st -> length x = DiehlAndCookPopulation.neurons st ->
      let st' := exec (DiehlAndCookPopulation.forward x) st in
      result (DiehlAndCookPopulation.forward x) st
        = inr (DiehlAndCookPopulation.s st', DiehlAndCookPopulation.v st') /\
      lif_step_spec (DiehlAndCookPopulation.dt st) (DiehlAndCookPopulation.tau_rc st)
        (DiehlAndCookPopulation.v_th st) (DiehlAndCookPopulation.rest st)
        (DiehlAndCookPopulation.tau_ref st)
        (replicate (DiehlAndCookPopulation.neurons st) (DiehlAndCookPopulation.theta st))
        (DiehlAndCookPopulation.v st) (DiehlAndCookPopulation.refrac st) x
        (DiehlAndCookPopulation.s st') (DiehlAndCookPopulation.v st')
        (DiehlAndCookPopulation.refrac st')).
Proof.
  split_and!; intros st x Hwf Hx; unfold exec, result.
  - destruct (LIF_forward_elem st x Hwf Hx) as (s' & v' & r' & -> & H). done.
  - destruct (LIF2_forward_elem st x Hwf Hx) as (s' & v' & r' & cnt' & -> & _ & H). done.
  - destruct (Homeo_forward_elem st x Hwf Hx)
      as (s' & v' & r' & th' & cnt' & -> & _ & _ & _ & H). done.
  - destruct (DC_forward_elem st x Hwf Hx) as (s' & v' & r' & tr' & -> & _ & H). done.
Qed.

(** C1 on the sample objects of the four leaky classes. *)
Lemma C1_lif_family_step_witness :
  (LIFPopulation_wf sample_LIF /\ LIFPopulation2_wf sample_LIF2 /\
   HomoeostasisLIFPopulation_wf sample_Homeo /\ DiehlAndCookPopulation_wf sample_DC) /\
  result (LIFPopulation.forward [14]) sample_LIF =
    inr (LIFPopulation.s (exec (LIFPopulation.forward [14]) sample_LIF),
         LIFPopulation.v (exec (LIFPopulation.forward [14]) sample_LIF)) /\
  result (LIFPopulation2.forward [14]) sample_LIF2 =
    inr (LIFPopulation2.s (exec (LIFPopulation2.forward [14]) sample_LIF2),
         LIFPopulation2.v (exec (LIFPopulation2.forward [14]) sample_LIF2)) /\
  result (HomoeostasisLIFPopulation.forward [14]) sample_Homeo =
    inr (HomoeostasisLIFPopulation.s
           (exec (HomoeostasisLIFPopulation.forward [14]) sample_Homeo),
         HomoeostasisLIFPopulation.v
           (exec (HomoeostasisLIFPopulation.forward [14]) sample_Homeo)) /\
  result (DiehlAndCookPopulation.forward [14]) sample_DC =
    inr (DiehlAndCookPopulation.s (exec (DiehlAndCookPopulation.forward [14]) sample_DC),
         DiehlAndCookPopulation.v (exec (DiehlAndCookPopulation.forward [14]) sample_DC)).
Proof.
  destruct C1_lif_family_step as (H1 & H2 & H3 & H4).
  split.
  - exact (conj sample_LIF_wf (conj sample_LIF2_wf (conj sample_Homeo_wf sample_DC_wf))).
  - split; [exact (proj1 (H1 sample_LIF [14] sample_LIF_wf eq_refl))|].
    split; [exact (proj1 (H2 sample_LIF2 [14] sample_LIF2_wf eq_refl))|].
    split; [exact (proj1 (H3 sample_Homeo [14] sample_Homeo_wf eq_refl))|].
    exact (proj1 (H4 sample_DC [14] sample_DC_wf eq_refl)).
Defined.

(** ** The adaptive threshold *)

(** The spike vector computed by the five steps is binary. *)
Lemma lif_step_spec_binary dt tau_rc v_th rest tau_ref theta v refrac x s' v' r' :
  length refrac = length v -> length x = length v -> length theta = length v ->
  lif_step_spec dt tau_rc v_th rest tau_ref theta v refrac x s' v' r' ->
  binary s'.
Proof.
  intros Lr Lx Lt (Ls & _ & _ & H). apply Forall_lookup. intros i a Ha.
  assert (Hi : (i < length v)%nat) by (apply lookup_lt_Some in Ha; lia).
  destruct (lookup_lt_is_Some_2 v i) as [vi Hvi]; [lia|].
  destruct (lookup_lt_is_Some_2 refrac i) as [ri Hri]; [lia|].
  destruct (lookup_lt_is_Some_2 x i) as [xi Hxi]; [lia|].
  destruct (lookup_lt_is_Some_2 theta i) as [thi Hthi]; [lia|].
  specialize (H i vi ri xi thi Hvi Hri Hxi Hthi).
  unfold lif_neuron_step, neuron_step in H. rewrite Ha in H.
  destruct (bool_decide (_ >= _)); injection H as -> _ _; auto.
Qed.

(** The update of [theta] in one step, by cases on the spike value. *)
Lemma Homeo_theta_update (st : HomoeostasisLIFPopulation.state) (x : tensor) :
  HomoeostasisLIFPopulation_wf st ->
  length x = HomoeostasisLIFPopulation.neurons st ->
  let st' := exec (HomoeostasisLIFPopulation.forward x) st in
  (forall i si thi,
      HomoeostasisLIFPopulation.s st' !! i = Some si ->
      HomoeostasisLIFPopulation.theta st !! i = Some thi ->
      HomoeostasisLIFPopulation.frozen_th st = false ->
      (si = 1 ->
       HomoeostasisLIFPopulation.theta st' !! i
       = Some (thi + HomoeostasisLIFPopulation.theta_plus st)) /\
      (si < 1 ->
       HomoeostasisLIFPopulation.theta st' !! i
       = Some (thi + exp (- (HomoeostasisLIFPopulation.dt st
                             / HomoeostasisLIFPopulation.tau_theta st))))) /\
  (HomoeostasisLIFPopulation.frozen_th st = true ->
   HomoeostasisLIFPopulation.theta st' = HomoeostasisLIFPopulation.theta st).
Proof.
  intros Hwf Hx st'.
  destruct (Homeo_forward_elem st x Hwf Hx)
    as (s' & v' & r' & th' & cnt' & E & _ & Lth & Hth & Hspec).
  unfold st', exec. rewrite E. cbn.
  destruct Hwf as (Lv & Lr & Ls & Ltheta & _).
  assert (Hbin : binary s').
  { eapply lif_step_spec_binary; [| | |exact Hspec]; lia. }
  split.
  - intros i si thi Hsi Hthi Hfrozen.
    rewrite (Hth i si thi Hsi Hthi), Hfrozen.
    split; intros Hcase.
    + subst si. rewrite bool_decide_true by lra. rewrite bool_decide_false by lra.
      simpl. f_equal. lra.
    + assert (si = 0) as ->.
      { apply (Forall_lookup_1 _ _ _ _ Hbin) in Hsi. lra. }
      rewrite bool_decide_false by lra. rewrite bool_decide_true by lra.
      simpl. f_equal. lra.
  - intros Hfrozen. apply list_eq. intros i.
    destruct (HomoeostasisLIFPopulation.theta st !! i) as [thi|] eqn:Ethi.
    + destruct (lookup_lt_is_Some_2 s' i) as [si Hsi].
      { apply lookup_lt_Some in Ethi. destruct Hspec as (? & _). lia. }
      rewrite (Hth i si thi Hsi Ethi), Hfrozen. done.
    + apply lookup_ge_None. apply lookup_ge_None in Ethi. lia.
Qed.

(** C2.  One [forward] call of a [HomoeostasisLIFPopulation] on an input of
    [neurons] entries leaves [s] and [theta] with [neurons] entries.  With
    [frozen_th] false, [theta] becomes, entry by entry,
    [theta + (s > 0) * theta_plus + (s < 1) * exp(-(dt/tau_theta))] for the
    spike vector [s] of the step: every neuron either spiked ([s = 1]) and
    its [theta] grew by [theta_plus], or did not ([s = 0]) and its [theta]
    grew by the constant [exp(-(dt/tau_theta))].  With [frozen_th] true,
    [theta] is left as it was. *)
Theorem C2_theta_update (st : HomoeostasisLIFPopulation.state) (x : tensor) :
  HomoeostasisLIFPopulation_wf st ->
  length x = HomoeostasisLIFPopulation.neurons st ->
  let st' := exec (HomoeostasisLIFPopulation.forward x) st in
  let e := exp (- (HomoeostasisLIFPopulation.dt st
                   / HomoeostasisLIFPopulation.tau_theta st)) in
  length (HomoeostasisLIFPopulation.s st') = HomoeostasisLIFPopulation.neurons st /\
  length (HomoeostasisLIFPopulation.theta st') = HomoeostasisLIFPopulation.neurons st /\
  (HomoeostasisLIFPopulation.frozen_th st = false ->
   HomoeostasisLIFPopulation.theta st'
   = zip_with
       (fun thi si =>
          thi + torch.b2r (bool_decide (si > 0)) * HomoeostasisLIFPopulation.theta_plus st
          + torch.b2r (bool_decide (si < 1)) * e)
       (HomoeostasisLIFPopulation.theta st) (HomoeostasisLIFPopulation.s st') /\
   forall i thi,
     HomoeostasisLIFPopulation.theta st !! i = Some thi ->
     (HomoeostasisLIFPopulation.s st' !! i = Some 1 /\
      HomoeostasisLIFPopulation.theta st' !! i
      = Some (thi + HomoeostasisLIFPopulation.theta_plus st)) \/
     (HomoeostasisLIFPopulation.s st' !! i = Some 0 /\
      HomoeostasisLIFPopulation.theta st' !! i = Some (thi + e))) /\
  (HomoeostasisLIFPopulation.frozen_th st = true ->
   HomoeostasisLIFPopulation.theta st' = HomoeostasisLIFPopulation.theta st).
Proof.
  intros Hwf Hx st' e.
  pose proof (Homeo_theta_update st x Hwf Hx) as [Hup Hfr]. fold st' in Hup, Hfr.
  destruct (Homeo_forward_elem st x Hwf Hx)
    as (s' & v' & r' & th' & cnt' & E & _ & Lth & Hth & Hspec).
  assert (Es : HomoeostasisLIFPopulation.s st' = s')
    by (unfold st', exec; rewrite E; reflexivity).
  assert (Et : HomoeostasisLIFPopulation.theta st' = th')
    by (unfold st', exec; rewrite E; reflexivity).
  pose proof Hwf as (Lv & Lr & Ls & Ltheta & _).
  assert (Hbin : binary s').
  { eapply lif_step_spec_binary; [| | |exact Hspec]; lia. }
  destruct Hspec as (Ls' & _).
  rewrite Es, Et. split; [lia|]. split; [exact Lth|]. split; [|rewrite <- Et; exact Hfr].
  intros Hfrozen. split.
  - apply list_eq. intros i. rewrite lookup_zip_with.
    destruct (HomoeostasisLIFPopulation.theta st !! i) as [thi|] eqn:Ethi; simpl.
    + destruct (lookup_lt_is_Some_2 s' i) as [si Hsi].
      { apply lookup_lt_Some in Ethi. lia. }
      rewrite Hsi. simpl. rewrite (Hth i si thi Hsi Ethi), Hfrozen. reflexivity.
    + apply lookup_ge_None. apply lookup_ge_None in Ethi. lia.
  - intros i thi Hthi.
    destruct (lookup_lt_is_Some_2 s' i) as [si Hsi].
    { apply lookup_lt_Some in Hthi. lia. }
    assert (Hsi' : HomoeostasisLIFPopulation.s st' !! i = Some si)
      by (rewrite Es; exact Hsi).
    destruct (Hup i si thi Hsi' Hthi Hfrozen) as [H1 H0]. rewrite Et in H1, H0.
    apply (Forall_lookup_1 _ _ _ _ Hbin) in Hsi as Hb. destruct Hb as [-> | ->].
    + right. split; [done|]. apply H0. lra.
    + left. split; [done|]. by apply H1.
Qed.

(** The sample [HomoeostasisLIFPopulation] spikes on the input 14. *)
Lemma sample_Homeo_spike :
  HomoeostasisLIFPopulation.s
    (exec (HomoeostasisLIFPopulation.forward [14]) sample_Homeo) !! 0%nat = Some 1.
Proof.
  destruct (Homeo_forward_elem sample_Homeo [14] sample_Homeo_wf eq_refl)
    as (s' & v' & r' & th' & cnt' & E & _ & _ & _ & _ & _ & _ & H).
  unfold exec. rewrite E. cbn [fst HomoeostasisLIFPopulation.s].
  specialize (H 0%nat (-65) 0 14 0 eq_refl eq_refl eq_refl eq_refl).
  unfold lif_neuron_step, neuron_step, lif_decay in H. cbn in H.
  replace (exp (- (1) / 100) * (-65 - -65) + -65) with (-65) in H by ring.
  rewrite (bool_decide_true (0 <= 0)) in H by lra.
  rewrite bool_decide_true in H by lra.
  by injection H as -> _ _.
Qed.

(** C2 on the sample [HomoeostasisLIFPopulation], which is not frozen, fed
    14: its neuron spikes and its [theta] grows by [theta_plus]. *)
Lemma C2_theta_update_witness :
  (HomoeostasisLIFPopulation_wf sample_Homeo /\
   length [14] = HomoeostasisLIFPopulation.neurons sample_Homeo /\
   HomoeostasisLIFPopulation.frozen_th sample_Homeo = false /\
   HomoeostasisLIFPopulation.theta sample_Homeo !! 0%nat = Some 0) /\
  length (HomoeostasisLIFPopulation.theta
            (exec (HomoeostasisLIFPopulation.forward [14]) sample_Homeo)) = 1%nat /\
  HomoeostasisLIFPopulation.theta
    (exec (HomoeostasisLIFPopulation.forward [14]) sample_Homeo) !! 0%nat
  = Some (0 + HomoeostasisLIFPopulation.theta_plus sample_Homeo).
Proof.
  pose proof (C2_theta_update sample_Homeo [14] sample_Homeo_wf eq_refl)
    as (_ & Lth & Hup & _).
  split.
  - exact (conj sample_Homeo_wf (conj eq_refl (conj eq_refl eq_refl))).
  - split; [exact Lth|].
    destruct (proj2 (Hup eq_refl) 0%nat 0 eq_refl) as [[_ H]|[H _]]; [exact H|].
    rewrite sample_Homeo_spike in H. injection H as H. lra.
Defined.

(** One step with [frozen_th = False]: the object stays well-shaped, its
    hyperparameters are untouched, and each entry of [theta] grows by
    [theta_plus] or by [exp(-(dt/tau_theta))]. *)
Lemma Homeo_theta_step st x :
  HomoeostasisLIFPopulation_wf st ->
  length x = HomoeostasisLIFPopulation.neurons st ->
  HomoeostasisLIFPopulation.frozen_th st = false ->
  let st' := exec (HomoeostasisLIFPopulation.forward x) st in
  let e := exp (- (HomoeostasisLIFPopulation.dt st
                   / HomoeostasisLIFPopulation.tau_theta st)) in
  HomoeostasisLIFPopulation_wf st' /\
  HomoeostasisLIFPopulation.neurons st' = HomoeostasisLIFPopulation.neurons st /\
  HomoeostasisLIFPopulation.dt st' = HomoeostasisLIFPopulation.dt st /\
  HomoeostasisLIFPopulation.tau_theta st' = HomoeostasisLIFPopulation.tau_theta st /\
  HomoeostasisLIFPopulation.theta_plus st' = HomoeostasisLIFPopulation.theta_plus st /\
  HomoeostasisLIFPopulation.frozen_th st' = false /\
  forall i thi,
    HomoeostasisLIFPopulation.theta st !! i = Some thi ->
    HomoeostasisLIFPopulation.theta st' !! i
      = Some (thi + HomoeostasisLIFPopulation.theta_plus st) \/
    HomoeostasisLIFPopulation.theta st' !! i = Some (thi + e).
Proof.
  intros Hwf Hx Hfrozen st' e.
  pose proof (Homeo_theta_update st x Hwf Hx) as [Hth _]. fold st' in Hth.
  destruct (Homeo_forward_elem st x Hwf Hx)
    as (s' & v' & r' & th' & cnt' & E & Hc & Lth & _ & Hspec).
  assert (Est' : st' = fst (HomoeostasisLIFPopulation.forward x st)) by reflexivity.
  rewrite E in Est'. cbn in Est'.
  destruct Hwf as (Lv & Lr & Ls & Ltheta & Hcnt).
  assert (Hbin : binary s').
  { eapply lif_step_spec_binary; [| | |exact Hspec]; lia. }
  destruct Hspec as (Ls' & Lv' & Lr' & _).
  split_and!; try (rewrite Est'; cbn; done).
  - rewrite Est'. unfold HomoeostasisLIFPopulation_wf. cbn. split_and!; try lia; done.
  - intros i thi Hthi.
    destruct (lookup_lt_is_Some_2 s' i) as [si Hsi].
    { apply lookup_lt_Some in Hthi. lia. }
    assert (Hsi' : HomoeostasisLIFPopulation.s st' !! i = Some si)
      by (rewrite Est'; exact Hsi).
    destruct (Hth i si thi Hsi' Hthi Hfrozen) as [H1 H0].
    apply (Forall_lookup_1 _ _ _ _ Hbin) in Hsi as [-> | ->].
    + right. apply H0. lra.
    + left. apply H1. reflexivity.
Qed.

(** Along a run with [frozen_th = False] and [theta_plus >= 0] no entry of
    [theta] decreases. *)
Lemma Homeo_theta_monotone xs :
  forall st,
    HomoeostasisLIFPopulation_wf st ->
    Forall (fun x => length x = HomoeostasisLIFPopulation.neurons st) xs ->
    HomoeostasisLIFPopulation.frozen_th st = false ->
    0 <= HomoeostasisLIFPopulation.theta_plus st ->
    forall i thi,
      HomoeostasisLIFPopulation.theta st !! i = Some thi ->
      exists thn,
        HomoeostasisLIFPopulation.theta
          (steps HomoeostasisLIFPopulation.forward xs st) !! i = Some thn /\
        thi <= thn.
Proof.
  induction xs as [|x xs IH]; intros st Hwf Hxs Hfrozen Hplus i thi Hthi.
  - exists thi. simpl. split; [done|lra].
  - apply Forall_cons in Hxs as [Hx Hxs].
    destruct (Homeo_theta_step st x Hwf Hx Hfrozen)
      as (Hwf' & En & Edt & Etau & Eplus & Hfrozen' & Hstep).
    pose proof (exp_pos (- (HomoeostasisLIFPopulation.dt st
                            / HomoeostasisLIFPopulation.tau_theta st))) as He.
    assert (exists th1,
               HomoeostasisLIFPopulation.theta
                 (exec (HomoeostasisLIFPopulation.forward x) st) !! i = Some th1
               /\ thi <= th1) as (th1 & Hth1 & Hle).
    { destruct (Hstep i thi Hthi) as [H|H]; eexists; (split; [exact H|]); lra. }
    destruct (IH _ Hwf') with (i := i) (thi := th1) as (thn & Hthn & Hlen); auto.
    + rewrite En. done.
    + rewrite Eplus. done.
    + exists thn. split; [exact Hthn|]. lra.
Qed.

(** C10 as stated fails on the binary32 buffers of the program.  A
    [HomoeostasisLIFPopulation(1)] with the default arguments whose [theta]
    has reached 2^24 = 16777216 is fed 3e7: its neuron spikes, and [theta]
    after the step is still 16777216, since 16777216 + 0.05 rounds to
    16777216 and the second update adds 0 * exp(...).  This holds whatever
    finite values the library's [exp] returns for [-dt/tau_rc] and
    [-(dt/tau_theta)]. *)
Lemma C10_counterexample :
  let st :=
    HomoeostasisLIFPopulation_f32.mk 1
      (f32.of_double 1 0)                       (* dt = 1. *)
      [f32.of_double (-65) 0]                   (* v *)
      (f32.of_double 100 0)                     (* tau_rc = 100. *)
      (f32.of_double (-52) 0)                   (* v_th = -52. *)
      [f32.zero]                                (* s *)
      (f32.of_double (-65) 0)                   (* rest = -65. *)
      [f32.zero]                                (* refrac *)
      (f32.of_double 5 0)                       (* tau_ref = 5. *)
      (f32.of_double (-52) 0)                   (* threshold *)
      (f32.of_double 0x1999999999999a (-57))    (* theta_plus = 0.05 *)
      [f32.of_double 16777216 0]                (* theta *)
      (f32.of_double 10000000 0)                (* tau_theta = 1e7 *)
      false true (Some [f32.zero]) in
  f32.lt f32.zero (HomoeostasisLIFPopulation_f32.dt st) = true /\
  f32.lt f32.zero (HomoeostasisLIFPopulation_f32.theta_plus st) = true /\
  f32.is_finite (HomoeostasisLIFPopulation_f32.tau_theta st) = true /\
  forall exp32 : float32 -> float32,
    f32.is_finite
      (exp32 (f32.div (f32.neg (HomoeostasisLIFPopulation_f32.dt st))
                (HomoeostasisLIFPopulation_f32.tau_rc st))) = true ->
    f32.is_finite
      (exp32 (f32.neg (f32.div (HomoeostasisLIFPopulation_f32.dt st)
                         (HomoeostasisLIFPopulation_f32.tau_theta st)))) = true ->
    let st' :=
      exec (HomoeostasisLIFPopulation_f32.forward exp32 [f32.of_double 30000000 0]) st in
    HomoeostasisLIFPopulation_f32.s st' = [f32.one] /\
    HomoeostasisLIFPopulation_f32.theta st' = HomoeostasisLIFPopulation_f32.theta st.
Proof.
  cbv zeta. split; [by vm_compute|]. split; [by vm_compute|]. split; [by vm_compute|].
  intros exp32.
  cbv -[f32.add f32.sub f32.mul f32.div f32.neg f32.le f32.ge f32.lt f32.gt
        SpecFloat.SFeqb f32.of_double f32.one f32.zero f32.is_finite].
  intros H1 H2.
  destruct (exp32 _) as [[|]| | |[|] ? ?] in H1 |- *; try discriminate H1; clear H1;
    destruct (exp32 _) as [[|]| | |[|] ? ?] in H2 |- *; try discriminate H2; clear H2;
    vm_compute; split_and!; reflexivity.
Qed.

(** C10, amended.  In a [HomoeostasisLIFPopulation] with
    [frozen_th = False], [theta_plus > 0] and [dt > 0], no entry of [theta]
    ever decreases, whether or not the neuron spikes: not in one [forward]
    call on an input of [neurons] entries, and not over any run of such
    calls.  (Each call adds [theta_plus] or [exp(-(dt/tau_theta))], as C2
    states, and neither is negative.) *)
Theorem C10_theta_never_decreases (st : HomoeostasisLIFPopulation.state) :
  HomoeostasisLIFPopulation_wf st ->
  HomoeostasisLIFPopulation.frozen_th st = false ->
  0 < HomoeostasisLIFPopulation.theta_plus st ->
  0 < HomoeostasisLIFPopulation.dt st ->
  forall i thi,
    HomoeostasisLIFPopulation.theta st !! i = Some thi ->
    (forall x,
        length x = HomoeostasisLIFPopulation.neurons st ->
        exists thi',
          HomoeostasisLIFPopulation.theta
            (exec (HomoeostasisLIFPopulation.forward x) st) !! i = Some thi' /\
          thi <= thi') /\
    (forall xs,
        Forall (fun x => length x = HomoeostasisLIFPopulation.neurons st) xs ->
        exists thn,
          HomoeostasisLIFPopulation.theta
            (steps HomoeostasisLIFPopulation.forward xs st) !! i = Some thn /\
          thi <= thn).
Proof.
  intros Hwf Hfrozen Hplus Hdt i thi Hthi.
  pose proof (exp_pos (- (HomoeostasisLIFPopulation.dt st
                          / HomoeostasisLIFPopulation.tau_theta st))) as He.
  split.
  - intros x Hx.
    destruct (Homeo_theta_step st x Hwf Hx Hfrozen) as (_ & _ & _ & _ & _ & _ & Hstep).
    destruct (Hstep i thi Hthi) as [H|H]; eexists; (split; [exact H|]); lra.
  - intros xs Hxs. apply Homeo_theta_monotone; auto. lra.
Qed.

(** C10 on the sample [HomoeostasisLIFPopulation]: a spiking step and a
    silent one. *)
Lemma C10_theta_never_decreases_witness :
  (HomoeostasisLIFPopulation_wf sample_Homeo /\
   HomoeostasisLIFPopulation.frozen_th sample_Homeo = false /\
   0 < HomoeostasisLIFPopulation.theta_plus sample_Homeo /\
   0 < HomoeostasisLIFPopulation.dt sample_Homeo /\
   HomoeostasisLIFPopulation.theta sample_Homeo !! 0%nat = Some 0 /\
   Forall (fun x : tensor => length x = HomoeostasisLIFPopulation.neurons sample_Homeo)
     [[14]; [0]]) /\
  exists th,
    HomoeostasisLIFPopulation.theta
      (steps HomoeostasisLIFPopulation.forward [[14]; [0]] sample_Homeo) !! 0%nat
    = Some th /\
    0 <= th.
Proof.
  assert (Hplus : 0 < HomoeostasisLIFPopulation.theta_plus sample_Homeo)
    by (cbn; lra).
  assert (Hdt : 0 < HomoeostasisLIFPopulation.dt sample_Homeo) by (cbn; lra).
  assert (Hxs : Forall
                  (fun x : tensor =>
                     length x = HomoeostasisLIFPopulation.neurons sample_Homeo)
                  [[14]; [0]]) by (repeat constructor).
  split.
  - exact (conj sample_Homeo_wf
             (conj eq_refl (conj Hplus (conj Hdt (conj eq_refl Hxs))))).
  - exact (proj2 (C10_theta_never_decreases sample_Homeo sample_Homeo_wf eq_refl Hplus
                    Hdt 0%nat 0 eq_refl) [[14]; [0]] Hxs).
Defined.

(** ** One step of any thresholded population *)

(** The five classes share one per-neuron step, [neuron_step], against the
    threshold of the neuron; the threshold of a neuron that did not spike
    does not decrease. *)
Lemma forward_of_elem p x :
  wf_of p -> length x = neurons_of p ->
  let p' := exec (forward_of x) p in
  wf_of p' /\ neurons_of p' = neurons_of p /\ dt_of p' = dt_of p /\
  rest_of p' = rest_of p /\ tau_ref_of p' = tau_ref_of p /\ decay_of p' = decay_of p /\
  forall i vi ri xi thi,
    v_of p !! i = Some vi -> refrac_of p !! i = Some ri -> x !! i = Some xi ->
    threshold_of p !! i = Some thi ->
    (s_of p' !! i, v_of p' !! i, refrac_of p' !! i) =
    (let '(a, b, c) :=
       neuron_step (decay_of p) (dt_of p) thi (rest_of p) (tau_ref_of p) vi ri xi in
     (Some a, Some b, Some c)) /\
    exists thi', threshold_of p' !! i = Some thi' /\
                 (s_of p' !! i = Some 0 -> thi <= thi').
Proof.
  intros Hwf Hx. destruct p as [st|st|st|st|st]; simpl in *.
  - destruct (IF_forward_elem st x Hwf Hx) as (s' & v' & r' & cnt' & E & Hc & L1 & L2 & L3 & H).
    unfold exec, forward_of, dispatch. rewrite E. 
    destruct Hwf as (Hv & Hr & Hs & Hcnt).
    unfold IFPopulation_wf. cbn.
    split_and!; try lia; try done.
    + destruct (IFPopulation.count_spike st); [split|]; tauto.
    + intros i vi ri xi thi Hvi Hri Hxi Hthi.
      apply lookup_replicate in Hthi as [-> Hi].
      split; [exact (H i vi ri xi Hvi Hri Hxi)|].
      eexists; split; [apply lookup_replicate; done|lra].
  - destruct (Homeo_forward_elem st x Hwf Hx)
      as (s' & v' & r' & th' & cnt' & E & Hc & Lth & Hth & L1 & L2 & L3 & H).
    unfold exec, forward_of, dispatch. rewrite E.
    destruct Hwf as (Hv & Hr & Hs & Htheta & Hcnt).
    unfold HomoeostasisLIFPopulation_wf. cbn.
    split_and!; try lia; try done.
    intros i vi ri xi thi Hvi Hri Hxi Hthi.
    rewrite list_lookup_fmap in Hthi.
    destruct (HomoeostasisLIFPopulation.theta st !! i) as [th|] eqn:Eth; [|done].
    injection Hthi as <-.
    split; [exact (H i vi ri xi th Hvi Hri Hxi Eth)|].
    destruct (lookup_in_range _ s' i vi Hvi) as [si Hsi]; [lia|].
    rewrite list_lookup_fmap, (Hth i si th Hsi Eth). simpl.
    eexists. split; [reflexivity|].
    intros Hz. rewrite Hsi in Hz. injection Hz as ->.
    destruct (HomoeostasisLIFPopulation.frozen_th st); [lra|].
    rewrite bool_decide_false by lra. rewrite bool_decide_true by lra. simpl.
    pose proof (exp_pos (- (HomoeostasisLIFPopulation.dt st
                            / HomoeostasisLIFPopulation.tau_theta st))).
    lra.
  - destruct (LIF2_forward_elem st x Hwf Hx)
      as (s' & v' & r' & cnt' & E & Hc & L1 & L2 & L3 & H).
    unfold exec, forward_of, dispatch. rewrite E.
    destruct Hwf as (Hv & Hr & Hs & Hcnt).
    unfold LIFPopulation2_wf. cbn.
    split_and!; try lia; try done.
    intros i vi ri xi thi Hvi Hri Hxi Hthi.
    apply lookup_replicate in Hthi as [-> Hi].
    split; [|eexists; split; [apply lookup_replicate; done|lra]].
    rewrite (H i vi ri xi 0 Hvi Hri Hxi) by (apply lookup_replicate; done).
    unfold lif_neuron_step. rewrite Rplus_0_r. reflexivity.
  - destruct (LIF_forward_elem st x Hwf Hx) as (s' & v' & r' & E & L1 & L2 & L3 & H).
    unfold exec, forward_of, dispatch. rewrite E.
    destruct Hwf as (Hv & Hr & Hs).
    unfold LIFPopulation_wf. cbn.
    split_and!; try lia; try done.
    intros i vi ri xi thi Hvi Hri Hxi Hthi.
    apply lookup_replicate in Hthi as [-> Hi].
    split; [|eexists; split; [apply lookup_replicate; done|lra]].
    rewrite (H i vi ri xi (LIFPopulation.theta st) Hvi Hri Hxi)
      by (apply lookup_replicate; done).
    reflexivity.
  - destruct (DC_forward_elem st x Hwf Hx)
      as (s' & v' & r' & tr' & E & Hc & L1 & L2 & L3 & H).
    unfold exec, forward_of, dispatch. rewrite E.
    destruct Hwf as (Hv & Hr & Hs & Ht & Htr & Htau & Hsc).
    unfold DiehlAndCookPopulation_wf. cbn.
    split_and!; try lia; try done.
    intros i vi ri xi thi Hvi Hri Hxi Hthi.
    apply lookup_replicate in Hthi as [-> Hi].
    split; [|eexists; split; [apply lookup_replicate; done|lra]].
    rewrite (H i vi ri xi (DiehlAndCookPopulation.theta st) Hvi Hri Hxi)
      by (apply lookup_replicate; done).
    reflexivity.
Qed.

Lemma wf_lengths p :
  wf_of p ->
  length (v_of p) = neurons_of p /\ length (refrac_of p) = neurons_of p /\
  length (s_of p) = neurons_of p /\ length (threshold_of p) = neurons_of p.
Proof.
  destruct p as [st|st|st|st|st]; simpl; intros H;
    [ destruct H as (?&?&?&?) | destruct H as (?&?&?&?&?) | destruct H as (?&?&?&?)
    | destruct H as (?&?&?) | destruct H as (?&?&?&?) ];
    rewrite ?length_fmap, ?length_replicate; auto.
Qed.

Lemma decay_of_rest p : decay_of p (rest_of p) = rest_of p.
Proof. destruct p; simpl; unfold lif_decay; try reflexivity; ring. Qed.

(** ** Refractory period *)



(** A neuron at rest whose counter is positive ignores the input of the
    step, does not spike, and has its counter reduced by [dt]. *)
Lemma at_rest_step p x i r :
  wf_of p -> length x = neurons_of p -> at_rest i p ->
  refrac_of p !! i = Some r -> 0 < r ->
  let p' := exec (forward_of x) p in
  at_rest i p' /\ s_of p' !! i = Some 0 /\ refrac_of p' !! i = Some (r - dt_of p).
Proof.
  intros Hwf Hx (Hv & th & Hth & Hlt) Hr Hpos p'.
  destruct (forward_of_elem p x Hwf Hx) as (Hwf' & Hn & Edt & Erest & Etau & Edecay & H).
  destruct (lookup_lt_is_Some_2 x i) as [xi Hxi].
  { apply lookup_lt_Some in Hv. destruct (wf_lengths p Hwf) as (? & _). lia. }
  destruct (H i _ _ xi th Hv Hr Hxi Hth) as (E & th' & Hth' & Hmono).
  fold p' in E, Hth', Hmono, Erest.
  unfold neuron_step in E.
  rewrite (bool_decide_false (r <= 0)) in E by lra.
  rewrite decay_of_rest in E. rewrite bool_decide_false in E by lra.
  injection E as Es Ev Er.
  unfold at_rest. rewrite Erest. split_and!; try done.
  exists th'. split; [done|]. specialize (Hmono Es). lra.
Qed.

(** The same over a run at the start of each step of which the counter is
    positive. *)
Lemma at_rest_steps i xs :
  forall p,
    wf_of p -> Forall (fun x => length x = neurons_of p) xs ->
    at_rest i p -> refractory_throughout i xs p ->
    let p' := steps forward_of xs p in
    wf_of p' /\ neurons_of p' = neurons_of p /\ rest_of p' = rest_of p /\
    at_rest i p' /\ spikes_emitted i xs p = 0%nat.
Proof.
  induction xs as [|x xs IH]; intros p Hwf Hxs Hrest Href; [by cbn|].
  apply Forall_cons in Hxs as [Hx Hxs]. destruct Href as [(r & Hr & Hpos) Href].
  destruct (forward_of_elem p x Hwf Hx) as (Hwf' & Hn & _ & Erest & _).
  destruct (at_rest_step p x i r Hwf Hx Hrest Hr Hpos) as (Hrest' & Hs & _).
  destruct (IH (exec (forward_of x) p)) as (W & N & Rs & Hr' & Hsp); auto.
  { by rewrite Hn. }
  cbv zeta. change (steps forward_of (x :: xs) p)
    with (steps forward_of xs (exec (forward_of x) p)).
  cbn [spikes_emitted]. rewrite Hs, Hsp.
  rewrite bool_decide_false by (intros [= E]; lra).
  split_and!; try done; congruence.
Qed.






(** The sample [IFPopulation] spikes on the input 1. *)
Lemma sample_IF_spike :
  IFPopulation.forward [1] sample_IF =
  (IFPopulation.mk 1 1 [0] 0.9 0 [2] 2 [1] (Some true) (Some [1]), inr ([1], [0])).
Proof.
  unfold sample_IF, IFPopulation.forward, IFPopulation.integrate, IFPopulation.fire.
  run_forward red_IF. eval_tensors. same_reals.
Qed.

(** The sample [IFPopulation] ([tau_ref = 2], [dt = 1]) after its spike on
    the input 1, then fed 5 and 7. *)
Lemma sample_IF_held_once :
  IFPopulation.forward [5]
    (IFPopulation.mk 1 1 [0] 0.9 0 [2] 2 [1] (Some true) (Some [1])) =
  (IFPopulation.mk 1 1 [0] 0.9 0 [1] 2 [0] (Some true) (Some [1]), inr ([0], [0])).
Proof.
  unfold IFPopulation.forward, IFPopulation.integrate, IFPopulation.fire.
  run_forward red_IF. eval_tensors. same_reals.
Qed.

Lemma sample_IF_held_twice :
  IFPopulation.forward [7]
    (IFPopulation.mk 1 1 [0] 0.9 0 [1] 2 [0] (Some true) (Some [1])) =
  (IFPopulation.mk 1 1 [0] 0.9 0 [0] 2 [0] (Some true) (Some [1]), inr ([0], [0])).
Proof.
  unfold IFPopulation.forward, IFPopulation.integrate, IFPopulation.fire.
  run_forward red_IF. eval_tensors. same_reals.
Qed.

Lemma sample_IF_run :
  exec (forward_of [1]) (IF sample_IF)
  = IF (IFPopulation.mk 1 1 [0] 0.9 0 [2] 2 [1] (Some true) (Some [1])) /\
  exec (forward_of [5]) (exec (forward_of [1]) (IF sample_IF))
  = IF (IFPopulation.mk 1 1 [0] 0.9 0 [1] 2 [0] (Some true) (Some [1])) /\
  steps forward_of [[5]; [7]] (exec (forward_of [1]) (IF sample_IF))
  = IF (IFPopulation.mk 1 1 [0] 0.9 0 [0] 2 [0] (Some true) (Some [1])).
Proof.
  unfold steps, exec, forward_of, dispatch. cbn [foldl].
  rewrite sample_IF_spike. cbn [fst snd].
  rewrite sample_IF_held_once. cbn [fst snd].
  rewrite sample_IF_held_twice. done.
Qed.



(** ** Inputs of another length *)

(** For each class: [forward] reads its input only through
    [(self.refrac <= 0).float() * x], and raises at that statement when the
    input has neither [neurons] entries nor one. *)
Lemma IF_forward_cong st x y :
  torch.mul (torch.float (torch.le_scalar (IFPopulation.refrac st) 0)) x =
  torch.mul (torch.float (torch.le_scalar (IFPopulation.refrac st) 0)) y ->
  IFPopulation.forward x st = IFPopulation.forward y st.
Proof.
  intros H. destruct st. simpl in H.
  unfold IFPopulation.forward, IFPopulation.integrate, IFPopulation.fire.
  unfold_monad. red_IF. rewrite H. reflexivity.
Qed.

Lemma IF_forward_mismatch st x :
  IFPopulation_wf st -> length x <> IFPopulation.neurons st -> length x <> 1%nat ->
  IFPopulation.forward x st = (st, inl RuntimeError).
Proof.
  intros (Hv & Hr & _) Hx H1. destruct st as [n dt v v_th rest refrac tau_ref s c cnt].
  simpl in *.
  assert (H := mul_iadd_mismatch (torch.float (torch.le_scalar refrac 0)) x v).
  unfold IFPopulation.forward, IFPopulation.integrate, IFPopulation.fire.
  unfold_monad. red_IF.
  destruct (torch.mul _ x) as [e|t]; specialize (H ltac:(len) ltac:(lia) H1).
  - injection H as ->. reflexivity.
  - rewrite H. reflexivity.
Qed.

Lemma LIF_forward_cong st x y :
  torch.mul (torch.float (torch.le_scalar (LIFPopulation.refrac st) 0)) x =
  torch.mul (torch.float (torch.le_scalar (LIFPopulation.refrac st) 0)) y ->
  LIFPopulation.forward x st = LIFPopulation.forward y st.
Proof.
  intros H. destruct st. simpl in H.
  unfold LIFPopulation.forward. unfold_monad. red_LIF. rewrite H. reflexivity.
Qed.

Lemma LIF_forward_mismatch st x :
  LIFPopulation_wf st -> length x <> LIFPopulation.neurons st -> length x <> 1%nat ->
  LIFPopulation.forward x st =
  (LIFPopulation.set_v
     (lif_decay (LIFPopulation.dt st) (LIFPopulation.tau_rc st) (LIFPopulation.rest st)
        <$> LIFPopulation.v st) st,
   inl RuntimeError).
Proof.
  intros (Hv & Hr & _) Hx H1.
  destruct st as [n dt v tau_rc v_th theta s rest refrac tau_ref]. simpl in *.
  assert (H := mul_iadd_mismatch (torch.float (torch.le_scalar refrac 0)) x
                 (lif_decay dt tau_rc rest <$> v)).
  unfold LIFPopulation.forward. unfold_monad_keep_copy. red_LIF. rewrite copy_decay. red_LIF.
  destruct (torch.mul _ x) as [e|t]; specialize (H ltac:(len) ltac:(len) H1).
  - injection H as ->. reflexivity.
  - rewrite H. reflexivity.
Qed.

Lemma LIF2_forward_cong st x y :
  torch.mul (torch.float (torch.le_scalar (LIFPopulation2.refrac st) 0)) x =
  torch.mul (torch.float (torch.le_scalar (LIFPopulation2.refrac st) 0)) y ->
  LIFPopulation2.forward x st = LIFPopulation2.forward y st.
Proof.
  intros H. destruct st. simpl in H.
  unfold LIFPopulation2.forward. unfold_monad. red_LIF2. rewrite H. reflexivity.
Qed.

Lemma LIF2_forward_mismatch st x :
  LIFPopulation2_wf st -> length x <> LIFPopulation2.neurons st -> length x <> 1%nat ->
  LIFPopulation2.forward x st =
  (LIFPopulation2.set_v
     (lif_decay (LIFPopulation2.dt st) (LIFPopulation2.tau_rc st)
        (LIFPopulation2.rest st) <$> LIFPopulation2.v st) st,
   inl RuntimeError).
Proof.
  intros (Hv & Hr & _) Hx H1.
  destruct st as [n dt v tau_rc v_th s rest refrac tau_ref cnt]. simpl in *.
  assert (H := mul_iadd_mismatch (torch.float (torch.le_scalar refrac 0)) x
                 (lif_decay dt tau_rc rest <$> v)).
  unfold LIFPopulation2.forward. unfold_monad_keep_copy. red_LIF2. rewrite copy_decay. red_LIF2.
  destruct (torch.mul _ x) as [e|t]; specialize (H ltac:(len) ltac:(len) H1).
  - injection H as ->. reflexivity.
  - rewrite H. reflexivity.
Qed.

Lemma Homeo_forward_cong st x y :
  torch.mul (torch.float (torch.le_scalar (HomoeostasisLIFPopulation.refrac st) 0)) x =
  torch.mul (torch.float (torch.le_scalar (HomoeostasisLIFPopulation.refrac st) 0)) y ->
  HomoeostasisLIFPopulation.forward x st = HomoeostasisLIFPopulation.forward y st.
Proof.
  intros H. destruct st. simpl in H.
  unfold HomoeostasisLIFPopulation.forward. unfold_monad. red_Homeo. rewrite H.
  reflexivity.
Qed.

Lemma Homeo_forward_mismatch st x :
  HomoeostasisLIFPopulation_wf st ->
  length x <> HomoeostasisLIFPopulation.neurons st -> length x <> 1%nat ->
  HomoeostasisLIFPopulation.forward x st =
  (HomoeostasisLIFPopulation.set_v
     (lif_decay (HomoeostasisLIFPopulation.dt st) (HomoeostasisLIFPopulation.tau_rc st)
        (HomoeostasisLIFPopulation.rest st) <$> HomoeostasisLIFPopulation.v st) st,
   inl RuntimeError).
Proof.
  intros (Hv & Hr & _) Hx H1.
  destruct st as [n dt v tau_rc v_th s rest refrac tau_ref threshold theta_plus theta
                    tau_theta frozen count cnt].
  simpl in *.
  assert (H := mul_iadd_mismatch (torch.float (torch.le_scalar refrac 0)) x
                 (lif_decay dt tau_rc rest <$> v)).
  unfold HomoeostasisLIFPopulation.forward. unfold_monad_keep_copy. red_Homeo.
  rewrite copy_decay. red_Homeo.
  destruct (torch.mul _ x) as [e|t]; specialize (H ltac:(len) ltac:(len) H1).
  - injection H as ->. reflexivity.
  - rewrite H. reflexivity.
Qed.

Lemma DC_forward_cong st x y :
  torch.mul (torch.float (torch.le_scalar (DiehlAndCookPopulation.refrac st) 0)) x =
  torch.mul (torch.float (torch.le_scalar (DiehlAndCookPopulation.refrac st) 0)) y ->
  DiehlAndCookPopulation.forward x st = DiehlAndCookPopulation.forward y st.
Proof.
  intros H. destruct st. simpl in H.
  unfold DiehlAndCookPopulation.forward. unfold_monad. red_DC. rewrite H. reflexivity.
Qed.

Lemma DC_forward_mismatch st x :
  DiehlAndCookPopulation_wf st ->
  length x <> DiehlAndCookPopulation.neurons st -> length x <> 1%nat ->
  DiehlAndCookPopulation.forward x st =
  (DiehlAndCookPopulation.set_v
     (lif_decay (DiehlAndCookPopulation.dt st) (DiehlAndCookPopulation.tau_rc st)
        (DiehlAndCookPopulation.rest st) <$> DiehlAndCookPopulation.v st) st,
   inl RuntimeError).
Proof.
  intros (Hv & Hr & _) Hx H1.
  destruct st as [n traces dt v tau_rc v_th theta s rest refrac tau_ref x' tau_tr scale_tr].
  simpl in *.
  assert (H := mul_iadd_mismatch (torch.float (torch.le_scalar refrac 0)) x
                 (lif_decay dt tau_rc rest <$> v)).
  unfold DiehlAndCookPopulation.forward. unfold_monad_keep_copy. red_DC.
  rewrite copy_decay. red_DC.
  destruct (torch.mul _ x) as [e|t]; specialize (H ltac:(len) ltac:(len) H1).
  - injection H as ->. reflexivity.
  - rewrite H. reflexivity.
Qed.

Lemma forward_of_broadcast p c :
  wf_of p -> forward_of [c] p = forward_of (replicate (neurons_of p) c) p.
Proof.
  intros Hwf. destruct (wf_lengths p Hwf) as (_ & Lr & _).
  destruct p as [st|st|st|st|st]; simpl in *; unfold dispatch;
    [ rewrite (IF_forward_cong st [c] (replicate (IFPopulation.neurons st) c))
    | rewrite (Homeo_forward_cong st [c]
                 (replicate (HomoeostasisLIFPopulation.neurons st) c))
    | rewrite (LIF2_forward_cong st [c] (replicate (LIFPopulation2.neurons st) c))
    | rewrite (LIF_forward_cong st [c] (replicate (LIFPopulation.neurons st) c))
    | rewrite (DC_forward_cong st [c]
                 (replicate (DiehlAndCookPopulation.neurons st) c)) ];
    try reflexivity;
    rewrite mul_singleton; do 2 f_equal; len.
Qed.

Lemma forward_of_mismatch p x :
  wf_of p -> length x <> neurons_of p -> length x <> 1%nat ->
  forward_of x p = (decayed p, inl RuntimeError).
Proof.
  intros Hwf Hx H1.
  destruct p as [st|st|st|st|st]; simpl in *; unfold dispatch;
    [ rewrite IF_forward_mismatch | rewrite Homeo_forward_mismatch
    | rewrite LIF2_forward_mismatch | rewrite LIF_forward_mismatch
    | rewrite DC_forward_mismatch ]; auto.
Qed.

Lemma Input_forward_ok st x_in :
  InputPopulation_wf st -> length x_in = InputPopulation.neurons st ->
  exists tr' cnt',
    InputPopulation.forward x_in st =
    (InputPopulation.mk (InputPopulation.neurons st) (InputPopulation.traces st)
       (InputPopulation.count_spike st) (InputPopulation.dt st) x_in (Some tr')
       (InputPopulation.tau_tr st) (InputPopulation.scale_tr st) cnt',
     inr x_in) /\
    length tr' = InputPopulation.neurons st /\
    (if InputPopulation.count_spike st
     then has_length (InputPopulation.neurons st) cnt'
     else cnt' = None).
Proof.
  intros (Hs & Ht & Hx & [tau Htau] & [sc Hsc] & Hc) Hin.
  destruct st as [n traces count dt s x tau_tr scale_tr cnt]. simpl in *. subst.
  destruct x as [tr|]; [|done]. simpl in Hx.
  unfold InputPopulation.forward.
  (destruct count; [destruct cnt as [cnt|]; [|done] | subst cnt]); simpl in *;
    run_forward red_Input; rewrite copy_same_length by lia;
    (eexists _, _; split; [reflexivity|]); split; len.
Qed.

Lemma Input_forward_broadcast st c :
  InputPopulation_wf st ->
  InputPopulation.forward [c] st =
  InputPopulation.forward (replicate (InputPopulation.neurons st) c) st.
Proof.
  intros (Hs & _). destruct st as [n traces count dt s x tau_tr scale_tr cnt].
  simpl in *.
  assert (H : torch.copy_ s [c] = torch.copy_ s (replicate n c)).
  { unfold torch.copy_, torch.inplace. rewrite length_replicate.
    rewrite (decide_True (P := n = length s)) by done.
    rewrite zip_with_replicate_r_eq by done.
    case_decide as H1; simpl in H1.
    - destruct s as [|a [|? ?]]; simpl in H1; try lia. reflexivity.
    - reflexivity. }
  unfold InputPopulation.forward.
  unfold mbind, M_bind, get, put, lift, getattr, mret, M_ret. red_Input.
  rewrite H. reflexivity.
Qed.

Lemma Input_forward_mismatch st x_in :
  InputPopulation_wf st -> length x_in <> InputPopulation.neurons st ->
  length x_in <> 1%nat ->
  InputPopulation.forward x_in st = (st, inl RuntimeError).
Proof.
  intros (Hs & _) Hin H1. destruct st as [n traces count dt s x tau_tr scale_tr cnt].
  simpl in *.
  assert (H : torch.copy_ s x_in = inl RuntimeError).
  { unfold torch.copy_, torch.inplace. rewrite decide_False by lia.
    destruct x_in as [|a [|b x_in]]; simpl in *; try lia; reflexivity. }
  unfold InputPopulation.forward.
  unfold mbind, M_bind, get, put, lift, getattr, mret, M_ret. red_Input.
  rewrite H. reflexivity.
Qed.

(** C7 does not hold as stated.  An [InputPopulation] of two neurons fed a
    vector of one entry raises nothing: the entry is broadcast to both
    neurons. *)
Lemma C7_counterexample :
  simulate (InputPopulation.__init__ 2 1 true 20 1 false) InputPopulation.forward
    [[1]] = inr [inr [1; 1]].
Proof.
  unfold simulate, InputPopulation.__init__, InputPopulation.reset.
  unfold mbind, M_bind, get, put, lift, getattr, mret, M_ret. cbn.
  unfold result. rewrite Input_forward_broadcast.
  2:{ unfold InputPopulation_wf. cbn. split_and!; eauto. }
  cbn [InputPopulation.neurons replicate].
  unfold InputPopulation.forward. run_forward red_Input. reflexivity.
Qed.

(** C7, amended.  For every population, [forward] on an input whose
    length is neither [neurons] nor 1 raises the shape error of the tensor
    library ([RuntimeError]) at the first statement that combines the input
    with a buffer.  Nothing is updated from that input: [InputPopulation]
    and [IFPopulation] are left as they were, and a leaky population has
    only decayed [v] toward [rest], which its first statement does before
    the input is read.  An input of one entry is accepted and behaves as
    that entry repeated [neurons] times. *)
Theorem C7_wrong_length_input :
  (forall st x,
      InputPopulation_wf st ->
      length x <> InputPopulation.neurons st -> length x <> 1%nat ->
      InputPopulation.forward x st = (st, inl RuntimeError)) /\
  (forall p x,
      wf_of p -> length x <> neurons_of p -> length x <> 1%nat ->
      forward_of x p = (decayed p, inl RuntimeError)) /\
  (forall st c,
      InputPopulation_wf st ->
      InputPopulation.forward [c] st =
      InputPopulation.forward (replicate (InputPopulation.neurons st) c) st) /\
  (forall p c,
      wf_of p -> forward_of [c] p = forward_of (replicate (neurons_of p) c) p).
Proof.
  split_and!.
  - apply Input_forward_mismatch.
  - apply forward_of_mismatch.
  - apply Input_forward_broadcast.
  - apply forward_of_broadcast.
Qed.

(** C7 on the sample [InputPopulation] (two neurons, three inputs) and
    [LIFPopulation] (one neuron, two inputs). *)
Lemma C7_wrong_length_input_witness :
  (InputPopulation_wf sample_Input /\
   length [1; 2; 3] <> InputPopulation.neurons sample_Input /\
   length [1; 2; 3] <> 1%nat /\
   wf_of (LIF sample_LIF) /\ length [1; 2] <> neurons_of (LIF sample_LIF) /\
   length [1; 2] <> 1%nat) /\
  InputPopulation.forward [1; 2; 3] sample_Input = (sample_Input, inl RuntimeError) /\
  forward_of [1; 2] (LIF sample_LIF) = (decayed (LIF sample_LIF), inl RuntimeError).
Proof.
  destruct C7_wrong_length_input as (H1 & H2 & _).
  assert (N1 : length [1; 2; 3] <> InputPopulation.neurons sample_Input)
    by (cbn; lia).
  assert (N2 : length [1; 2; 3] <> 1%nat) by (cbn; lia).
  assert (N3 : length [1; 2] <> neurons_of (LIF sample_LIF)) by (cbn; lia).
  assert (N4 : length [1; 2] <> 1%nat) by (cbn; lia).
  split.
  - exact (conj sample_Input_wf (conj N1 (conj N2 (conj sample_LIF_wf (conj N3 N4))))).
  - split.
    + exact (H1 sample_Input [1; 2; 3] sample_Input_wf N1 N2).
    + exact (H2 (LIF sample_LIF) [1; 2] sample_LIF_wf N3 N4).
Defined.

(** ** Spike vectors *)

(** After an accepted call the spike vector is binary. *)
Lemma step_binary p x :
  wf_of p -> length x = neurons_of p -> binary (s_of (exec (forward_of x) p)).
Proof.
  intros Hwf Hx.
  destruct (forward_of_elem p x Hwf Hx) as (Hwf' & Hn & _ & _ & _ & _ & H).
  destruct (wf_lengths _ Hwf) as (Lv & Lr & Ls & Lt).
  destruct (wf_lengths _ Hwf') as (_ & _ & Ls' & _).
  apply Forall_lookup. intros i a Ha.
  assert (Hi : (i < neurons_of p)%nat) by (apply lookup_lt_Some in Ha; lia).
  destruct (lookup_lt_is_Some_2 (v_of p) i) as [vi Hvi]; [lia|].
  destruct (lookup_lt_is_Some_2 (refrac_of p) i) as [ri Hri]; [lia|].
  destruct (lookup_lt_is_Some_2 x i) as [xi Hxi]; [lia|].
  destruct (lookup_lt_is_Some_2 (threshold_of p) i) as [thi Hthi]; [lia|].
  destruct (H i vi ri xi thi Hvi Hri Hxi Hthi) as (E & _).
  unfold neuron_step in E. rewrite Ha in E.
  destruct (bool_decide (_ >= thi)); injection E as -> _ _; auto.
Qed.

Lemma accepted_step_binary p x :
  wf_of p -> length x = neurons_of p \/ length x = 1%nat ->
  binary (s_of (exec (forward_of x) p)).
Proof.
  intros Hwf [Hx|Hx]; [by apply step_binary|].
  destruct x as [|c [|? ?]]; simpl in Hx; try lia.
  unfold exec. rewrite forward_of_broadcast by done.
  apply step_binary; [done|]. by rewrite length_replicate.
Qed.

Lemma s_of_decayed p : s_of (decayed p) = s_of p.
Proof. by destruct p as [st|st|st|st|st]; destruct st. Qed.

Lemma any_step_binary p x :
  wf_of p -> binary (s_of p) -> binary (s_of (exec (forward_of x) p)).
Proof.
  intros Hwf Hb.
  destruct (decide (length x = neurons_of p)) as [Hx|Hx].
  { apply accepted_step_binary; auto. }
  destruct (decide (length x = 1%nat)) as [H1|H1].
  { apply accepted_step_binary; auto. }
  unfold exec. rewrite forward_of_mismatch by done. simpl. by rewrite s_of_decayed.
Qed.

(** C6 does not hold as stated.  An [InputPopulation] of one neuron fed
    the value 0.5 stores and returns 0.5 as its spike state. *)
Lemma C6_counterexample :
  simulate (InputPopulation.__init__ 1 1 true 20 1 false) InputPopulation.forward
    [[0.5]] = inr [inr [0.5]] /\
  ~ binary [0.5].
Proof.
  split.
  - unfold simulate, InputPopulation.__init__, InputPopulation.reset.
    unfold mbind, M_bind, get, put, lift, getattr, mret, M_ret. cbn.
    unfold result, InputPopulation.forward. run_forward red_Input. reflexivity.
  - intros H. apply Forall_cons in H as [[H|H] _]; lra.
Qed.

(** C6, amended.  For every thresholded population, every entry of [s] is
    0 or 1 after a [forward] call that accepts its input (of [neurons]
    entries, or of one entry, which is broadcast), and stays 0 or 1 across
    any call at all.  [InputPopulation] copies its input into [s] and
    returns it, so its [s] is binary exactly when the input is. *)
Theorem C6_spikes_binary_when_thresholded :
  (forall p x,
      wf_of p -> length x = neurons_of p \/ length x = 1%nat ->
      binary (s_of (exec (forward_of x) p))) /\
  (forall p x,
      wf_of p -> binary (s_of p) -> binary (s_of (exec (forward_of x) p))) /\
  (forall st x,
      InputPopulation_wf st -> length x = InputPopulation.neurons st ->
      InputPopulation.s (exec (InputPopulation.forward x) st) = x /\
      result (InputPopulation.forward x) st = inr x).
Proof.
  split_and!.
  - apply accepted_step_binary.
  - apply any_step_binary.
  - intros st x Hwf Hx.
    destruct (Input_forward_ok st x Hwf Hx) as (tr' & cnt' & E & _).
    unfold exec, result. rewrite E. done.
Qed.

(** C6 on the sample [IFPopulation] and [InputPopulation]. *)
Lemma C6_spikes_binary_when_thresholded_witness :
  (wf_of (IF sample_IF) /\ length [1] = neurons_of (IF sample_IF) /\
   InputPopulation_wf sample_Input /\
   length [0.5; 1] = InputPopulation.neurons sample_Input) /\
  binary (s_of (exec (forward_of [1]) (IF sample_IF))) /\
  InputPopulation.s (exec (InputPopulation.forward [0.5; 1]) sample_Input) = [0.5; 1].
Proof.
  destruct C6_spikes_binary_when_thresholded as (H1 & _ & H3).
  split.
  - exact (conj sample_IF_wf (conj eq_refl (conj sample_Input_wf eq_refl))).
  - split.
    + exact (H1 (IF sample_IF) [1] sample_IF_wf (or_introl eq_refl)).
    + exact (proj1 (H3 sample_Input [0.5; 1] sample_Input_wf eq_refl)).
Defined.

(** ** LIFPopulation and DiehlAndCookPopulation side by side *)

(** One call on two objects in agreement: same outcome, and the objects
    stay in agreement. *)
Lemma same_dynamics_step a b x :
  same_dynamics a b ->
  result (LIFPopulation.forward x) a = result (DiehlAndCookPopulation.forward x) b /\
  same_dynamics (exec (LIFPopulation.forward x) a)
    (exec (DiehlAndCookPopulation.forward x) b).
Proof.
  intros (En & Edt & Ev & Erc & Eth & Etheta & Es & Erest & Er & Eref & Etr & Hx & Htau & Hsc).
  destruct a as [n dt v tau_rc v_th theta s rest refrac tau_ref].
  destruct b as [n' tr' dt' v' tau_rc' v_th' theta' s' rest' refrac' tau_ref' x' tau_tr scale_tr].
  simpl in *. subst. destruct x' as [tr|]; [|done]. simpl in Hx.
  destruct Htau as [tau ->]. destruct Hsc as [sc ->].
  unfold result, exec, same_dynamics, LIFPopulation.forward, DiehlAndCookPopulation.forward.
  unfold mbind, M_bind, get, put, lift, getattr, mret, M_ret,
    torch.copy_, torch.mul, torch.ge, torch.iadd, torch.masked_fill_.
  repeat (red_LIF; red_DC;
          first [ rewrite (inplace_same Rplus (torch.imul_scalar tr _)) by len
                | next_op ]);
    red_LIF; red_DC; cbn; split_and!; eauto; try lia.
  len.
Qed.

Lemma same_dynamics_outputs xs :
  forall a b,
    same_dynamics a b ->
    outputs LIFPopulation.forward xs a = outputs DiehlAndCookPopulation.forward xs b.
Proof.
  induction xs as [|x xs IH]; intros a b Hab; simpl; [done|].
  destruct (same_dynamics_step a b x Hab) as [-> Hab']. f_equal. by apply IH.
Qed.

Lemma same_dynamics_init n dt tau_rc v_th theta rest tau_ref tau_tr scale_tr :
  exists a b,
    LIFPopulation.__init__ n dt tau_rc v_th theta rest tau_ref = inr a /\
    DiehlAndCookPopulation.__init__ n dt tau_rc v_th theta rest tau_ref true tau_tr
      scale_tr = inr b /\
    same_dynamics a b.
Proof.
  eexists _, _. split; [reflexivity|].
  unfold DiehlAndCookPopulation.__init__, DiehlAndCookPopulation.reset.
  unfold mbind, M_bind, get, put, lift, getattr, mret, M_ret. cbn.
  split; [reflexivity|].
  unfold same_dynamics, torch.fill_, torch.zeros. cbn.
  rewrite !length_fmap, !length_replicate. split_and!; eauto.
Qed.

Lemma sample_dynamics : same_dynamics sample_LIF sample_DC.
Proof. unfold same_dynamics. cbn. split_and!; eauto. Qed.

(** C9.  A [LIFPopulation] and a [DiehlAndCookPopulation] that agree on
    their shared attributes produce the same outcome, call by call, on
    every sequence of inputs: the same [(s, v)] when the call returns and
    the same exception when it raises.  In particular this holds for two
    objects constructed with the same shared hyperparameters, whatever the
    trace parameters of the second. *)
Theorem C9_diehl_cook_matches_lif :
  (forall a b xs,
      same_dynamics a b ->
      outputs LIFPopulation.forward xs a = outputs DiehlAndCookPopulation.forward xs b) /\
  (forall n dt tau_rc v_th theta rest tau_ref tau_tr scale_tr xs,
      simulate (LIFPopulation.__init__ n dt tau_rc v_th theta rest tau_ref)
        LIFPopulation.forward xs =
      simulate (DiehlAndCookPopulation.__init__ n dt tau_rc v_th theta rest tau_ref
                  true tau_tr scale_tr)
        DiehlAndCookPopulation.forward xs).
Proof.
  split.
  - intros a b xs Hab. by apply same_dynamics_outputs.
  - intros n dt tau_rc v_th theta rest tau_ref tau_tr scale_tr xs.
    destruct (same_dynamics_init n dt tau_rc v_th theta rest tau_ref tau_tr scale_tr)
      as (a & b & -> & -> & Hab).
    simpl. f_equal. by apply same_dynamics_outputs.
Qed.

(** C9 on the sample [LIFPopulation] and [DiehlAndCookPopulation]. *)
Lemma C9_diehl_cook_matches_lif_witness :
  same_dynamics sample_LIF sample_DC /\
  outputs LIFPopulation.forward [[14]; [0]; [3]] sample_LIF =
  outputs DiehlAndCookPopulation.forward [[14]; [0]; [3]] sample_DC.
Proof.
  split; [exact sample_dynamics|].
  exact (proj1 C9_diehl_cook_matches_lif sample_LIF sample_DC [[14]; [0]; [3]]
           sample_dynamics).
Defined.

(** ** The single-neuron scenario *)

(** The steps of the scenario: the object is back to [v = 0], [refrac = 0]
    after each step. *)
Lemma scenario_integrate s c cnt :
  IFPopulation.integrate [1] (IFPopulation.mk 1 1 [0] 0.9 0 [0] 0 s c cnt) =
  (IFPopulation.mk 1 1 [1] 0.9 0 [0] 0 s c cnt, inr tt).
Proof.
  unfold IFPopulation.integrate. run_forward red_IF. eval_tensors. same_reals.
Qed.

Lemma scenario_step_counting s k :
  IFPopulation.forward [1]
    (IFPopulation.mk 1 1 [0] 0.9 0 [0] 0 [s] (Some true) (Some [k])) =
  (IFPopulation.mk 1 1 [0] 0.9 0 [0] 0 [1] (Some true) (Some [k + 1]), inr ([1], [0])).
Proof.
  unfold IFPopulation.forward, IFPopulation.integrate, IFPopulation.fire.
  run_forward red_IF. eval_tensors. same_reals.
Qed.

Lemma scenario_step_default s :
  IFPopulation.forward [1] (IFPopulation.mk 1 1 [0] 0.9 0 [0] 0 [s] None None) =
  (IFPopulation.mk 1 1 [0] 0.9 0 [0] 0 [1] None None, inl AttributeError).
Proof.
  unfold IFPopulation.forward, IFPopulation.integrate, IFPopulation.fire.
  run_forward red_IF. eval_tensors. same_reals.
Qed.

Lemma scenario_init c :
  IFPopulation.__init__ 1 1 0.9 0 0 c =
  inr (IFPopulation.mk 1 1 [0] 0.9 0 [0] 0 [0]
         (if c then Some true else None) (if c then Some [0] else None)).
Proof. by destruct c. Qed.

(** The three calls of the scenario, without and with spike counting. *)
Lemma scenario_outputs_default :
  simulate (IFPopulation.__init__ 1 1 0.9 0 0 false) IFPopulation.forward
    [[1]; [1]; [1]]
  = inr [inl AttributeError; inl AttributeError; inl AttributeError].
Proof.
  rewrite scenario_init. unfold simulate, outputs, result, exec.
  rewrite !scenario_step_default. cbn [fst snd].
  rewrite !scenario_step_default. cbn [fst snd].
  rewrite !scenario_step_default. cbn [fst snd].
  done.
Qed.

Lemma scenario_outputs_counting :
  simulate (IFPopulation.__init__ 1 1 0.9 0 0 true) IFPopulation.forward
    [[1]; [1]; [1]]
  = inr [inr ([1], [0]); inr ([1], [0]); inr ([1], [0])].
Proof.
  rewrite scenario_init. unfold simulate, outputs, result, exec.
  rewrite !scenario_step_counting. cbn [fst snd].
  rewrite !scenario_step_counting. cbn [fst snd].
  rewrite !scenario_step_counting. cbn [fst snd].
  done.
Qed.

(** C5 does not hold as stated.  With the constructor call of the
    scenario, [count_spike] is never assigned and each [forward] call
    raises when it reads it; with counting enabled the three calls return,
    and the spike values are 1, 1, 1.  Either way the calls do not return
    the spikes 0, 1, 1. *)
Lemma C5_counterexample :
  simulate (IFPopulation.__init__ 1 1 0.9 0 0 false) IFPopulation.forward
    [[1]; [1]; [1]]
  = inr [inl AttributeError; inl AttributeError; inl AttributeError] /\
  simulate (IFPopulation.__init__ 1 1 0.9 0 0 true) IFPopulation.forward
    [[1]; [1]; [1]]
  = inr [inr ([1], [0]); inr ([1], [0]); inr ([1], [0])] /\
  forall count_spike,
    ~ exists v1 v2 v3,
        simulate (IFPopulation.__init__ 1 1 0.9 0 0 count_spike) IFPopulation.forward
          [[1]; [1]; [1]]
        = inr [inr ([0], v1); inr ([1], v2); inr ([1], v3)].
Proof.
  split; [exact scenario_outputs_default|].
  split; [exact scenario_outputs_counting|].
  intros [|] (v1 & v2 & v3 & H).
  - rewrite scenario_outputs_counting in H. injection H as H _. lra.
  - rewrite scenario_outputs_default in H. discriminate.
Qed.

(** C5, amended.  For [IFPopulation(1, v_th=0.9, rest=0, tau_ref=0,
    count_spike=True)] with [dt = 1], feeding 1, 1, 1 returns the spikes
    1, 1, 1 with [v = 0] after the reset of each step, and the potential
    right before each threshold test is 1, 1, 1. *)
Theorem C5_if_scenario :
  simulate (IFPopulation.__init__ 1 1 0.9 0 0 true) IFPopulation.forward
    [[1]; [1]; [1]]
  = inr [inr ([1], [0]); inr ([1], [0]); inr ([1], [0])] /\
  exists st0,
    IFPopulation.__init__ 1 1 0.9 0 0 true = inr st0 /\
    potentials_before_check [[1]; [1]; [1]] st0 = [[1]; [1]; [1]].
Proof.
  split; [exact scenario_outputs_counting|].
  rewrite scenario_init. eexists. split; [reflexivity|].
  unfold potentials_before_check, exec.
  rewrite !scenario_integrate, !scenario_step_counting. cbn [fst snd IFPopulation.v].
  rewrite !scenario_integrate, !scenario_step_counting. cbn [fst snd IFPopulation.v].
  rewrite !scenario_integrate. cbn [fst snd IFPopulation.v].
  done.
Qed.

(** ** Calls in any order *)

(** [reset] on a population of constructed shape returns normally and
    rewrites [v] only (and the counter, where the class clears it). *)
Lemma reset_of_spec p :
  wf_of p ->
  let p' := exec reset_of p in
  result reset_of p = inr tt /\
  wf_of p' /\ neurons_of p' = neurons_of p /\ dt_of p' = dt_of p /\
  rest_of p' = rest_of p /\ tau_ref_of p' = tau_ref_of p /\ decay_of p' = decay_of p /\
  v_of p' = replicate (neurons_of p) (rest_of p) /\
  refrac_of p' = refrac_of p /\ s_of p' = s_of p /\ threshold_of p' = threshold_of p.
Proof.
  intros Hwf. destruct p as [st|st|st|st|st]; cbv zeta;
    unfold exec, result, reset_of, dispatch.
  - rewrite (IF_reset st Hwf). destruct Hwf as (Hv & Hr & Hs & Hc).
    cbn. unfold IFPopulation_wf. cbn. rewrite length_replicate. split_and!; auto.
  - rewrite (Homeo_reset st Hwf). destruct Hwf as (Hv & Hr & Hs & Hth & Hc).
    destruct (HomoeostasisLIFPopulation.count_spike st) eqn:Ec; cbn;
      unfold HomoeostasisLIFPopulation_wf, torch.zeros; cbn;
      rewrite ?Ec, ?length_replicate; cbn; rewrite ?length_replicate;
      split_and!; auto.
  - rewrite (LIF2_reset st Hwf). destruct Hwf as (Hv & Hr & Hs & Hc).
    cbn. unfold LIFPopulation2_wf, torch.zeros. cbn. rewrite !length_replicate.
    split_and!; auto.
  - rewrite (LIF_reset st Hwf). destruct Hwf as (Hv & Hr & Hs).
    cbn. unfold LIFPopulation_wf. cbn. rewrite length_replicate. split_and!; auto.
  - rewrite (DC_reset st Hwf). destruct Hwf as (Hv & Hr & Hs & Ht & Hx & Htau & Hsc).
    cbn. unfold DiehlAndCookPopulation_wf, torch.zeros. cbn. rewrite !length_replicate.
    split_and!; auto.
Qed.

(** The state a leaky class is left in when [forward] raises on its input
    has the constructed shape. *)
Lemma decayed_spec p :
  wf_of p ->
  wf_of (decayed p) /\ neurons_of (decayed p) = neurons_of p /\
  dt_of (decayed p) = dt_of p /\ rest_of (decayed p) = rest_of p /\
  tau_ref_of (decayed p) = tau_ref_of p.
Proof.
  intros Hwf. destruct p as [st|st|st|st|st]; simpl in *; [done| | | |].
  - destruct Hwf as (Hv & Hr & Hs & Hth & Hc).
    cbn. unfold HomoeostasisLIFPopulation_wf. cbn. rewrite length_fmap. split_and!; auto.
  - destruct Hwf as (Hv & Hr & Hs & Hc).
    cbn. unfold LIFPopulation2_wf. cbn. rewrite length_fmap. split_and!; auto.
  - destruct Hwf as (Hv & Hr & Hs).
    cbn. unfold LIFPopulation_wf. cbn. rewrite length_fmap. split_and!; auto.
  - destruct Hwf as (Hv & Hr & Hs & Ht & Hx & Htau & Hsc).
    cbn. unfold DiehlAndCookPopulation_wf. cbn. rewrite length_fmap. split_and!; auto.
Qed.

(** [forward] on any input, accepted, broadcast or refused. *)
Lemma forward_of_any p x :
  wf_of p ->
  let p' := exec (forward_of x) p in
  wf_of p' /\ neurons_of p' = neurons_of p /\ dt_of p' = dt_of p /\
  rest_of p' = rest_of p /\ tau_ref_of p' = tau_ref_of p.
Proof.
  intros Hwf.
  destruct (decide (length x = neurons_of p)) as [Hx|Hx].
  { destruct (forward_of_elem p x Hwf Hx) as (? & ? & ? & ? & ? & _). auto. }
  destruct (decide (length x = 1%nat)) as [H1|H1].
  { destruct x as [|c [|? ?]]; simpl in H1; try lia.
    unfold exec. rewrite forward_of_broadcast by done.
    destruct (forward_of_elem p (replicate (neurons_of p) c) Hwf)
      as (? & ? & ? & ? & ? & _); [by rewrite length_replicate|]. auto. }
  simpl. unfold exec. rewrite forward_of_mismatch by done. simpl.
  by apply decayed_spec.
Qed.

Lemma run_call_any c p :
  wf_of p ->
  wf_of (run_call c p) /\ neurons_of (run_call c p) = neurons_of p /\
  dt_of (run_call c p) = dt_of p /\ rest_of (run_call c p) = rest_of p /\
  tau_ref_of (run_call c p) = tau_ref_of p.
Proof.
  intros Hwf. destruct c as [x|]; simpl.
  - by apply forward_of_any.
  - destruct (reset_of_spec p Hwf) as (_ & ? & ? & ? & ? & ? & _). auto.
Qed.

(** X1.  Whatever sequence of [forward] and [reset] calls a thresholded
    population of constructed shape receives, with inputs of any length
    (accepted, broadcast or refused with an exception), it keeps its
    constructed shape: [v], [refrac] and [s] (and the other per-neuron
    buffers) keep [neurons] entries, and [neurons], [dt], [rest] and
    [tau_ref] keep their values. *)
Theorem buffers_keep_their_shape (cs : list call) :
  forall p,
    wf_of p ->
    wf_of (run_calls cs p) /\
    neurons_of (run_calls cs p) = neurons_of p /\
    dt_of (run_calls cs p) = dt_of p /\
    rest_of (run_calls cs p) = rest_of p /\
    tau_ref_of (run_calls cs p) = tau_ref_of p /\
    length (v_of (run_calls cs p)) = neurons_of p /\
    length (refrac_of (run_calls cs p)) = neurons_of p /\
    length (s_of (run_calls cs p)) = neurons_of p.
Proof.
  induction cs as [|c cs IH]; intros p Hwf.
  - destruct (wf_lengths p Hwf) as (? & ? & ? & _). simpl. auto 10.
  - destruct (run_call_any c p Hwf) as (Hwf' & En & Ed & Er & Et).
    destruct (IH _ Hwf') as (? & ? & ? & ? & ? & ? & ? & ?).
    unfold run_calls in *. simpl. split_and!; congruence.
Qed.

(** X1 on the sample [HomoeostasisLIFPopulation]: a step, a reset, a refused
    input of three entries and a broadcast input. *)
Lemma buffers_keep_their_shape_witness :
  wf_of (HomoeostasisLIF sample_Homeo) /\
  wf_of (run_calls [call_forward [14]; call_reset; call_forward [1; 2; 3]; call_forward [2]]
           (HomoeostasisLIF sample_Homeo)) /\
  length (v_of (run_calls
                  [call_forward [14]; call_reset; call_forward [1; 2; 3]; call_forward [2]]
                  (HomoeostasisLIF sample_Homeo)))
  = neurons_of (HomoeostasisLIF sample_Homeo).
Proof.
  split; [exact sample_Homeo_wf|].
  pose proof (buffers_keep_their_shape
                [call_forward [14]; call_reset; call_forward [1; 2; 3]; call_forward [2]]
                (HomoeostasisLIF sample_Homeo) sample_Homeo_wf) as H.
  exact (conj (proj1 H) (proj1 (proj2 (proj2 (proj2 (proj2 (proj2 H))))))).
Defined.

(** ** The outcome of a step *)

(** X2.  After a [forward] call on an input of [neurons] entries every
    neuron is in one of two situations: it spiked ([s = 1]), its potential
    is [rest] and its refractory counter [tau_ref]; or it did not
    ([s = 0]), its counter went down by [dt] and its potential is strictly
    below the threshold the step tested it against.  No potential at or
    above its threshold survives a step. *)
Theorem spiked_and_reset_or_below_threshold (p : thresholded) (x : tensor)
    (i : nat) (r th : R) :
  wf_of p -> length x = neurons_of p ->
  refrac_of p !! i = Some r -> threshold_of p !! i = Some th ->
  let p' := exec (forward_of x) p in
  (s_of p' !! i = Some 1 /\ v_of p' !! i = Some (rest_of p) /\
   refrac_of p' !! i = Some (tau_ref_of p)) \/
  (s_of p' !! i = Some 0 /\ refrac_of p' !! i = Some (r - dt_of p) /\
   exists v', v_of p' !! i = Some v' /\ v' < th).
Proof.
  intros Hwf Hx Hr Hth p'.
  destruct (forward_of_elem p x Hwf Hx) as (_ & _ & _ & _ & _ & _ & H).
  destruct (wf_lengths _ Hwf) as (Lv & Lr & _).
  assert (Hi : (i < neurons_of p)%nat) by (apply lookup_lt_Some in Hr; lia).
  destruct (lookup_lt_is_Some_2 (v_of p) i) as [vi Hvi]; [lia|].
  destruct (lookup_lt_is_Some_2 x i) as [xi Hxi]; [lia|].
  destruct (H i vi r xi th Hvi Hr Hxi Hth) as (E & _). fold p' in E.
  unfold neuron_step in E.
  destruct (bool_decide (_ >= th)) eqn:Eb; injection E as Es Ev Er.
  - left. done.
  - right. split; [done|]. split; [done|]. eexists. split; [exact Ev|].
    apply bool_decide_eq_false in Eb. lra.
Qed.

(** X2 on the sample [LIFPopulation] fed 14. *)
Lemma spiked_and_reset_or_below_threshold_witness :
  (wf_of (LIF sample_LIF) /\ length [14] = neurons_of (LIF sample_LIF) /\
   refrac_of (LIF sample_LIF) !! 0%nat = Some 0 /\
   threshold_of (LIF sample_LIF) !! 0%nat = Some (-52 + 0.05)) /\
  ((s_of (exec (forward_of [14]) (LIF sample_LIF)) !! 0%nat = Some 1 /\
    v_of (exec (forward_of [14]) (LIF sample_LIF)) !! 0%nat
    = Some (rest_of (LIF sample_LIF)) /\
    refrac_of (exec (forward_of [14]) (LIF sample_LIF)) !! 0%nat
    = Some (tau_ref_of (LIF sample_LIF))) \/
   (s_of (exec (forward_of [14]) (LIF sample_LIF)) !! 0%nat = Some 0 /\
    refrac_of (exec (forward_of [14]) (LIF sample_LIF)) !! 0%nat
    = Some (0 - dt_of (LIF sample_LIF)) /\
    exists v', v_of (exec (forward_of [14]) (LIF sample_LIF)) !! 0%nat = Some v' /\
               v' < -52 + 0.05)).
Proof.
  split.
  - exact (conj sample_LIF_wf (conj eq_refl (conj eq_refl eq_refl))).
  - exact (spiked_and_reset_or_below_threshold (LIF sample_LIF) [14] 0%nat 0 (-52 + 0.05)
             sample_LIF_wf eq_refl eq_refl eq_refl).
Defined.

(** ** Spike counters *)

(** [(self.s > 0).float() * 1] is [self.s] when [s] was written from a
    comparison. *)
Lemma counted_spikes (s : tensor) (m : list bool) :
  length m = length s ->
  torch.mul_scalar
    (torch.float (torch.gt_scalar (zip_with (fun _ b : R => b) s (torch.float m)) 0)) 1
  = zip_with (fun _ b : R => b) s (torch.float m).
Proof.
  intros Hm. rewrite copy_same_length by (unfold torch.float; by rewrite length_fmap).
  unfold torch.mul_scalar, torch.float, torch.gt_scalar.
  rewrite <- !list_fmap_compose. apply list_fmap_ext. intros j b _. simpl.
  rewrite b2r_positive. lra.
Qed.

Lemma LIF2_count st x :
  LIFPopulation2_wf st -> length x = LIFPopulation2.neurons st ->
  LIFPopulation2.spikecount (exec (LIFPopulation2.forward x) st) =
  zip_with Rplus (LIFPopulation2.spikecount st)
    (LIFPopulation2.s (exec (LIFPopulation2.forward x) st)).
Proof.
  intros (Hv & Hr & Hs & Hc) Hx.
  destruct st as [n dt v tau_rc v_th s rest refrac tau_ref cnt]. simpl in *.
  unfold exec, LIFPopulation2.forward. run_forward red_LIF2. cbn [fst].
  red_LIF2. rewrite counted_spikes by len. reflexivity.
Qed.

Lemma Homeo_count st x cnt :
  HomoeostasisLIFPopulation_wf st -> length x = HomoeostasisLIFPopulation.neurons st ->
  HomoeostasisLIFPopulation.spikecount st = Some cnt ->
  HomoeostasisLIFPopulation.spikecount (exec (HomoeostasisLIFPopulation.forward x) st) =
  Some (zip_with Rplus cnt
          (HomoeostasisLIFPopulation.s (exec (HomoeostasisLIFPopulation.forward x) st))).
Proof.
  intros (Hv & Hr & Hs & Hth & Hc) Hx Hcnt.
  destruct st as [n dt v tau_rc v_th s rest refrac tau_ref threshold theta_plus theta
                    tau_theta frozen count cnt0].
  simpl in *. subst cnt0.
  destruct count; [|done]. simpl in Hc.
  unfold exec, HomoeostasisLIFPopulation.forward.
  destruct frozen; run_forward red_Homeo; cbn [fst]; red_Homeo;
    rewrite counted_spikes by len; reflexivity.
Qed.

Lemma IF_count st x cnt :
  IFPopulation_wf st -> length x = IFPopulation.neurons st ->
  IFPopulation.spikecount st = Some cnt ->
  IFPopulation.spikecount (exec (IFPopulation.forward x) st) =
  Some (zip_with Rplus cnt (IFPopulation.s (exec (IFPopulation.forward x) st))).
Proof.
  intros (Hv & Hr & Hs & Hc) Hx Hcnt.
  destruct st as [n dt v v_th rest refrac tau_ref s count cnt0]. simpl in *. subst cnt0.
  destruct count as [c|]; [|done]. destruct Hc as [-> Hc]. simpl in Hc.
  unfold exec, IFPopulation.forward, IFPopulation.integrate, IFPopulation.fire.
  run_forward red_IF. cbn [fst]. red_IF. reflexivity.
Qed.

(** The counter after a step is the counter before plus the spikes of the
    step. *)
Lemma spikecount_step p x cnt :
  wf_of p -> length x = neurons_of p -> spikecount_of p = Some cnt ->
  spikecount_of (exec (forward_of x) p)
  = Some (zip_with Rplus cnt (s_of (exec (forward_of x) p))).
Proof.
  intros Hwf Hx Hc. destruct p as [st|st|st|st|st]; simpl in *;
    unfold exec, forward_of, dispatch; cbn [fst spikecount_of s_of]; try done.
  - by apply IF_count.
  - by apply Homeo_count.
  - injection Hc as <-. f_equal. by apply LIF2_count.
Qed.

Lemma spikecount_length p cnt :
  wf_of p -> spikecount_of p = Some cnt -> length cnt = neurons_of p.
Proof.
  intros Hwf Hc. destruct p as [st|st|st|st|st]; simpl in *; try done.
  - destruct Hwf as (_ & _ & _ & Hw). rewrite Hc in Hw.
    destruct (IFPopulation.count_spike st); [destruct Hw; done|done].
  - destruct Hwf as (_ & _ & _ & _ & Hw). rewrite Hc in Hw.
    destruct (HomoeostasisLIFPopulation.count_spike st); done.
  - destruct Hwf as (_ & _ & _ & Hw). congruence.
Qed.

(** Entry by entry: one more where the neuron spiked, the same elsewhere. *)
Lemma spikecount_cases p x cnt :
  wf_of p -> length x = neurons_of p -> spikecount_of p = Some cnt ->
  let p' := exec (forward_of x) p in
  forall i c,
    cnt !! i = Some c ->
    (s_of p' !! i = Some 1 /\ (zip_with Rplus cnt (s_of p')) !! i = Some (c + 1)) \/
    (s_of p' !! i = Some 0 /\ (zip_with Rplus cnt (s_of p')) !! i = Some c).
Proof.
  intros Hwf Hx Hc p' i c Hi.
  pose proof (step_binary p x Hwf Hx) as Hb. fold p' in Hb.
  rewrite lookup_zip_with, Hi. simpl.
  destruct (s_of p' !! i) as [si|] eqn:Esi.
  - apply (Forall_lookup_1 _ _ _ _ Hb) in Esi as Hsi. destruct Hsi as [-> | ->].
    + right. split; [done|]. simpl. f_equal. lra.
    + left. done.
  - exfalso. apply lookup_ge_None in Esi. apply lookup_lt_Some in Hi.
    destruct (forward_of_elem p x Hwf Hx) as (Hwf' & Hn & _).
    destruct (wf_lengths _ Hwf') as (_ & _ & Ls & _). unfold p' in *.
    pose proof (spikecount_length p cnt Hwf Hc). lia.
Qed.

(** X3.  In the classes that keep a spike counter ([IFPopulation] built with
    [count_spike=True], [HomoeostasisLIFPopulation] with [count_spike],
    [LIFPopulation2]) a [forward] call on an input of [neurons] entries adds
    the spike vector of that step to [spikecount]: the entry of a neuron
    that spiked grows by exactly one, every other entry is unchanged. *)
Theorem spike_counter_counts (p : thresholded) (x : tensor) (cnt : tensor) :
  wf_of p -> length x = neurons_of p -> spikecount_of p = Some cnt ->
  let p' := exec (forward_of x) p in
  spikecount_of p' = Some (zip_with Rplus cnt (s_of p')) /\
  forall i c,
    cnt !! i = Some c ->
    (s_of p' !! i = Some 1 /\ (zip_with Rplus cnt (s_of p')) !! i = Some (c + 1)) \/
    (s_of p' !! i = Some 0 /\ (zip_with Rplus cnt (s_of p')) !! i = Some c).
Proof.
  intros Hwf Hx Hc p'. split; [by apply spikecount_step|by apply spikecount_cases].
Qed.

(** X3 on the sample [LIFPopulation2] fed 14. *)
Lemma spike_counter_counts_witness :
  (wf_of (LIF2 sample_LIF2) /\ length [14] = neurons_of (LIF2 sample_LIF2) /\
   spikecount_of (LIF2 sample_LIF2) = Some [0]) /\
  spikecount_of (exec (forward_of [14]) (LIF2 sample_LIF2))
  = Some (zip_with Rplus [0] (s_of (exec (forward_of [14]) (LIF2 sample_LIF2)))).
Proof.
  split.
  - exact (conj sample_LIF2_wf (conj eq_refl eq_refl)).
  - exact (proj1 (spike_counter_counts (LIF2 sample_LIF2) [14] [0]
                    sample_LIF2_wf eq_refl eq_refl)).
Defined.

(** Over a run the counter entry grows by the number of spikes. *)
Lemma spikecount_steps (i : nat) (xs : list tensor) :
  forall p cnt c,
    wf_of p -> Forall (fun x => length x = neurons_of p) xs ->
    spikecount_of p = Some cnt -> cnt !! i = Some c ->
    exists cnt',
      spikecount_of (steps forward_of xs p) = Some cnt' /\
      cnt' !! i = Some (c + INR (spikes_emitted i xs p)).
Proof.
  induction xs as [|x xs IH]; intros p cnt c Hwf Hxs Hc Hi.
  - exists cnt. simpl. split; [done|]. rewrite Hi. f_equal. lra.
  - apply Forall_cons in Hxs as [Hx Hxs].
    pose proof (spikecount_step p x cnt Hwf Hx Hc) as Hc'.
    pose proof (spikecount_cases p x cnt Hwf Hx Hc) as Hcase. cbv zeta in Hcase.
    destruct (forward_of_elem p x Hwf Hx) as (Hwf' & Hn & _).
    set (p' := exec (forward_of x) p) in *.
    assert (Hxs' : Forall (fun x0 : tensor => length x0 = neurons_of p') xs)
      by (by rewrite Hn).
    cbn [spikes_emitted]. fold p'.
    destruct (Hcase i c Hi) as [[Hs Hsum] | [Hs Hsum]].
    + destruct (IH p' _ _ Hwf' Hxs' Hc' Hsum) as (cnt' & E & Hl).
      exists cnt'. split; [exact E|]. rewrite Hl.
      rewrite bool_decide_true by done. rewrite plus_INR. simpl. f_equal. lra.
    + destruct (IH p' _ _ Hwf' Hxs' Hc' Hsum) as (cnt' & E & Hl).
      exists cnt'. split; [exact E|]. rewrite Hl.
      rewrite bool_decide_false.
      * simpl. done.
      * rewrite Hs. intros [= H]. lra.
Qed.

(** X4.  Over any run of inputs of [neurons] entries, a counter entry that
    holds the whole number [m] grows by the number of steps at which its
    neuron spiked, as long as the count stays within 2^24 = 16777216, the
    range in which the binary32 counter adds 1 exactly. *)
Theorem spike_counter_totals (i : nat) (xs : list tensor) (p : thresholded)
    (cnt : tensor) (m : nat) :
  wf_of p -> Forall (fun x => length x = neurons_of p) xs ->
  spikecount_of p = Some cnt -> cnt !! i = Some (INR m) ->
  (Z.of_nat (m + length xs) <= 16777216)%Z ->
  exists cnt',
    spikecount_of (steps forward_of xs p) = Some cnt' /\
    cnt' !! i = Some (INR (m + spikes_emitted i xs p)).
Proof.
  intros Hwf Hxs Hc Hi _.
  destruct (spikecount_steps i xs p cnt (INR m) Hwf Hxs Hc Hi) as (cnt' & E & Hl).
  exists cnt'. split; [exact E|]. by rewrite plus_INR.
Qed.

(** X4 on the sample [IFPopulation] fed 1, 5, 7. *)
Lemma spike_counter_totals_witness :
  (wf_of (IF sample_IF) /\
   Forall (fun x : tensor => length x = neurons_of (IF sample_IF)) [[1]; [5]; [7]] /\
   spikecount_of (IF sample_IF) = Some [0] /\ [0] !! 0%nat = Some (INR 0) /\
   (Z.of_nat (0 + length [[1]; [5]; [7]]) <= 16777216)%Z) /\
  exists cnt',
    spikecount_of (steps forward_of [[1]; [5]; [7]] (IF sample_IF)) = Some cnt' /\
    cnt' !! 0%nat = Some (INR (0 + spikes_emitted 0 [[1]; [5]; [7]] (IF sample_IF))).
Proof.
  assert (Hxs : Forall (fun x : tensor => length x = neurons_of (IF sample_IF))
                  [[1]; [5]; [7]]) by (repeat constructor).
  assert (Hm : (Z.of_nat (0 + length [[1]; [5]; [7]]) <= 16777216)%Z) by (cbn; lia).
  split.
  - exact (conj sample_IF_wf (conj Hxs (conj eq_refl (conj eq_refl Hm)))).
  - exact (spike_counter_totals 0%nat [[1]; [5]; [7]] (IF sample_IF) [0] 0
             sample_IF_wf Hxs eq_refl eq_refl Hm).
Defined.

(** ** InputPopulation: trace and counter *)

(** The two trace statements of [forward], as one expression per entry. *)
Lemma trace_update_expression (tr s : tensor) (e sc : R) :
  zip_with Rplus (torch.imul_scalar tr e) (torch.scalar_mul sc s)
  = zip_with (fun t si => t * e + sc * si) tr s.
Proof.
  unfold torch.imul_scalar, torch.scalar_mul.
  rewrite zip_with_fmap_l, zip_with_fmap_r. reflexivity.
Qed.

Lemma Input_forward_exact st x_in tr tau sc :
  InputPopulation_wf st -> length x_in = InputPopulation.neurons st ->
  InputPopulation.x st = Some tr -> InputPopulation.tau_tr st = Some tau ->
  InputPopulation.scale_tr st = Some sc ->
  InputPopulation.forward x_in st =
  (InputPopulation.mk (InputPopulation.neurons st) (InputPopulation.traces st)
     (InputPopulation.count_spike st) (InputPopulation.dt st) x_in
     (Some (zip_with (fun t xi => t * exp (- InputPopulation.dt st / tau) + sc * xi)
              tr x_in))
     (InputPopulation.tau_tr st) (InputPopulation.scale_tr st)
     (if InputPopulation.count_spike st
      then (fun cnt => zip_with Rplus cnt x_in) <$> InputPopulation.spikecount st
      else InputPopulation.spikecount st),
   inr x_in).
Proof.
  intros (Hs & Ht & Hx & _ & _ & Hc) Hin Etr Etau Esc.
  destruct st as [n traces count dt s x tau_tr scale_tr cnt]. simpl in *. subst.
  simpl in Hx.
  unfold InputPopulation.forward.
  (destruct count; [destruct cnt as [cnt|]; [|done] | subst cnt]); simpl in *;
    run_forward red_Input; rewrite copy_same_length by lia;
    rewrite trace_update_expression; reflexivity.
Qed.

Lemma Input_forward_wf st x_in :
  InputPopulation_wf st -> length x_in = InputPopulation.neurons st ->
  InputPopulation_wf (exec (InputPopulation.forward x_in) st).
Proof.
  intros Hwf Hin.
  destruct (Input_forward_ok st x_in Hwf Hin) as (tr' & cnt' & E & Ltr & Hc).
  unfold exec. rewrite E. destruct Hwf as (Hs & Ht & Hx & Htau & Hsc & _).
  unfold InputPopulation_wf. cbn. split_and!; auto.
Qed.

(** X5.  [InputPopulation.forward] on an input of [neurons] entries, in
    full: it returns the input itself, [s] becomes the input, every trace
    entry becomes [x * exp(-dt / tau_tr) + scale_tr * input], the counter
    (when [count_spike] is set) grows by the raw input values, and nothing
    else changes.  The input is neither thresholded nor clipped. *)
Theorem Input_forward_on_accepted_input (st : InputPopulation.state)
    (x_in tr : tensor) (tau sc : R) :
  InputPopulation_wf st -> length x_in = InputPopulation.neurons st ->
  InputPopulation.x st = Some tr -> InputPopulation.tau_tr st = Some tau ->
  InputPopulation.scale_tr st = Some sc ->
  InputPopulation.forward x_in st =
  (InputPopulation.mk (InputPopulation.neurons st) (InputPopulation.traces st)
     (InputPopulation.count_spike st) (InputPopulation.dt st) x_in
     (Some (zip_with (fun t xi => t * exp (- InputPopulation.dt st / tau) + sc * xi)
              tr x_in))
     (InputPopulation.tau_tr st) (InputPopulation.scale_tr st)
     (if InputPopulation.count_spike st
      then (fun cnt => zip_with Rplus cnt x_in) <$> InputPopulation.spikecount st
      else InputPopulation.spikecount st),
   inr x_in).
Proof. apply Input_forward_exact. Qed.

(** X5 on the sample [InputPopulation] fed [1, 0.5]. *)
Lemma Input_forward_on_accepted_input_witness :
  (InputPopulation_wf sample_Input /\
   length [1; 0.5] = InputPopulation.neurons sample_Input /\
   InputPopulation.x sample_Input = Some [0; 0] /\
   InputPopulation.tau_tr sample_Input = Some 20 /\
   InputPopulation.scale_tr sample_Input = Some 1) /\
  result (InputPopulation.forward [1; 0.5]) sample_Input = inr [1; 0.5].
Proof.
  split.
  - exact (conj sample_Input_wf (conj eq_refl (conj eq_refl (conj eq_refl eq_refl)))).
  - exact (f_equal snd
             (Input_forward_on_accepted_input sample_Input [1; 0.5] [0; 0] 20 1
                sample_Input_wf eq_refl eq_refl eq_refl eq_refl)).
Defined.

Lemma steps_cons {S A} (fwd : tensor -> M S A) x xs st :
  steps fwd (x :: xs) st = steps fwd xs (exec (fwd x) st).
Proof. reflexivity. Qed.

(** With zero input the trace only decays. *)
Lemma Input_silent_steps k :
  forall st tr tau sc,
    InputPopulation_wf st ->
    InputPopulation.x st = Some tr -> InputPopulation.tau_tr st = Some tau ->
    InputPopulation.scale_tr st = Some sc ->
    InputPopulation.x
      (steps InputPopulation.forward
         (replicate k (replicate (InputPopulation.neurons st) 0)) st)
    = Some ((fun t => t * exp (- (INR k * InputPopulation.dt st / tau))) <$> tr).
Proof.
  induction k as [|k IH]; intros st tr tau sc Hwf Etr Etau Esc.
  - simpl. rewrite Etr. f_equal. rewrite <- (list_fmap_id tr) at 1.
    apply list_fmap_ext. intros i t _. simpl.
    replace (- (0 * InputPopulation.dt st / tau)) with 0 by (unfold Rdiv; ring).
    rewrite exp_0. lra.
  - set (zeros := replicate (InputPopulation.neurons st) 0).
    assert (Hz : length zeros = InputPopulation.neurons st)
      by (unfold zeros; by rewrite length_replicate).
    pose proof (Input_forward_wf st zeros Hwf Hz) as Hwf'.
    pose proof (Input_forward_exact st zeros tr tau sc Hwf Hz Etr Etau Esc) as E.
    change (replicate (S k) zeros) with (zeros :: replicate k zeros).
    rewrite steps_cons.
    assert (Hx : has_length (InputPopulation.neurons st) (InputPopulation.x st))
      by (destruct Hwf as (_ & _ & H & _); exact H).
    rewrite Etr in Hx. simpl in Hx.
    set (st' := exec (InputPopulation.forward zeros) st) in *.
    assert (En : InputPopulation.neurons st' = InputPopulation.neurons st)
      by (unfold st', exec; rewrite E; reflexivity).
    assert (Ed : InputPopulation.dt st' = InputPopulation.dt st)
      by (unfold st', exec; rewrite E; reflexivity).
    assert (Etr' : InputPopulation.x st'
                   = Some ((fun t => t * exp (- InputPopulation.dt st / tau)) <$> tr)).
    { unfold st', exec. rewrite E. cbn. f_equal. unfold zeros.
      rewrite zip_with_replicate_r_eq by done.
      apply list_fmap_ext. intros i t _. unfold flip. simpl. lra. }
    assert (Etau' : InputPopulation.tau_tr st' = Some tau)
      by (unfold st', exec; rewrite E; exact Etau).
    assert (Esc' : InputPopulation.scale_tr st' = Some sc)
      by (unfold st', exec; rewrite E; exact Esc).
    unfold zeros. rewrite <- En.
    rewrite (IH st' _ tau sc Hwf' Etr' Etau' Esc').
    f_equal. rewrite <- list_fmap_compose. apply list_fmap_ext. intros i t _.
    unfold compose. cbv beta.
    rewrite Ed, Rmult_assoc, <- exp_plus. do 2 f_equal.
    rewrite S_INR. unfold Rdiv. ring.
Qed.

(** With zero input the trace shrinks by the factor [exp(-dt/tau_tr)] at
    each step. *)
Lemma silence_factor_monotone (d tau : R) (j k : nat) :
  0 < d -> 0 < tau -> (j <= k)%nat ->
  0 < exp (- (INR k * d / tau)) <= exp (- (INR j * d / tau)) /\
  exp (- (INR j * d / tau)) <= 1.
Proof.
  intros Hd Htau Hjk.
  assert (Hq : 0 < d / tau) by (apply Rdiv_lt_0_compat; lra).
  assert (Hj : 0 <= INR j) by apply pos_INR.
  assert (Hle : INR j <= INR k) by (by apply le_INR).
  assert (E : forall n : nat, INR n * d / tau = INR n * (d / tau))
    by (intros n; unfold Rdiv; ring).
  rewrite !E.
  assert (Hmono : forall a b, a <= b -> exp a <= exp b).
  { intros a b [Hab | ->]; [left; by apply exp_increasing|right; reflexivity]. }
  split; [split; [apply exp_pos|]|].
  - apply Hmono. nra.
  - rewrite <- exp_0. apply Hmono. nra.
Qed.

(** X6.  Without input the trace of an [InputPopulation] dies away: with
    [dt > 0] and [tau_tr > 0], over any number of steps of zero input a
    non-negative trace entry never grows and never becomes negative; after
    more silent steps it is at most what it was after fewer. *)
Theorem Input_trace_decays_in_silence (st : InputPopulation.state) (tr : tensor)
    (tau sc : R) (i : nat) (t : R) (j k : nat) :
  InputPopulation_wf st ->
  InputPopulation.x st = Some tr -> InputPopulation.tau_tr st = Some tau ->
  InputPopulation.scale_tr st = Some sc ->
  0 < InputPopulation.dt st -> 0 < tau ->
  tr !! i = Some t -> 0 <= t -> (j <= k)%nat ->
  exists tj tk,
    InputPopulation.x
      (steps InputPopulation.forward
         (replicate j (replicate (InputPopulation.neurons st) 0)) st)
    = Some tj /\
    InputPopulation.x
      (steps InputPopulation.forward
         (replicate k (replicate (InputPopulation.neurons st) 0)) st)
    = Some tk /\
    exists a b, tj !! i = Some a /\ tk !! i = Some b /\ 0 <= b <= a /\ a <= t.
Proof.
  intros Hwf Etr Etau Esc Hdt Htau Hi Ht Hjk.
  rewrite (Input_silent_steps j st tr tau sc Hwf Etr Etau Esc).
  rewrite (Input_silent_steps k st tr tau sc Hwf Etr Etau Esc).
  eexists _, _. split; [reflexivity|]. split; [reflexivity|].
  rewrite !list_lookup_fmap, Hi. cbn.
  eexists _, _. split; [reflexivity|]. split; [reflexivity|].
  destruct (silence_factor_monotone (InputPopulation.dt st) tau j k Hdt Htau Hjk)
    as [[H0 Hkj] Hj1].
  split; [split|]; nra.
Qed.

(** X6 on the sample [InputPopulation] with the trace [1, 0.5]: two and
    five silent steps. *)
Lemma Input_trace_decays_in_silence_witness :
  (InputPopulation_wf (InputPopulation.set_x (Some [1; 0.5]) sample_Input) /\
   0 < InputPopulation.dt (InputPopulation.set_x (Some [1; 0.5]) sample_Input) /\
   0 < 20 /\ 0 <= 0.5 /\ le 2 5) /\
  exists tj tk,
    InputPopulation.x
      (steps InputPopulation.forward (replicate 2 (replicate 2 0))
         (InputPopulation.set_x (Some [1; 0.5]) sample_Input)) = Some tj /\
    InputPopulation.x
      (steps InputPopulation.forward (replicate 5 (replicate 2 0))
         (InputPopulation.set_x (Some [1; 0.5]) sample_Input)) = Some tk /\
    exists a b, tj !! 1%nat = Some a /\ tk !! 1%nat = Some b /\ 0 <= b <= a /\ a <= 0.5.
Proof.
  assert (Hwf : InputPopulation_wf (InputPopulation.set_x (Some [1; 0.5]) sample_Input)).
  { unfold InputPopulation_wf. cbn. split_and!; eauto. }
  assert (Hdt : 0 < InputPopulation.dt (InputPopulation.set_x (Some [1; 0.5]) sample_Input))
    by (cbn; lra).
  assert (Htau : 0 < 20) by lra.
  assert (Ht : 0 <= 0.5) by lra.
  assert (Hjk : le 2 5) by lia.
  split.
  - exact (conj Hwf (conj Hdt (conj Htau (conj Ht Hjk)))).
  - exact (Input_trace_decays_in_silence
             (InputPopulation.set_x (Some [1; 0.5]) sample_Input) [1; 0.5] 20 1 1 0.5 2 5
             Hwf eq_refl eq_refl eq_refl Hdt Htau eq_refl Ht Hjk).
Defined.

(** ** DiehlAndCookPopulation: the trace *)

Lemma DC_trace_step st x_in tr tau sc :
  DiehlAndCookPopulation_wf st -> length x_in = DiehlAndCookPopulation.neurons st ->
  DiehlAndCookPopulation.x st = Some tr ->
  DiehlAndCookPopulation.tau_tr st = Some tau ->
  DiehlAndCookPopulation.scale_tr st = Some sc ->
  DiehlAndCookPopulation.x (exec (DiehlAndCookPopulation.forward x_in) st) =
  Some (zip_with (fun t si => t * exp (- DiehlAndCookPopulation.dt st / tau) + sc * si)
          tr (DiehlAndCookPopulation.s (exec (DiehlAndCookPopulation.forward x_in) st))).
Proof.
  intros (Hv & Hr & Hs & Ht & Hx & _ & _) Hin Etr Etau Esc.
  destruct st as [n traces dt v tau_rc v_th theta s rest refrac tau_ref x tau_tr scale_tr].
  simpl in *. subst. simpl in Hx.
  unfold exec, DiehlAndCookPopulation.forward. run_forward red_DC. cbn [fst]. red_DC.
  rewrite trace_update_expression. reflexivity.
Qed.

(** The spike vector of a [DiehlAndCookPopulation] after a step is binary
    and has [neurons] entries. *)
Lemma DC_step_spikes st x_in :
  DiehlAndCookPopulation_wf st -> length x_in = DiehlAndCookPopulation.neurons st ->
  let st' := exec (DiehlAndCookPopulation.forward x_in) st in
  DiehlAndCookPopulation_wf st' /\
  DiehlAndCookPopulation.neurons st' = DiehlAndCookPopulation.neurons st /\
  DiehlAndCookPopulation.dt st' = DiehlAndCookPopulation.dt st /\
  length (DiehlAndCookPopulation.s st') = DiehlAndCookPopulation.neurons st /\
  binary (DiehlAndCookPopulation.s st').
Proof.
  intros Hwf Hin st'.
  pose proof (step_binary (DiehlAndCook st) x_in Hwf Hin) as Hbin.
  destruct (forward_of_elem (DiehlAndCook st) x_in Hwf Hin) as (Hwf' & Hn & Hd & _).
  destruct (wf_lengths _ Hwf') as (_ & _ & Ls & _).
  unfold exec, forward_of, dispatch in Hbin, Hwf', Hn, Hd, Ls.
  cbn in Hbin, Hwf', Hn, Hd, Ls.
  fold (exec (DiehlAndCookPopulation.forward x_in) st) in Hbin, Hwf', Hn, Hd, Ls.
  fold st' in Hbin, Hwf', Hn, Hd, Ls.
  split_and!; auto. lia.
Qed.

(** X7.  The trace of a [DiehlAndCookPopulation] filters the population's
    own output spikes of the same step (not its input): after a [forward]
    call on an input of [neurons] entries, the trace entry of a neuron that
    spiked is [x * exp(-dt / tau_tr) + scale_tr], and that of a neuron that
    did not is [x * exp(-dt / tau_tr)]. *)
Theorem DiehlAndCook_trace_follows_own_spikes (st : DiehlAndCookPopulation.state)
    (x_in tr : tensor) (tau sc : R) :
  DiehlAndCookPopulation_wf st -> length x_in = DiehlAndCookPopulation.neurons st ->
  DiehlAndCookPopulation.x st = Some tr ->
  DiehlAndCookPopulation.tau_tr st = Some tau ->
  DiehlAndCookPopulation.scale_tr st = Some sc ->
  let st' := exec (DiehlAndCookPopulation.forward x_in) st in
  exists tr',
    DiehlAndCookPopulation.x st' = Some tr' /\ length tr' = length tr /\
    forall i t,
      tr !! i = Some t ->
      (DiehlAndCookPopulation.s st' !! i = Some 1 /\
       tr' !! i = Some (t * exp (- DiehlAndCookPopulation.dt st / tau) + sc)) \/
      (DiehlAndCookPopulation.s st' !! i = Some 0 /\
       tr' !! i = Some (t * exp (- DiehlAndCookPopulation.dt st / tau))).
Proof.
  intros Hwf Hin Etr Etau Esc st'.
  pose proof (DC_trace_step st x_in tr tau sc Hwf Hin Etr Etau Esc) as Ex.
  destruct (DC_step_spikes st x_in Hwf Hin) as (_ & _ & _ & Ls & Hbin).
  fold st' in Ex, Ls, Hbin.
  assert (Ltr : length tr = DiehlAndCookPopulation.neurons st).
  { destruct Hwf as (_ & _ & _ & _ & Hx & _). rewrite Etr in Hx. exact Hx. }
  eexists. split; [exact Ex|]. split.
  { rewrite length_zip_with. lia. }
  intros i t Ht. rewrite lookup_zip_with, Ht. simpl.
  destruct (DiehlAndCookPopulation.s st' !! i) as [si|] eqn:Esi.
  - apply (Forall_lookup_1 _ _ _ _ Hbin) in Esi as Hsi. destruct Hsi as [-> | ->].
    + right. split; [done|]. simpl. f_equal. lra.
    + left. split; [done|]. simpl. f_equal. lra.
  - exfalso. apply lookup_ge_None in Esi. apply lookup_lt_Some in Ht. lia.
Qed.

(** X7 on the sample [DiehlAndCookPopulation] fed 14. *)
Lemma DiehlAndCook_trace_follows_own_spikes_witness :
  (DiehlAndCookPopulation_wf sample_DC /\
   length [14] = DiehlAndCookPopulation.neurons sample_DC /\
   DiehlAndCookPopulation.x sample_DC = Some [0] /\
   DiehlAndCookPopulation.tau_tr sample_DC = Some 20 /\
   DiehlAndCookPopulation.scale_tr sample_DC = Some 1) /\
  exists tr',
    DiehlAndCookPopulation.x (exec (DiehlAndCookPopulation.forward [14]) sample_DC)
    = Some tr' /\ length tr' = length [0].
Proof.
  split.
  - exact (conj sample_DC_wf (conj eq_refl (conj eq_refl (conj eq_refl eq_refl)))).
  - destruct (DiehlAndCook_trace_follows_own_spikes sample_DC [14] [0] 20 1
                sample_DC_wf eq_refl eq_refl eq_refl eq_refl) as (tr' & E & L & _).
    exists tr'. exact (conj E L).
Defined.






(** ** Resets *)

Lemma reset_of_idempotent p :
  wf_of p -> exec reset_of (exec reset_of p) = exec reset_of p.
Proof.
  intros Hwf.
  destruct (reset_of_spec p Hwf) as (_ & Hwf' & _).
  destruct p as [st|st|st|st|st]; unfold exec, reset_of, dispatch in *;
    cbn [fst] in *; f_equal.
  - rewrite (IF_reset _ Hwf'), (IF_reset _ Hwf). reflexivity.
  - rewrite (Homeo_reset _ Hwf'), (Homeo_reset _ Hwf). cbn [fst].
    destruct st as [n dt v tau_rc v_th s rest refrac tau_ref threshold theta_plus theta
                      tau_theta frozen [|] cnt]; reflexivity.
  - rewrite (LIF2_reset _ Hwf'), (LIF2_reset _ Hwf). reflexivity.
  - rewrite (LIF_reset _ Hwf'), (LIF_reset _ Hwf). reflexivity.
  - rewrite (DC_reset _ Hwf'), (DC_reset _ Hwf). reflexivity.
Qed.

Lemma Input_reset_idempotent st :
  InputPopulation_wf st ->
  exec InputPopulation.reset (exec InputPopulation.reset st)
  = exec InputPopulation.reset st.
Proof.
  intros Hwf. unfold exec. rewrite (Input_reset st Hwf). cbn [fst].
  assert (Hwf' : InputPopulation_wf
                   (InputPopulation.set_x
                      (Some (torch.zeros (InputPopulation.neurons st))) st)).
  { destruct Hwf as (Hs & Ht & Hx & Htau & Hsc & Hc).
    unfold InputPopulation_wf, torch.zeros. cbn. rewrite length_replicate.
    split_and!; auto. }
  rewrite (Input_reset _ Hwf'). reflexivity.
Qed.

(** X9.  In all six classes a second [reset] right after a [reset] changes
    nothing: on an object of constructed shape both calls return normally
    and the object after two resets is the object after one. *)
Theorem reset_is_idempotent :
  (forall p : thresholded,
      wf_of p ->
      result reset_of p = inr tt /\
      result reset_of (exec reset_of p) = inr tt /\
      exec reset_of (exec reset_of p) = exec reset_of p) /\
  (forall st : InputPopulation.state,
      InputPopulation_wf st ->
      result InputPopulation.reset st = inr tt /\
      result InputPopulation.reset (exec InputPopulation.reset st) = inr tt /\
      exec InputPopulation.reset (exec InputPopulation.reset st)
      = exec InputPopulation.reset st).
Proof.
  split.
  - intros p Hwf.
    destruct (reset_of_spec p Hwf) as (E & Hwf' & _).
    destruct (reset_of_spec _ Hwf') as (E' & _).
    split; [exact E|]. split; [exact E'|]. by apply reset_of_idempotent.
  - intros st Hwf.
    assert (Hwf' : InputPopulation_wf
                     (InputPopulation.set_x
                        (Some (torch.zeros (InputPopulation.neurons st))) st)).
    { destruct Hwf as (Hs & Ht & Hx & Htau & Hsc & Hc).
      unfold InputPopulation_wf, torch.zeros. cbn. rewrite length_replicate.
      split_and!; auto. }
    split; [unfold result; by rewrite (Input_reset st Hwf)|].
    split; [|by apply Input_reset_idempotent].
    unfold result, exec. rewrite (Input_reset st Hwf). cbn [fst].
    by rewrite (Input_reset _ Hwf').
Qed.

(** X9 on the sample [DiehlAndCookPopulation] and the sample
    [InputPopulation]. *)
Lemma reset_is_idempotent_witness :
  (wf_of (DiehlAndCook sample_DC) /\ InputPopulation_wf sample_Input) /\
  exec reset_of (exec reset_of (DiehlAndCook sample_DC))
  = exec reset_of (DiehlAndCook sample_DC) /\
  exec InputPopulation.reset (exec InputPopulation.reset sample_Input)
  = exec InputPopulation.reset sample_Input.
Proof.
  split.
  - exact (conj sample_DC_wf sample_Input_wf).
  - exact (conj
             (proj2 (proj2 (proj1 reset_is_idempotent (DiehlAndCook sample_DC)
                                    sample_DC_wf)))
             (proj2 (proj2 (proj2 reset_is_idempotent sample_Input sample_Input_wf)))).
Defined.

(** X10.  [reset] does not end a refractory period: no [reset] method
    touches [refrac].  A neuron whose counter is positive when the
    population is reset still ignores the input of the next [forward] call:
    after [reset] and a step on any input of [neurons] entries its [v] is
    [rest], it has not spiked, and its counter is the one from before the
    reset minus [dt] ([rest] being below its threshold). *)
Theorem reset_keeps_refractory_period (p : thresholded) (x : tensor)
    (i : nat) (r th : R) :
  wf_of p -> positive_time_constants p ->
  length x = neurons_of p ->
  refrac_of p !! i = Some r -> 0 < r ->
  threshold_of p !! i = Some th -> rest_of p < th ->
  let p0 := exec reset_of p in
  let p' := exec (forward_of x) p0 in
  refrac_of p0 !! i = Some r /\
  s_of p' !! i = Some 0 /\ v_of p' !! i = Some (rest_of p) /\
  refrac_of p' !! i = Some (r - dt_of p).
Proof.
  intros Hwf _ Hx Hr Hpos Hth Hlt p0 p'.
  destruct (reset_of_spec p Hwf)
    as (_ & Hwf0 & En & Ed & Er & _ & _ & Ev & Erf & _ & Eth).
  fold p0 in Hwf0, En, Ed, Er, Ev, Erf, Eth.
  assert (Hrest0 : at_rest i p0).
  { unfold at_rest. rewrite Ev, Eth, Er. split; [|by exists th].
    apply lookup_replicate. split; [done|].
    apply lookup_lt_Some in Hr. destruct (wf_lengths p Hwf) as (_ & ? & _). lia. }
  assert (Hr0 : refrac_of p0 !! i = Some r) by (by rewrite Erf).
  assert (Hx0 : length x = neurons_of p0) by (by rewrite En).
  destruct (at_rest_step p0 x i r Hwf0 Hx0 Hrest0 Hr0 Hpos) as ((Hv & _) & Hs & Hr').
  fold p' in Hv, Hs, Hr'.
  destruct (forward_of_elem p0 x Hwf0 Hx0) as (_ & _ & _ & Erest' & _).
  fold p' in Erest'. rewrite Erest', Er in Hv. rewrite Ed in Hr'. done.
Qed.

(** X10 on the sample [IFPopulation] after its spike: reset, then fed 5. *)
Lemma reset_keeps_refractory_period_witness :
  (wf_of (exec (forward_of [1]) (IF sample_IF)) /\
   positive_time_constants (exec (forward_of [1]) (IF sample_IF)) /\
   length [5] = neurons_of (exec (forward_of [1]) (IF sample_IF)) /\
   refrac_of (exec (forward_of [1]) (IF sample_IF)) !! 0%nat = Some 2 /\ 0 < 2 /\
   threshold_of (exec (forward_of [1]) (IF sample_IF)) !! 0%nat = Some 0.9 /\
   rest_of (exec (forward_of [1]) (IF sample_IF)) < 0.9) /\
  s_of (exec (forward_of [5]) (exec reset_of (exec (forward_of [1]) (IF sample_IF))))
    !! 0%nat = Some 0 /\
  v_of (exec (forward_of [5]) (exec reset_of (exec (forward_of [1]) (IF sample_IF))))
    !! 0%nat = Some (rest_of (exec (forward_of [1]) (IF sample_IF))).
Proof.
  destruct sample_IF_run as (E1 & _).
  assert (Hwf : wf_of (exec (forward_of [1]) (IF sample_IF))).
  { rewrite E1. cbn. unfold IFPopulation_wf. cbn. split_and!; eauto. }
  assert (Hpos : positive_time_constants (exec (forward_of [1]) (IF sample_IF))).
  { rewrite E1. split; [cbn; lra|]. intros tau [=]. }
  assert (Hx : length [5] = neurons_of (exec (forward_of [1]) (IF sample_IF)))
    by (rewrite E1; reflexivity).
  assert (Hr : refrac_of (exec (forward_of [1]) (IF sample_IF)) !! 0%nat = Some 2)
    by (rewrite E1; reflexivity).
  assert (H2 : 0 < 2) by lra.
  assert (Hth : threshold_of (exec (forward_of [1]) (IF sample_IF)) !! 0%nat = Some 0.9)
    by (rewrite E1; reflexivity).
  assert (Hrest : rest_of (exec (forward_of [1]) (IF sample_IF)) < 0.9)
    by (rewrite E1; cbn; lra).
  pose proof (reset_keeps_refractory_period (exec (forward_of [1]) (IF sample_IF)) [5]
                0%nat 2 0.9 Hwf Hpos Hx Hr H2 Hth Hrest) as (_ & Hs & Hv & _).
  split.
  - exact (conj Hwf (conj Hpos (conj Hx (conj Hr (conj H2 (conj Hth Hrest)))))).
  - exact (conj Hs Hv).
Defined.

(** ** Fixed thresholds *)

Lemma threshold_fixed_step p x :
  wf_of p -> length x = neurons_of p -> adaptive p = false ->
  threshold_of (exec (forward_of x) p) = threshold_of p /\
  adaptive (exec (forward_of x) p) = false.
Proof.
  intros Hwf Hx Ha. destruct p as [st|st|st|st|st]; unfold exec, forward_of, dispatch;
    cbn [fst threshold_of adaptive] in *.
  - destruct (IF_forward_elem st x Hwf Hx) as (? & ? & ? & ? & -> & _). done.
  - pose proof (Homeo_theta_update st x Hwf Hx) as [_ Hth].
    apply negb_false_iff in Ha. specialize (Hth Ha). unfold exec in Hth.
    destruct (Homeo_forward_elem st x Hwf Hx) as (? & ? & ? & ? & ? & E & _).
    rewrite E in Hth |- *. cbn in Hth |- *. rewrite Hth, Ha. done.
  - destruct (LIF2_forward_elem st x Hwf Hx) as (? & ? & ? & ? & -> & _). done.
  - destruct (LIF_forward_elem st x Hwf Hx) as (? & ? & ? & -> & _). done.
  - destruct (DC_forward_elem st x Hwf Hx) as (? & ? & ? & ? & -> & _). done.
Qed.

Lemma threshold_of_decayed p :
  threshold_of (decayed p) = threshold_of p /\ adaptive (decayed p) = adaptive p.
Proof. by destruct p as [st|st|st|st|st]; destruct st. Qed.

Lemma adaptive_reset p : wf_of p -> adaptive (exec reset_of p) = adaptive p.
Proof.
  intros Hwf. destruct p as [st|st|st|st|st]; try reflexivity.
  unfold exec, reset_of, dispatch. rewrite (Homeo_reset st Hwf). cbn.
  by destruct (HomoeostasisLIFPopulation.count_spike st).
Qed.

Lemma threshold_fixed_call c p :
  wf_of p -> adaptive p = false ->
  threshold_of (run_call c p) = threshold_of p /\ adaptive (run_call c p) = false.
Proof.
  intros Hwf Ha. destruct c as [x|]; simpl.
  - destruct (decide (length x = neurons_of p)) as [Hx|Hx].
    { by apply threshold_fixed_step. }
    destruct (decide (length x = 1%nat)) as [H1|H1].
    { destruct x as [|c [|? ?]]; simpl in H1; try lia.
      unfold exec. rewrite forward_of_broadcast by done.
      apply threshold_fixed_step; [done|by rewrite length_replicate|done]. }
    unfold exec. rewrite forward_of_mismatch by done. cbn [fst].
    destruct (threshold_of_decayed p) as [-> ->]. done.
  - destruct (reset_of_spec p Hwf) as (_ & _ & _ & _ & _ & _ & _ & _ & _ & _ & ->).
    rewrite adaptive_reset by done. done.
Qed.

(** X11.  The firing threshold of every neuron is a constant of the object
    in every thresholded class except a [HomoeostasisLIFPopulation] with
    [frozen_threshold=False]: whatever [forward] and [reset] calls are made,
    with inputs of any length, the thresholds the next step tests against
    are those of the start ([v_th], or [v_th + theta]). *)
Theorem thresholds_fixed_unless_adaptive (cs : list call) :
  forall p,
    wf_of p -> adaptive p = false ->
    threshold_of (run_calls cs p) = threshold_of p.
Proof.
  induction cs as [|c cs IH]; intros p Hwf Ha; [done|].
  change (run_calls (c :: cs) p) with (run_calls cs (run_call c p)).
  destruct (threshold_fixed_call c p Hwf Ha) as [Eth Ha'].
  destruct (run_call_any c p Hwf) as (Hwf' & _).
  rewrite IH by done. exact Eth.
Qed.

(** X11 on the sample [DiehlAndCookPopulation]. *)
Lemma thresholds_fixed_unless_adaptive_witness :
  (wf_of (DiehlAndCook sample_DC) /\ adaptive (DiehlAndCook sample_DC) = false) /\
  threshold_of (run_calls [call_forward [14]; call_reset; call_forward [1; 2]]
                  (DiehlAndCook sample_DC))
  = threshold_of (DiehlAndCook sample_DC).
Proof.
  split.
  - exact (conj sample_DC_wf eq_refl).
  - exact (thresholds_fixed_unless_adaptive
             [call_forward [14]; call_reset; call_forward [1; 2]]
             (DiehlAndCook sample_DC) sample_DC_wf eq_refl).
Defined.

(** ** Below the threshold *)

(** A step that leaves neuron [i] below its threshold. *)
Lemma quiet_step p x i v0 r th xi :
  wf_of p -> length x = neurons_of p ->
  v_of p !! i = Some v0 -> refrac_of p !! i = Some r -> x !! i = Some xi ->
  threshold_of p !! i = Some th ->
  (if bool_decide (r <= 0) then decay_of p v0 + xi else decay_of p v0) < th ->
  let p' := exec (forward_of x) p in
  s_of p' !! i = Some 0 /\
  v_of p' !! i
  = Some (if bool_decide (r <= 0) then decay_of p v0 + xi else decay_of p v0) /\
  refrac_of p' !! i = Some (r - dt_of p) /\
  exists th', threshold_of p' !! i = Some th' /\ th <= th'.
Proof.
  intros Hwf Hx Hv Hr Hxi Hth Hlt p'.
  destruct (forward_of_elem p x Hwf Hx) as (_ & _ & _ & _ & _ & _ & H).
  destruct (H i v0 r xi th Hv Hr Hxi Hth) as (E & th' & Hth' & Hmono).
  fold p' in E, Hth', Hmono. unfold neuron_step in E.
  rewrite (bool_decide_false (_ >= th)) in E by lra.
  injection E as Es Ev Er. split_and!; auto.
  exists th'. split; [done|]. by apply Hmono.
Qed.

Lemma no_tau_rc_no_decay p v : tau_rc_of p = None -> decay_of p v = v.
Proof. by destruct p as [st|st|st|st|st]. Qed.

(** One step of zero input on a neuron whose potential [v0] is reproduced
    by the decay and lies below the threshold. *)
Lemma silent_step p i v0 th :
  wf_of p -> v_of p !! i = Some v0 -> decay_of p v0 = v0 ->
  threshold_of p !! i = Some th -> v0 < th ->
  let p' := exec (forward_of (replicate (neurons_of p) 0)) p in
  s_of p' !! i = Some 0 /\ v_of p' !! i = Some v0 /\
  exists th', threshold_of p' !! i = Some th' /\ v0 < th'.
Proof.
  intros Hwf Hv Hdecay Hth Hlt p'.
  assert (Hz : length (replicate (neurons_of p) 0) = neurons_of p)
    by (by rewrite length_replicate).
  destruct (wf_lengths p Hwf) as (Lv & Lr & _).
  assert (Hi : (i < neurons_of p)%nat) by (apply lookup_lt_Some in Hv; lia).
  destruct (lookup_lt_is_Some_2 (refrac_of p) i) as [r Hr]; [lia|].
  assert (Hxi : replicate (neurons_of p) 0 !! i = Some 0)
    by (by apply lookup_replicate).
  destruct (quiet_step p (replicate (neurons_of p) 0) i v0 r th 0 Hwf Hz Hv Hr Hxi Hth)
    as (Hs & Hv' & _ & th' & Hth' & Hle).
  { rewrite Hdecay. destruct (bool_decide (r <= 0)); lra. }
  fold p' in Hs, Hv', Hth'. rewrite Hdecay in Hv'.
  split; [done|]. split.
  - rewrite Hv'. destruct (bool_decide (r <= 0)); f_equal; lra.
  - exists th'. split; [done|]. lra.
Qed.

Lemma silent_steps i k :
  forall p v0 th,
    wf_of p -> v_of p !! i = Some v0 -> decay_of p v0 = v0 ->
    threshold_of p !! i = Some th -> v0 < th ->
    let p' := steps forward_of (replicate k (replicate (neurons_of p) 0)) p in
    v_of p' !! i = Some v0 /\
    spikes_emitted i (replicate k (replicate (neurons_of p) 0)) p = 0%nat.
Proof.
  induction k as [|k IH]; intros p v0 th Hwf Hv Hdecay Hth Hlt; [by cbn|].
  destruct (silent_step p i v0 th Hwf Hv Hdecay Hth Hlt) as (Hs & Hv' & th' & Hth' & Hlt').
  assert (Hz : length (replicate (neurons_of p) 0) = neurons_of p)
    by (by rewrite length_replicate).
  destruct (forward_of_elem p _ Hwf Hz) as (Hwf' & En & _ & _ & _ & Ed & _).
  set (p1 := exec (forward_of (replicate (neurons_of p) 0)) p) in *.
  cbv zeta. change (replicate (S k) (replicate (neurons_of p) 0))
    with (replicate (neurons_of p) 0 :: replicate k (replicate (neurons_of p) 0)).
  rewrite steps_cons. cbn [spikes_emitted]. fold p1.
  rewrite Hs. rewrite bool_decide_false by (intros [= E]; lra).
  rewrite <- En.
  destruct (IH p1 v0 th' Hwf' Hv') as (Hvk & Hsk); auto.
  by rewrite Ed.
Qed.

(** X12.  A neuron at rest stays at rest without input, in all five
    thresholded classes with positive time constants: if [v[i]] is [rest],
    below the neuron's threshold, then after any number of steps of zero
    input [v[i]] is still [rest] and the neuron has not spiked, whatever
    its refractory counter. *)
Theorem neuron_at_rest_stays_at_rest (p : thresholded) (i k : nat) :
  wf_of p -> positive_time_constants p -> at_rest i p ->
  let p' := steps forward_of (replicate k (replicate (neurons_of p) 0)) p in
  v_of p' !! i = Some (rest_of p) /\
  spikes_emitted i (replicate k (replicate (neurons_of p) 0)) p = 0%nat.
Proof.
  intros Hwf _ (Hv & th & Hth & Hlt).
  exact (silent_steps i k p (rest_of p) th Hwf Hv (decay_of_rest p) Hth Hlt).
Qed.

(** X12 on the sample [DiehlAndCookPopulation]: four silent steps. *)
Lemma neuron_at_rest_stays_at_rest_witness :
  (wf_of (DiehlAndCook sample_DC) /\ positive_time_constants (DiehlAndCook sample_DC) /\
   at_rest 0 (DiehlAndCook sample_DC)) /\
  v_of (steps forward_of (replicate 4 (replicate (neurons_of (DiehlAndCook sample_DC)) 0))
          (DiehlAndCook sample_DC)) !! 0%nat
  = Some (rest_of (DiehlAndCook sample_DC)).
Proof.
  assert (Hpos : positive_time_constants (DiehlAndCook sample_DC)).
  { split; [cbn; lra|]. intros tau [= <-]. lra. }
  assert (Hrest : at_rest 0 (DiehlAndCook sample_DC)).
  { split; [reflexivity|]. exists (-52 + 0.05). split; [reflexivity|]. cbn. lra. }
  split.
  - exact (conj sample_DC_wf (conj Hpos Hrest)).
  - exact (proj1 (neuron_at_rest_stays_at_rest (DiehlAndCook sample_DC) 0 4
                    sample_DC_wf Hpos Hrest)).
Defined.

(** X13.  An [IFPopulation] has no leak: a potential [v0] below the
    threshold is kept unchanged over any number of steps of zero input,
    and the neuron does not spike. *)
Theorem IF_keeps_potential_without_input (p : thresholded) (i k : nat) (v0 th : R) :
  wf_of p -> tau_rc_of p = None ->
  v_of p !! i = Some v0 -> threshold_of p !! i = Some th -> v0 < th ->
  let p' := steps forward_of (replicate k (replicate (neurons_of p) 0)) p in
  v_of p' !! i = Some v0 /\
  spikes_emitted i (replicate k (replicate (neurons_of p) 0)) p = 0%nat.
Proof.
  intros Hwf Htau Hv Hth Hlt.
  exact (silent_steps i k p v0 th Hwf Hv (no_tau_rc_no_decay p v0 Htau) Hth Hlt).
Qed.

(** X13 on an [IFPopulation] charged to 0.5 ([v_th = 0.9]): three silent
    steps. *)
Lemma IF_keeps_potential_without_input_witness :
  (wf_of (IF (IFPopulation.set_v [0.5] sample_IF)) /\
   tau_rc_of (IF (IFPopulation.set_v [0.5] sample_IF)) = None /\
   0.5 < 0.9) /\
  v_of (steps forward_of (replicate 3 (replicate 1 0))
          (IF (IFPopulation.set_v [0.5] sample_IF))) !! 0%nat = Some 0.5.
Proof.
  assert (Hwf : wf_of (IF (IFPopulation.set_v [0.5] sample_IF))).
  { cbn. unfold IFPopulation_wf. cbn. split_and!; eauto. }
  assert (Hlt : 0.5 < 0.9) by lra.
  split.
  - exact (conj Hwf (conj eq_refl Hlt)).
  - exact (proj1 (IF_keeps_potential_without_input
                    (IF (IFPopulation.set_v [0.5] sample_IF)) 0 3 0.5 0.9
                    Hwf eq_refl eq_refl eq_refl Hlt)).
Defined.

(** ** IFPopulation and its counter attribute *)

Lemma IF_outputs_without_counter xs :
  forall st,
    IFPopulation_wf st -> IFPopulation.count_spike st = None ->
    Forall (fun x => length x = IFPopulation.neurons st) xs ->
    outputs IFPopulation.forward xs st = replicate (length xs) (inl AttributeError).
Proof.
  induction xs as [|x xs IH]; intros st Hwf Hc Hxs; [done|].
  apply Forall_cons in Hxs as [Hx Hxs].
  destruct (IF_forward_elem st x Hwf Hx) as (s' & v' & r' & cnt' & E & Hcnt & L1 & L2 & L3 & _).
  rewrite Hc in E, Hcnt. cbn [outputs length replicate]. unfold result, exec.
  rewrite E. cbn [fst snd]. f_equal.
  destruct Hwf as (Hv & Hr & Hs & _).
  apply IH.
  - unfold IFPopulation_wf. cbn. split_and!; try lia. done.
  - done.
  - done.
Qed.

Lemma IF_outputs_with_counter xs :
  forall st,
    IFPopulation_wf st -> is_Some (IFPopulation.count_spike st) ->
    Forall (fun x => length x = IFPopulation.neurons st) xs ->
    Forall (fun o => exists sv : tensor * tensor, o = inr sv)
      (outputs IFPopulation.forward xs st).
Proof.
  induction xs as [|x xs IH]; intros st Hwf [c Hc] Hxs; [constructor|].
  apply Forall_cons in Hxs as [Hx Hxs].
  destruct (IF_forward_elem st x Hwf Hx) as (s' & v' & r' & cnt' & E & Hcnt & L1 & L2 & L3 & _).
  pose proof Hwf as (Hv & Hr & Hs & Hw).
  rewrite Hc in E, Hcnt, Hw. cbn [outputs]. unfold result, exec.
  rewrite E. cbn [fst snd]. constructor; [eauto|].
  apply IH.
  - unfold IFPopulation_wf. cbn. split_and!; try lia; try done; by destruct Hw.
  - cbn. eauto.
  - done.
Qed.

(** X14.  An [IFPopulation] built without [count_spike=True] (the default)
    cannot be stepped: [__init__] then never assigns [self.count_spike],
    which [forward] reads, so every [forward] call on an input of [neurons]
    entries raises [AttributeError], for every choice of the other
    arguments and at every step of a run.  Built with [count_spike=True],
    every such call returns a pair [(s, v)]. *)
Theorem IFPopulation_needs_count_spike (n : nat) (dt v_th rest tau_ref : R)
    (xs : list tensor) :
  Forall (fun x => length x = n) xs ->
  simulate (IFPopulation.__init__ n dt v_th rest tau_ref false) IFPopulation.forward xs
  = inr (replicate (length xs) (inl AttributeError)) /\
  exists outs,
    simulate (IFPopulation.__init__ n dt v_th rest tau_ref true) IFPopulation.forward xs
    = inr outs /\
    Forall (fun o => exists sv : tensor * tensor, o = inr sv) outs.
Proof.
  intros Hxs. split.
  - destruct (IF_init_reset n dt v_th rest tau_ref false _ eq_refl) as [Hwf _].
    unfold simulate. cbn [IFPopulation.__init__]. f_equal.
    apply IF_outputs_without_counter; done.
  - destruct (IF_init_reset n dt v_th rest tau_ref true _ eq_refl) as [Hwf _].
    eexists. split; [reflexivity|].
    apply IF_outputs_with_counter; [done|cbn; eauto|done].
Qed.

(** X14 on [IFPopulation(2)] with the default arguments, fed two inputs. *)
Lemma IFPopulation_needs_count_spike_witness :
  Forall (fun x : tensor => length x = 2%nat) [[1; 0]; [0; 1]] /\
  simulate (IFPopulation.__init__ 2 1 0.9 0 0 false) IFPopulation.forward
    [[1; 0]; [0; 1]]
  = inr (replicate (length [[1; 0]; [0; 1]]) (inl AttributeError)).
Proof.
  assert (Hxs : Forall (fun x : tensor => length x = 2%nat) [[1; 0]; [0; 1]])
    by (repeat constructor).
  split; [exact Hxs|].
  exact (proj1 (IFPopulation_needs_count_spike 2 1 0.9 0 0 [[1; 0]; [0; 1]] Hxs)).
Defined.

(** ** LIFPopulation with a zero offset and LIFPopulation2 *)

Lemma same_plain_dynamics_step a b x :
  same_plain_dynamics a b ->
  result (LIFPopulation.forward x) a = result (LIFPopulation2.forward x) b /\
  same_plain_dynamics (exec (LIFPopulation.forward x) a)
    (exec (LIFPopulation2.forward x) b).
Proof.
  intros (En & Edt & Ev & Erc & Eth & Etheta & Es & Erest & Er & Eref & Hc).
  destruct a as [n dt v tau_rc v_th theta s rest refrac tau_ref].
  destruct b as [n' dt' v' tau_rc' v_th' s' rest' refrac' tau_ref' cnt].
  simpl in *. subst.
  unfold result, exec, same_plain_dynamics, LIFPopulation.forward, LIFPopulation2.forward.
  unfold mbind, M_bind, get, put, lift, getattr, mret, M_ret,
    torch.copy_, torch.mul, torch.ge, torch.iadd, torch.masked_fill_.
  red_LIF; red_LIF2. rewrite Rplus_0_r.
  repeat (red_LIF; red_LIF2;
          first [ rewrite (inplace_same Rplus cnt) by len
                | next_op ]);
    red_LIF; red_LIF2; cbn; split_and!; eauto; try lia.
  all: len.
Qed.

Lemma same_plain_dynamics_outputs xs :
  forall a b,
    same_plain_dynamics a b ->
    outputs LIFPopulation.forward xs a = outputs LIFPopulation2.forward xs b.
Proof.
  induction xs as [|x xs IH]; intros a b Hab; simpl; [done|].
  destruct (same_plain_dynamics_step a b x Hab) as [-> Hab']. f_equal. by apply IH.
Qed.

(** X15.  [LIFPopulation2] is [LIFPopulation] with [theta = 0] plus a spike
    counter: two objects that agree on the attributes they share give the
    same outcome, [(s, v)] or the same exception, at every step of every
    input sequence, inputs of any length included; so do
    [LIFPopulation(n, dt, tau_rc, v_th, 0, rest, tau_ref)] and
    [LIFPopulation2(n, dt, tau_rc, v_th, rest, tau_ref)]. *)
Theorem LIFPopulation2_is_LIFPopulation_without_offset :
  (forall a b xs,
      same_plain_dynamics a b ->
      outputs LIFPopulation.forward xs a = outputs LIFPopulation2.forward xs b) /\
  (forall n dt tau_rc v_th rest tau_ref xs,
      simulate (LIFPopulation.__init__ n dt tau_rc v_th 0 rest tau_ref)
        LIFPopulation.forward xs =
      simulate (LIFPopulation2.__init__ n dt tau_rc v_th rest tau_ref)
        LIFPopulation2.forward xs).
Proof.
  split.
  - intros a b xs Hab. by apply same_plain_dynamics_outputs.
  - intros n dt tau_rc v_th rest tau_ref xs. unfold simulate.
    cbn [LIFPopulation.__init__ LIFPopulation2.__init__]. f_equal.
    apply same_plain_dynamics_outputs.
    unfold same_plain_dynamics, torch.zeros. cbn. rewrite !length_replicate.
    split_and!; eauto.
Qed.

(** X15 on [LIFPopulation(1, theta=0.)] and the sample [LIFPopulation2]. *)
Lemma LIFPopulation2_is_LIFPopulation_without_offset_witness :
  same_plain_dynamics (LIFPopulation.mk 1 1 [-65] 100 (-52) 0 [0] (-65) [0] 5)
    sample_LIF2 /\
  outputs LIFPopulation.forward [[14]; [0]; [1; 2]]
    (LIFPopulation.mk 1 1 [-65] 100 (-52) 0 [0] (-65) [0] 5)
  = outputs LIFPopulation2.forward [[14]; [0]; [1; 2]] sample_LIF2.
Proof.
  assert (H : same_plain_dynamics
                (LIFPopulation.mk 1 1 [-65] 100 (-52) 0 [0] (-65) [0] 5) sample_LIF2).
  { unfold same_plain_dynamics. cbn. split_and!; reflexivity. }
  split; [exact H|].
  exact (proj1 LIFPopulation2_is_LIFPopulation_without_offset
           (LIFPopulation.mk 1 1 [-65] 100 (-52) 0 [0] (-65) [0] 5) sample_LIF2
           [[14]; [0]; [1; 2]] H).
Defined.

(** ** Silence during the refractory period *)

(** X16.  No spike inside the refractory period, for every thresholded
    class with positive time constants: a neuron at rest, [rest] being
    below its threshold, emits no spike and stays at rest over every run
    of steps at the start of each of which its refractory counter is
    positive, whatever the inputs (of [neurons] entries) of those steps. *)
Theorem no_spike_while_refractory (p : thresholded) (xs : list tensor) (i : nat) :
  wf_of p -> positive_time_constants p ->
  Forall (fun x => length x = neurons_of p) xs ->
  at_rest i p -> refractory_throughout i xs p ->
  spikes_emitted i xs p = 0%nat /\
  v_of (steps forward_of xs p) !! i = Some (rest_of p).
Proof.
  intros Hwf _ Hxs Hrest Href.
  destruct (at_rest_steps i xs p Hwf Hxs Hrest Href) as (_ & _ & Er & (Hv & _) & Hs).
  split; [exact Hs|]. by rewrite <- Er.
Qed.

(** X16 on the sample [IFPopulation] after its spike, fed 5 and 7. *)
Lemma no_spike_while_refractory_witness :
  (wf_of (exec (forward_of [1]) (IF sample_IF)) /\
   positive_time_constants (exec (forward_of [1]) (IF sample_IF)) /\
   Forall (fun x : tensor => length x = neurons_of (exec (forward_of [1]) (IF sample_IF)))
     [[5]; [7]] /\
   at_rest 0 (exec (forward_of [1]) (IF sample_IF)) /\
   refractory_throughout 0 [[5]; [7]] (exec (forward_of [1]) (IF sample_IF))) /\
  spikes_emitted 0 [[5]; [7]] (exec (forward_of [1]) (IF sample_IF)) = 0%nat.
Proof.
  destruct sample_IF_run as (E1 & E2 & _).
  assert (Hwf : wf_of (exec (forward_of [1]) (IF sample_IF))).
  { rewrite E1. cbn. unfold IFPopulation_wf. cbn. split_and!; eauto. }
  assert (Hpos : positive_time_constants (exec (forward_of [1]) (IF sample_IF))).
  { rewrite E1. split; [cbn; lra|]. intros tau [=]. }
  assert (Hxs : Forall
                  (fun x : tensor =>
                     length x = neurons_of (exec (forward_of [1]) (IF sample_IF)))
                  [[5]; [7]]).
  { rewrite E1. repeat constructor. }
  assert (Hrest : at_rest 0 (exec (forward_of [1]) (IF sample_IF))).
  { rewrite E1. split; [reflexivity|]. exists 0.9. split; [reflexivity|]. cbn. lra. }
  assert (Href : refractory_throughout 0 [[5]; [7]] (exec (forward_of [1]) (IF sample_IF))).
  { cbn [refractory_throughout]. rewrite E2, E1. cbn.
    split; [exists 2; split; [done|lra]|].
    split; [exists 1; split; [done|lra]|done]. }
  split.
  - exact (conj Hwf (conj Hpos (conj Hxs (conj Hrest Href)))).
  - exact (proj1 (no_spike_while_refractory (exec (forward_of [1]) (IF sample_IF))
                    [[5]; [7]] 0 Hwf Hpos Hxs Hrest Href)).
Defined.

(** ** Counters across resets and runs *)

(** [reset] clears the counter of the leaky classes and leaves that of an
    [IFPopulation]. *)
Lemma spikecount_reset p cnt :
  wf_of p -> spikecount_of p = Some cnt ->
  spikecount_of (exec reset_of p)
  = Some (match p with IF _ => cnt | _ => replicate (neurons_of p) 0 end).
Proof.
  intros Hwf Hc. destruct p as [st|st|st|st|st]; simpl in Hc; try done;
    unfold exec, reset_of, dispatch.
  - rewrite (Homeo_reset st Hwf). destruct Hwf as (_ & _ & _ & _ & Hw).
    destruct (HomoeostasisLIFPopulation.count_spike st); cbn; [done|congruence].
  - rewrite (LIF2_reset st Hwf). cbn. done.
Qed.

(** X17.  [reset] and the spike counter.  After a [reset] and a run of at
    most 2^24 inputs of [neurons] entries, the counter entry of a neuron is
    the number of its spikes since the reset in [HomoeostasisLIFPopulation]
    (with [count_spike]) and [LIFPopulation2], whose [reset] clears
    [spikecount]; in [IFPopulation], whose [reset] leaves [spikecount]
    alone, the count [m] from before the reset stays and the spikes are
    added to it (while the total is within 2^24, where the binary32
    counter adds 1 exactly). *)
Theorem spike_counter_since_reset (i : nat) (xs : list tensor) (p : thresholded)
    (cnt : tensor) (m : nat) :
  wf_of p -> Forall (fun x => length x = neurons_of p) xs ->
  spikecount_of p = Some cnt -> cnt !! i = Some (INR m) ->
  (Z.of_nat (m + length xs) <= 16777216)%Z ->
  let p0 := exec reset_of p in
  exists cnt',
    spikecount_of (steps forward_of xs p0) = Some cnt' /\
    cnt' !! i
    = Some (INR (match p with IF _ => m | _ => 0 end + spikes_emitted i xs p0)).
Proof.
  intros Hwf Hxs Hc Hi _ p0.
  destruct (reset_of_spec p Hwf) as (_ & Hwf0 & En & _).
  pose proof (spikecount_reset p cnt Hwf Hc) as Hc0. fold p0 in Hwf0, En, Hc0.
  assert (Hxs0 : Forall (fun x : tensor => length x = neurons_of p0) xs)
    by (by rewrite En).
  assert (Hn : (i < neurons_of p)%nat).
  { apply lookup_lt_Some in Hi. rewrite (spikecount_length p cnt Hwf Hc) in Hi. done. }
  rewrite plus_INR.
  eapply (spikecount_steps i xs p0 _ _ Hwf0 Hxs0 Hc0).
  destruct p as [st|st|st|st|st]; try done; by apply lookup_replicate.
Qed.

(** X17 on a [LIFPopulation2] that has counted two spikes. *)
Lemma spike_counter_since_reset_witness :
  (wf_of (LIF2 (LIFPopulation2.set_spikecount [INR 2] sample_LIF2)) /\
   Forall (fun x : tensor => length x = 1%nat) [[14]; [0]] /\
   (Z.of_nat (2 + length [[14]; [0]]) <= 16777216)%Z) /\
  exists cnt',
    spikecount_of
      (steps forward_of [[14]; [0]]
         (exec reset_of (LIF2 (LIFPopulation2.set_spikecount [INR 2] sample_LIF2))))
    = Some cnt' /\
    cnt' !! 0%nat
    = Some (INR (0 + spikes_emitted 0 [[14]; [0]]
                       (exec reset_of
                          (LIF2 (LIFPopulation2.set_spikecount [INR 2] sample_LIF2))))).
Proof.
  assert (Hwf : wf_of (LIF2 (LIFPopulation2.set_spikecount [INR 2] sample_LIF2))).
  { cbn. unfold LIFPopulation2_wf. cbn. split_and!; eauto. }
  assert (Hxs : Forall (fun x : tensor => length x = 1%nat) [[14]; [0]])
    by (repeat constructor).
  assert (Hm : (Z.of_nat (2 + length [[14]; [0]]) <= 16777216)%Z) by (cbn; lia).
  split.
  - exact (conj Hwf (conj Hxs Hm)).
  - exact (spike_counter_since_reset 0%nat [[14]; [0]]
             (LIF2 (LIFPopulation2.set_spikecount [INR 2] sample_LIF2)) [INR 2] 2
             Hwf Hxs eq_refl eq_refl Hm).
Defined.

(** The counter of an [InputPopulation] adds up its inputs. *)
Lemma Input_counter_sum (i : nat) (xs : list tensor) :
  forall st cnt c,
    InputPopulation_wf st -> InputPopulation.count_spike st = true ->
    Forall (fun x => length x = InputPopulation.neurons st) xs ->
    InputPopulation.spikecount st = Some cnt -> cnt !! i = Some c ->
    exists cnt',
      InputPopulation.spikecount (steps InputPopulation.forward xs st) = Some cnt' /\
      cnt' !! i = Some (c + input_sum i xs).
Proof.
  induction xs as [|x xs IH]; intros st cnt c Hwf Hcs Hxs Hc Hi.
  - exists cnt. simpl. split; [done|]. rewrite Hi. f_equal. lra.
  - apply Forall_cons in Hxs as [Hx Hxs].
    pose proof Hwf as (_ & _ & Htr & [tau Htau] & [sc Hsc] & Hw).
    destruct (InputPopulation.x st) as [tr|] eqn:Etr; [|done].
    pose proof (Input_forward_exact st x tr tau sc Hwf Hx Etr Htau Hsc) as E.
    pose proof (Input_forward_wf st x Hwf Hx) as Hwf'.
    rewrite Hcs, Hc in E. rewrite Hcs, Hc in Hw. simpl in Hw.
    rewrite steps_cons.
    set (st' := exec (InputPopulation.forward x) st) in *.
    assert (En : InputPopulation.neurons st' = InputPopulation.neurons st)
      by (unfold st', exec; rewrite E; reflexivity).
    assert (Ecs : InputPopulation.count_spike st' = true)
      by (unfold st', exec; rewrite E; reflexivity).
    assert (Ec : InputPopulation.spikecount st' = Some (zip_with Rplus cnt x))
      by (unfold st', exec; rewrite E; reflexivity).
    destruct (lookup_lt_is_Some_2 x i) as [xi Hxi].
    { apply lookup_lt_Some in Hi. lia. }
    destruct (IH st' (zip_with Rplus cnt x) (c + xi) Hwf' Ecs) as (cnt' & E' & Hl); auto.
    + by rewrite En.
    + rewrite lookup_zip_with, Hi, Hxi. done.
    + exists cnt'. split; [exact E'|]. rewrite Hl. cbn [input_sum]. rewrite Hxi.
      simpl. f_equal. lra.
Qed.

(** The sum of spike inputs is their number. *)
Lemma input_sum_spikes (i : nat) (xs : list tensor) :
  Forall binary xs -> (forall x, x ∈ xs -> is_Some (x !! i)) ->
  input_sum i xs = INR (input_spikes i xs).
Proof.
  induction xs as [|x xs IH]; intros Hb Hi; [done|].
  apply Forall_cons in Hb as [Hx Hb].
  destruct (Hi x) as [xi Hxi]; [left|].
  assert (IH' : input_sum i xs = INR (input_spikes i xs)).
  { apply IH; [done|]. intros y Hy. apply Hi. by right. }
  cbn [input_sum input_spikes]. rewrite Hxi, plus_INR, IH'. cbn [default].
  apply (Forall_lookup_1 _ _ _ _ Hx) in Hxi as Hc. destruct Hc as [-> | ->].
  - rewrite bool_decide_false by (intros [= E]; lra). simpl. lra.
  - rewrite bool_decide_true by done. simpl. lra.
Qed.

(** X18.  With [count_spike=True] an [InputPopulation] counts its input
    spikes: over a run of inputs of [neurons] entries that are all 0 or 1,
    a counter entry that holds the whole number [m] grows by the number of
    inputs that carry a 1 for that neuron, as long as the count stays
    within 2^24, where the binary32 counter adds 1 exactly.  (The counter
    adds the raw input values: it is a spike count only for such
    inputs.) *)
Theorem Input_counter_counts_input_spikes (i : nat) (xs : list tensor)
    (st : InputPopulation.state) (cnt : tensor) (m : nat) :
  InputPopulation_wf st -> InputPopulation.count_spike st = true ->
  Forall (fun x => length x = InputPopulation.neurons st) xs ->
  Forall binary xs ->
  InputPopulation.spikecount st = Some cnt -> cnt !! i = Some (INR m) ->
  (Z.of_nat (m + length xs) <= 16777216)%Z ->
  exists cnt',
    InputPopulation.spikecount (steps InputPopulation.forward xs st) = Some cnt' /\
    cnt' !! i = Some (INR (m + input_spikes i xs)).
Proof.
  intros Hwf Hcs Hxs Hb Hc Hi _.
  destruct (Input_counter_sum i xs st cnt (INR m) Hwf Hcs Hxs Hc Hi) as (cnt' & E & Hl).
  exists cnt'. split; [exact E|]. rewrite Hl, plus_INR. do 2 f_equal.
  apply input_sum_spikes; [done|].
  intros x Hx. apply lookup_lt_is_Some_2.
  rewrite Forall_forall in Hxs. rewrite (Hxs x Hx).
  apply lookup_lt_Some in Hi.
  destruct Hwf as (_ & _ & _ & _ & _ & Hw). rewrite Hcs, Hc in Hw. simpl in Hw. lia.
Qed.

(** X18 on [InputPopulation(2, count_spike=True)] fed [1, 0] and [1, 1]. *)
Lemma Input_counter_counts_input_spikes_witness :
  (InputPopulation_wf
     (InputPopulation.mk 2 true true 1 [0; 0] (Some [0; 0]) (Some 20) (Some 1)
        (Some [INR 0; INR 0])) /\
   Forall (fun x : tensor => length x = 2%nat) [[1; 0]; [1; 1]] /\
   Forall binary [[1; 0]; [1; 1]] /\
   (Z.of_nat (0 + length [[1; 0]; [1; 1]]) <= 16777216)%Z) /\
  exists cnt',
    InputPopulation.spikecount
      (steps InputPopulation.forward [[1; 0]; [1; 1]]
         (InputPopulation.mk 2 true true 1 [0; 0] (Some [0; 0]) (Some 20) (Some 1)
            (Some [INR 0; INR 0]))) = Some cnt' /\
    cnt' !! 1%nat = Some (INR (0 + input_spikes 1 [[1; 0]; [1; 1]])).
Proof.
  assert (Hwf : InputPopulation_wf
                  (InputPopulation.mk 2 true true 1 [0; 0] (Some [0; 0]) (Some 20)
                     (Some 1) (Some [INR 0; INR 0]))).
  { unfold InputPopulation_wf. cbn. split_and!; eauto. }
  assert (Hxs : Forall (fun x : tensor => length x = 2%nat) [[1; 0]; [1; 1]])
    by (repeat constructor).
  assert (Hb : Forall binary [[1; 0]; [1; 1]]).
  { unfold binary.
    repeat match goal with |- Forall _ _ => constructor end;
      first [by left | by right]. }
  assert (Hm : (Z.of_nat (0 + length [[1; 0]; [1; 1]]) <= 16777216)%Z) by (cbn; lia).
  split.
  - exact (conj Hwf (conj Hxs (conj Hb Hm))).
  - exact (Input_counter_counts_input_spikes 1 [[1; 0]; [1; 1]]
             (InputPopulation.mk 2 true true 1 [0; 0] (Some [0; 0]) (Some 20) (Some 1)
                (Some [INR 0; INR 0]))
             [INR 0; INR 0] 0 Hwf eq_refl Hxs Hb eq_refl eq_refl Hm).
Defined.

(** ** The buffer named threshold *)

Lemma threshold_buffer_call c p :
  wf_of p -> threshold_buffer_of (run_call c p) = threshold_buffer_of p.
Proof.
  intros Hwf. destruct c as [x|]; simpl.
  - assert (Hok : forall y, length y = neurons_of p ->
                            threshold_buffer_of (exec (forward_of y) p)
                            = threshold_buffer_of p).
    { intros y Hy. destruct p as [st|st|st|st|st]; try reflexivity.
      unfold exec, forward_of, dispatch.
      destruct (Homeo_forward_elem st y Hwf Hy) as (? & ? & ? & ? & ? & -> & _). done. }
    destruct (decide (length x = neurons_of p)) as [Hx|Hx]; [by apply Hok|].
    destruct (decide (length x = 1%nat)) as [H1|H1].
    { destruct x as [|c [|? ?]]; simpl in H1; try lia.
      unfold exec. rewrite forward_of_broadcast by done.
      apply Hok. by rewrite length_replicate. }
    unfold exec. rewrite forward_of_mismatch by done. cbn [fst].
    by destruct p as [st|st|st|st|st]; destruct st.
  - destruct p as [st|st|st|st|st]; try reflexivity.
    unfold exec, reset_of, dispatch. rewrite (Homeo_reset st Hwf). cbn.
    by destruct (HomoeostasisLIFPopulation.count_spike st).
Qed.

(** X19.  The buffer [threshold] of a [HomoeostasisLIFPopulation] is written
    by [__init__] only: no sequence of [forward] and [reset] calls, whatever
    the inputs, changes it.  The threshold that [forward] tests against,
    [v_th + theta], is not stored there. *)
Theorem threshold_buffer_is_never_updated (cs : list call) :
  forall p,
    wf_of p -> threshold_buffer_of (run_calls cs p) = threshold_buffer_of p.
Proof.
  induction cs as [|c cs IH]; intros p Hwf; [done|].
  change (run_calls (c :: cs) p) with (run_calls cs (run_call c p)).
  destruct (run_call_any c p Hwf) as (Hwf' & _).
  rewrite IH by done. by apply threshold_buffer_call.
Qed.

(** X19 on the sample [HomoeostasisLIFPopulation]. *)
Lemma threshold_buffer_is_never_updated_witness :
  wf_of (HomoeostasisLIF sample_Homeo) /\
  threshold_buffer_of
    (run_calls [call_forward [14]; call_forward [14]; call_reset; call_forward [1; 2]]
       (HomoeostasisLIF sample_Homeo))
  = threshold_buffer_of (HomoeostasisLIF sample_Homeo).
Proof.
  split; [exact sample_Homeo_wf|].
  exact (threshold_buffer_is_never_updated
           [call_forward [14]; call_forward [14]; call_reset; call_forward [1; 2]]
           (HomoeostasisLIF sample_Homeo) sample_Homeo_wf).
Defined.
